(** * Burma2D server: the real-time fan-out and connection-lifecycle core

    A shallow embedding of the three fan-out implementations of the
    repository and of the handlers around them:

    - package [live]   (SSE result ticker: [UpdateLotteryData],
                        [checkAndInsertHistory], [StreamLotteryData],
                        [broadcastUpdate], [GetCurrentData]),
    - package [chatws] (WebSocket chat: [HandleWebSocket], [handleBroadcast],
                        [disconnect], [handleChatMessage],
                        [GetRecentMessagesHandler]),
    - package [chat]   (SSE chat: [googleAuthHandler], [sseStreamHandler],
                        [sendMessageHandler], [broadcastMessage],
                        [getMessagesHandler], the block and ban handlers and
                        the listings).

    Go channels are modelled as bounded FIFO queues with a closed flag, the
    registries as finite sets and maps (stdpp), pointers as addresses into an
    explicit heap, and the SQLite tables as in-memory tables. *)

From Stdlib Require Import ZArith Lia List String Ascii.
From stdpp Require Import base decidable option numbers list gmap sets strings pretty fin_maps sorting.

(* ===================================================================== *)
(** ** Go buffered channels *)
(* ===================================================================== *)

Module GoChan.

Section chan.
Context {A : Type}.

(** [make(chan A, cap)]: a FIFO queue of at most [cap] elements and the
    closed flag. Every channel of the program is buffered. *)
Record chan := mkChan { buf : list A; cap : nat; closed : bool }.

Definition make (n : nat) : chan := mkChan [] n false.

(** [select { case ch <- v: ... default: ... }]. A send on a closed channel
    panics, also inside a select. *)
Inductive select_send :=
| Enqueued (c : chan)
| WouldBlock
| SendOnClosed.

Definition try_send (v : A) (c : chan) : select_send :=
  if closed c then SendOnClosed
  else if length (buf c) <? cap c
       then Enqueued (mkChan (buf c ++ [v]) (cap c) false)
       else WouldBlock.

(** [close(ch)]: closing a closed channel panics ([None]). *)
Definition close (c : chan) : option chan :=
  if closed c then None else Some (mkChan (buf c) (cap c) true).

(** [v, ok := <-ch] when it does not block. *)
Inductive recv_result :=
| Received (v : A) (c : chan)
| ClosedAndDrained
| NothingYet.

Definition try_recv (c : chan) : recv_result :=
  match buf c with
  | v :: rest => Received v (mkChan rest (cap c) (closed c))
  | [] => if closed c then ClosedAndDrained else NothingYet
  end.

Definition full (c : chan) : bool := negb (length (buf c) <? cap c).

(** The channel after a select-send: one more element when there was room,
    the same channel otherwise. *)
Definition after_send (v : A) (c : chan) : chan :=
  match try_send v c with
  | Enqueued c' => c'
  | _ => c
  end.

End chan.

Global Arguments chan : clear implicits.

End GoChan.

Import GoChan.

Local Open Scope string_scope.

(** The line feed, and [fmt.Sprintf("data: %s\n\n", m)], the SSE frame. *)
Definition LF : string := String (ascii_of_nat 10) EmptyString.

Definition sse_frame (m : string) : string := "data: " +:+ m +:+ LF +:+ LF.

(* ===================================================================== *)
(** ** Package [live]: the result ticker *)
(* ===================================================================== *)

Module Live.

(** [LotteryDataInput]: the producer's JSON body, old key format. *)
Module Input.
Record t := mk {
  Date : string; Live : string; Status : string;
  Set1200 : string; Value1200 : string; Result1200 : string;
  Set430 : string; Value430 : string; Result430 : string;
  Modern930 : string; Internet930 : string;
  Modern200 : string; Internet200 : string;
  UpdateTime : string
}.
End Input.

(** [LotteryData]: the snapshot, with the derived [active_viewers] count. *)
Record LotteryData := mkLotteryData {
  Date : string; Live : string; Status : string;
  Set1200 : string; Value1200 : string; Result1200 : string;
  Set430 : string; Value430 : string; Result430 : string;
  Modern930 : string; Internet930 : string;
  Modern200 : string; Internet200 : string;
  UpdateTime : string;
  ViewCount : nat
}.

Definition defaultVal (val : string) : string :=
  if decide (val = "") then "--" else val.

Definition defaultResult (val : string) : string :=
  if decide (val = "") then "---" else val.

Definition ToLotteryData (input : Input.t) : LotteryData :=
  {| Date := Input.Date input;
     Live := defaultVal (Input.Live input);
     Status := Input.Status input;
     Set1200 := defaultVal (Input.Set1200 input);
     Value1200 := defaultVal (Input.Value1200 input);
     Result1200 := defaultResult (Input.Result1200 input);
     Set430 := defaultVal (Input.Set430 input);
     Value430 := defaultVal (Input.Value430 input);
     Result430 := defaultResult (Input.Result430 input);
     Modern930 := defaultVal (Input.Modern930 input);
     Internet930 := defaultVal (Input.Internet930 input);
     Modern200 := defaultVal (Input.Modern200 input);
     Internet200 := defaultVal (Input.Internet200 input);
     UpdateTime := Input.UpdateTime input;
     ViewCount := 0 |}.

(** [currentData.ViewCount = n]: the snapshot is mutated in place. *)
Definition with_ViewCount (n : nat) (d : LotteryData) : LotteryData :=
  {| Date := Date d; Live := Live d; Status := Status d;
     Set1200 := Set1200 d; Value1200 := Value1200 d; Result1200 := Result1200 d;
     Set430 := Set430 d; Value430 := Value430 d; Result430 := Result430 d;
     Modern930 := Modern930 d; Internet930 := Internet930 d;
     Modern200 := Modern200 d; Internet200 := Internet200 d;
     UpdateTime := UpdateTime d; ViewCount := n |}.

(** The process-wide state of package [live]. Channels are heap objects named
    by a reference; [clients] is [map[chan string]bool], whose values are all
    [true], so a finite set of references; [next_chan] is the allocator of
    [make]. [jsonBufferPool] holds the idle buffers that a [Get] finds, each
    with the content it was put back with. [encodes] is the log of the JSON
    encoder, written by the encoder call itself ([json_call] below): the
    values it was called on, in call order. [buffers_made] counts the
    [bytes.Buffer]s made by the pool's [New]. *)
Record state := mkState {
  currentData : LotteryData;
  clients : gset nat;
  chans : gmap nat (chan string);
  next_chan : nat;
  cachedJSONMessage : string;
  jsonBufferPool : list string;
  encodes : list LotteryData;
  buffers_made : nat
}.

(** [Init]: the placeholder snapshot ([UpdateTime] is the start-up clock). *)
Definition Init (now : string) : state :=
  {| currentData :=
       {| Date := ""; Live := "--"; Status := "Off";
          Set1200 := "--"; Value1200 := "--"; Result1200 := "---";
          Set430 := "--"; Value430 := "--"; Result430 := "---";
          Modern930 := "---"; Internet930 := "---";
          Modern200 := "---"; Internet200 := "---";
          UpdateTime := now; ViewCount := 0 |};
     clients := ∅; chans := ∅; next_chan := 0;
     cachedJSONMessage := ""; jsonBufferPool := [];
     encodes := []; buffers_made := 0 |}.

Definition with_chans (h : gmap nat (chan string)) (s : state) : state :=
  {| currentData := currentData s; clients := clients s; chans := h;
     next_chan := next_chan s; cachedJSONMessage := cachedJSONMessage s;
     jsonBufferPool := jsonBufferPool s;
     encodes := encodes s; buffers_made := buffers_made s |}.

(** The loop of [broadcastUpdate], step 3: for every registered channel a
    select with a send case and a default case. [None] is a panic (send on a
    closed channel). The counters are [sentCount] and [skippedCount]. *)
Fixpoint fanout (message : string) (order : list nat) (h : gmap nat (chan string))
    (sentCount skippedCount : nat) : option (gmap nat (chan string) * nat * nat) :=
  match order with
  | [] => Some (h, sentCount, skippedCount)
  | clientChan :: rest =>
      match h !! clientChan with
      | None => None
      | Some c =>
          match try_send message c with
          | Enqueued c' =>
              fanout message rest (<[clientChan := c']> h) (S sentCount) skippedCount
          | WouldBlock => fanout message rest h sentCount (S skippedCount)
          | SendOnClosed => None
          end
      end
  end.

(** What a handler answers or writes. *)
Inductive response :=
| Resp400
| Resp200 (data : LotteryData).

Section handlers.

(** [encoding/json] on a [LotteryData], an external library: [None] is an
    encoding error. *)
Variable json_Marshal : LotteryData → option string.

(** What [json.NewEncoder(buf).Encode(v)] leaves in the buffer: its content,
    the encoding and a line feed. *)
Definition Encode (buf : string) (v : LotteryData) : option string :=
  (λ js, buf +:+ js +:+ LF) <$> json_Marshal v.

(** A call of the JSON encoder on [v]: its result, and the call entered in
    the log. The handlers encode through this call only; the loop [fanout]
    above takes the message as it is and has no encoder to call. *)
Definition json_call (v : LotteryData) (s : state) : state * option string :=
  ({| currentData := currentData s; clients := clients s; chans := chans s;
      next_chan := next_chan s; cachedJSONMessage := cachedJSONMessage s;
      jsonBufferPool := jsonBufferPool s;
      encodes := encodes s ++ [v]; buffers_made := buffers_made s |},
   json_Marshal v).

(** [json.NewEncoder(buf).Encode(v)] as a call: [buf] is the content of the
    buffer before it. *)
Definition Encoder_Encode (buf : string) (v : LotteryData) (s : state)
    : state * option string :=
  let '(s', r) := json_call v s in (s', (λ js, buf +:+ js +:+ LF) <$> r).

(** [jsonBufferPool.Get()] followed by [buf.Reset()]: an idle buffer is
    taken out of the pool when there is one, a new one is made otherwise;
    its content is dropped. *)
Definition pool_Get (s : state) : list string * nat :=
  match jsonBufferPool s with
  | _ :: rest => (rest, buffers_made s)
  | [] => ([], S (buffers_made s))
  end.

(** [broadcastUpdate], steps 1 and 2 and the caching of the message: the
    client count, the buffer taken from the pool and reset, the view count
    written into the snapshot, one call of the encoder into that buffer,
    the buffer put back with what it holds, the message cached. [None]: the
    encoder failed and [broadcastUpdate] returns. *)
Definition broadcast_prepare (s : state) : state * option string :=
  let clientCount := size (clients s) in
  let '(pool, made) := pool_Get s in
  let data := with_ViewCount clientCount (currentData s) in
  let '(s1, r) :=
    Encoder_Encode ""
      data
      {| currentData := data; clients := clients s; chans := chans s;
         next_chan := next_chan s;
         cachedJSONMessage := cachedJSONMessage s;
         jsonBufferPool := pool;
         encodes := encodes s; buffers_made := made |} in
  match r with
  | None =>
      ({| currentData := currentData s1; clients := clients s1; chans := chans s1;
          next_chan := next_chan s1;
          cachedJSONMessage := cachedJSONMessage s1;
          jsonBufferPool := "" :: jsonBufferPool s1;
          encodes := encodes s1; buffers_made := buffers_made s1 |}, None)
  | Some message =>
      ({| currentData := currentData s1; clients := clients s1; chans := chans s1;
          next_chan := next_chan s1;
          cachedJSONMessage := message;
          jsonBufferPool := message :: jsonBufferPool s1;
          encodes := encodes s1; buffers_made := buffers_made s1 |}, Some message)
  end.

(** [broadcastUpdate], with the iteration order of the map range as [order]
    (see [broadcastUpdate] below). The result carries [sentCount] and
    [skippedCount]. *)
Definition broadcastUpdate_in (order : list nat) (s : state)
    : option (state * nat * nat) :=
  match broadcast_prepare s with
  | (s1, None) => Some (s1, 0, 0)
  | (s1, Some message) =>
      (* Step 3: one non-blocking send per registered channel *)
      match fanout message order (chans s1) 0 0 with
      | None => None
      | Some (h, sentCount, skippedCount) =>
          Some (with_chans h s1, sentCount, skippedCount)
      end
  end.

(** Go ranges over a map in an unspecified order; [elements] is one of them,
    and [LiveFacts.fanout_spec] shows that the order does not matter. *)
Definition broadcastUpdate (s : state) : option (state * nat * nat) :=
  broadcastUpdate_in (elements (clients s)) s.

(** [UpdateLotteryData]. [body] is the request body after [io.ReadAll] and
    [json.Unmarshal] ([None]: either failed). [checkAndInsertHistory] only
    touches [lastCheckTime] and the history collaborator; it is part of
    [LiveHistory.UpdateLotteryData] below.
    The response carries [newData], the very object [currentData] points to,
    hence with the view count that [broadcastUpdate] wrote. *)
Definition UpdateLotteryData (body : option Input.t) (s : state)
    : option (state * response) :=
  match body with
  | None => Some (s, Resp400)
  | Some inputData =>
      let newData := ToLotteryData inputData in
      let s1 := {| currentData := newData; clients := clients s; chans := chans s;
                   next_chan := next_chan s;
                   cachedJSONMessage := cachedJSONMessage s;
                   jsonBufferPool := jsonBufferPool s;
                   encodes := encodes s; buffers_made := buffers_made s |} in
      match broadcastUpdate s1 with
      | None => None
      | Some (s2, _, _) => Some (s2, Resp200 (currentData s2))
      end
  end.

(** [GetCurrentData]: the snapshot as stored, view count included. *)
Definition GetCurrentData (s : state) : response := Resp200 (currentData s).

(** [StreamLotteryData], registration: [make(chan string, 50)], then under the
    write lock the insertion and [len(clients)]. *)
Definition stream_register (s : state) : state * nat * nat :=
  let clientChan := next_chan s in
  let cl := {[clientChan]} ∪ clients s in
  ({| currentData := currentData s; clients := cl;
      chans := <[clientChan := make 50]> (chans s);
      next_chan := S clientChan;
      cachedJSONMessage := cachedJSONMessage s;
      jsonBufferPool := jsonBufferPool s;
      encodes := encodes s; buffers_made := buffers_made s |},
   clientChan, size cl).

(** [StreamLotteryData], the initial frame: the cached message when there is
    one, a fresh [json.Marshal] of the snapshot otherwise (its error is
    dropped, the message is then empty). *)
Definition stream_initial (clientCount : nat) (s : state) : state * string :=
  let initialMessage := cachedJSONMessage s in
  if decide (initialMessage = "") then
    let data := with_ViewCount clientCount (currentData s) in
    let '(s1, initialData) :=
      json_call data
        {| currentData := data; clients := clients s; chans := chans s;
           next_chan := next_chan s;
           cachedJSONMessage := cachedJSONMessage s;
           jsonBufferPool := jsonBufferPool s;
           encodes := encodes s; buffers_made := buffers_made s |} in
    (s1, sse_frame (default "" initialData))
  else (s, sse_frame initialMessage).

(** A new stream connection up to its first frame: the channel it made and
    the frame written to the transport. *)
Definition StreamLotteryData_open (s : state) : state * nat * string :=
  let '(s1, clientChan, clientCount) := stream_register s in
  let '(s2, frame) := stream_initial clientCount s1 in
  (s2, clientChan, frame).

End handlers.

(** [case message := <-clientChan]: the frame written for the oldest queued
    message ([None]: the select would not take this case). *)
Definition stream_recv (clientChan : nat) (s : state) : option (state * string) :=
  match chans s !! clientChan with
  | Some c =>
      match try_recv c with
      | Received message c' =>
          Some ({| currentData := currentData s; clients := clients s;
                   chans := <[clientChan := c']> (chans s);
                   next_chan := next_chan s;
                   cachedJSONMessage := cachedJSONMessage s;
                   jsonBufferPool := jsonBufferPool s;
                   encodes := encodes s; buffers_made := buffers_made s |},
                sse_frame message)
      | _ => None
      end
  | None => None
  end.

(** [case <-notify], first half: under the write lock, [delete(clients,
    clientChan)] and [len(clients)]. *)
Definition stream_remove (clientChan : nat) (s : state) : state * nat :=
  let cl := clients s ∖ {[clientChan]} in
  ({| currentData := currentData s; clients := cl; chans := chans s;
      next_chan := next_chan s;
      cachedJSONMessage := cachedJSONMessage s;
      jsonBufferPool := jsonBufferPool s;
      encodes := encodes s; buffers_made := buffers_made s |}, size cl).

(** [case <-notify], second half, after the unlock: [close(clientChan)].
    [None] is a panic (close of a closed channel). *)
Definition stream_close (clientChan : nat) (s : state) : option state :=
  c ← chans s !! clientChan;
  c' ← close c;
  Some {| currentData := currentData s; clients := clients s;
          chans := <[clientChan := c']> (chans s);
          next_chan := next_chan s;
          cachedJSONMessage := cachedJSONMessage s;
          jsonBufferPool := jsonBufferPool s;
          encodes := encodes s; buffers_made := buffers_made s |}.

(** The whole [case <-notify] branch. *)
Definition StreamLotteryData_done (clientChan : nat) (s : state) : option state :=
  stream_close clientChan (stream_remove clientChan s).1.

(** *** Interleavings of stream handlers and broadcasts

    The goroutines of package [live] interleave at the granularity of their
    critical sections on [clientsMutex]. A stream handler registers under the
    write lock, relays messages, and on [notify] first deletes its channel
    under the write lock and then, the lock released, closes it. A
    [broadcastUpdate] takes the read lock for its loop and makes one
    non-blocking send per iteration; several of them may run at once. *)

Record conc := mkConc {
  shared : state;
  (** channels deleted from the registry by their handler, not closed yet *)
  closing : gset nat;
  (** the [broadcastUpdate] calls inside their loop, each with its message
      and the channels it has still to visit; they hold the read lock *)
  readers : list (string * list nat)
}.

Inductive action :=
| AConnect                          (* StreamLotteryData up to its first frame *)
| ARecv (clientChan : nat)          (* case message := <-clientChan *)
| ARemove (clientChan : nat)        (* case <-notify: Lock, delete, Unlock *)
| AClose (clientChan : nat)         (* case <-notify: close(clientChan) *)
| AStore (input : Input.t)          (* UpdateLotteryData: currentData = newData *)
| AGet                              (* GetCurrentData *)
| ABegin (order : list nat)         (* broadcastUpdate: steps 1, 2 and RLock *)
| ASend (i : nat)                   (* broadcastUpdate i: one loop iteration *)
| AEnd (i : nat).                   (* broadcastUpdate i: RUnlock *)

Inductive outcome :=
| Ok (c : conc)
| Disabled
| Panic.

Section interleaving.

Variable json_Marshal : LotteryData → option string.

Definition step (a : action) (c : conc) : outcome :=
  let s := shared c in
  match a with
  | AConnect =>
      (* the write lock is free only when no reader is inside its loop *)
      match readers c with
      | [] => Ok (mkConc (StreamLotteryData_open json_Marshal s).1.1
                         (closing c) [])
      | _ => Disabled
      end
  | ARecv clientChan =>
      if decide (clientChan ∈ clients s) then
        match stream_recv clientChan s with
        | Some (s', _) => Ok (mkConc s' (closing c) (readers c))
        | None => Disabled
        end
      else Disabled
  | ARemove clientChan =>
      match readers c with
      | [] =>
          if decide (clientChan ∈ clients s)
          then Ok (mkConc (stream_remove clientChan s).1
                          ({[clientChan]} ∪ closing c) [])
          else Disabled
      | _ => Disabled
      end
  | AClose clientChan =>
      if decide (clientChan ∈ closing c) then
        match stream_close clientChan s with
        | Some s' => Ok (mkConc s' (closing c ∖ {[clientChan]}) (readers c))
        | None => Panic
        end
      else Disabled
  | AStore input =>
      Ok (mkConc {| currentData := ToLotteryData input; clients := clients s;
                    chans := chans s; next_chan := next_chan s;
                    cachedJSONMessage := cachedJSONMessage s;
                    jsonBufferPool := jsonBufferPool s;
                    encodes := encodes s; buffers_made := buffers_made s |}
                 (closing c) (readers c))
  | AGet => Ok c
  | ABegin order =>
      if bool_decide (NoDup order ∧ list_to_set order = clients s) then
        match broadcast_prepare json_Marshal s with
        | (s', Some message) =>
            Ok (mkConc s' (closing c) (readers c ++ [(message, order)]))
        | (s', None) => Ok (mkConc s' (closing c) (readers c))
        end
      else Disabled
  | ASend i =>
      match readers c !! i with
      | Some (message, clientChan :: rest) =>
          match chans s !! clientChan with
          | Some q =>
              match try_send message q with
              | Enqueued q' =>
                  Ok (mkConc (with_chans (<[clientChan := q']> (chans s)) s)
                             (closing c) (<[i := (message, rest)]> (readers c)))
              | WouldBlock =>
                  Ok (mkConc s (closing c) (<[i := (message, rest)]> (readers c)))
              | SendOnClosed => Panic
              end
          | None => Panic
          end
      | _ => Disabled
      end
  | AEnd i =>
      match readers c !! i with
      | Some (_, []) => Ok (mkConc s (closing c) (delete i (readers c)))
      | _ => Disabled
      end
  end.

(** Running a schedule from a state: [Panic] and [Disabled] stop the run. *)
Fixpoint run (sched : list action) (c : conc) : outcome :=
  match sched with
  | [] => Ok c
  | a :: rest =>
      match step a c with
      | Ok c' => run rest c'
      | o => o
      end
  end.

Definition initial (now : string) : conc := mkConc (Init now) ∅ [].

Definition reachable (c : conc) : Prop :=
  ∃ now sched, run sched (initial now) = Ok c.

End interleaving.

(** *** Invariants *)

(** A reference names an allocated channel that is not closed. *)
Definition open_in (h : gmap nat (chan string)) (ch : nat) : Prop :=
  ∃ c, h !! ch = Some c ∧ closed c = false.

(** Every registered channel is allocated and open, and the allocator is
    ahead of every allocated channel. *)
Definition wf (s : state) : Prop :=
  (∀ ch, ch ∈ clients s → open_in (chans s) ch) ∧
  (∀ ch, is_Some (chans s !! ch) → ch < next_chan s).

Definition inv (c : conc) : Prop :=
  wf (shared c) ∧
  (∀ ch, ch ∈ closing c →
         (ch ∉ clients (shared c)) ∧ open_in (chans (shared c)) ch) ∧
  Forall (λ r, ∀ ch, ch ∈ r.2 → ch ∈ clients (shared c)) (readers c).

End Live.

(* ===================================================================== *)
(** ** Values shared by the two chat packages *)
(* ===================================================================== *)

(** A chat message ([Message] in both packages); times are instants. *)
Module Message.
Record t := mk {
  ID : Z;
  UserID : string;
  Username : string;
  PhotoURL : string;
  Message : string;
  CreatedAt : Z
}.
End Message.

(** [interface{}] values as [json.Unmarshal] makes them. The code only asks
    whether a value is a string; arrays and objects carry their source text. *)
Inductive json :=
| JNull
| JBool (b : bool)
| JNumber (literal : string)
| JString (s : string)
| JArray (text : string)
| JObject (text : string).

(** [v, _ := m[k].(string)]: the zero value unless the entry is a string. *)
Definition as_string (v : option json) : string :=
  match v with
  | Some (JString s) => s
  | _ => ""
  end.

(** [strings.Split(s, sep)] for a one-byte separator. *)
Fixpoint strings_Split (sep : ascii) (s : string) : list string :=
  match s with
  | EmptyString => [EmptyString]
  | String c rest =>
      if decide (c = sep) then EmptyString :: strings_Split sep rest
      else match strings_Split sep rest with
           | p :: ps => String c p :: ps
           | [] => [String c EmptyString]
           end
  end.

(** What a blocking or selecting operation does besides returning. *)
Inductive result (A : Type) :=
| Done (a : A)
| Blocks
| Panics.
Global Arguments Done {A} a.
Global Arguments Blocks {A}.
Global Arguments Panics {A}.

(* ===================================================================== *)
(** ** Package [chatws]: the WebSocket chat *)
(* ===================================================================== *)

Module ChatWS.

Record OnlineUser := mkOnlineUser {
  ou_user_id : string; ou_username : string; ou_photo_url : string
}.

(** What travels on [client.Send] and on [broadcast]: the JSON encoding of a
    [WSEvent], or the literal pong frame. *)
Inductive WSEvent :=
| EvMessage (m : Message.t)
| EvUserJoined (user_id username : string) (count : nat)
| EvUserLeft (user_id username : string) (count : nat)
| EvOnline (users : list OnlineUser) (count : nat)
| EvPong.

(** A [WSClient]. The connection is left out; [Send] is the state of the
    channel the client owns (nothing else refers to that channel). *)
Record WSClient := mkWSClient {
  UserID : string;
  Username : string;
  PhotoURL : string;
  Send : chan WSEvent
}.

Definition with_Send (q : chan WSEvent) (c : WSClient) : WSClient :=
  {| UserID := UserID c; Username := Username c; PhotoURL := PhotoURL c;
     Send := q |}.

(** Table [chatws_users], keyed by [id]. *)
Record UserRow := mkUserRow {
  email : string; username : string; photo_url : string; is_online : bool
}.

(** [clients] is [map[*WSClient]bool] with all values [true]: a set of
    addresses into [heap]. [broadcast] has capacity 256. *)
Record state := mkState {
  clients : gset nat;
  heap : gmap nat WSClient;
  next_client : nat;
  broadcast : chan WSEvent;
  chatws_users : gmap string UserRow;
  chatws_messages : list Message.t
}.

Definition initial_state : state :=
  {| clients := ∅; heap := ∅; next_client := 0; broadcast := make 256;
     chatws_users := ∅; chatws_messages := [] |}.

Definition set_clients_heap (cl : gset nat) (h : gmap nat WSClient) (s : state) : state :=
  {| clients := cl; heap := h; next_client := next_client s;
     broadcast := broadcast s; chatws_users := chatws_users s;
     chatws_messages := chatws_messages s |}.

Definition set_broadcast (q : chan WSEvent) (s : state) : state :=
  {| clients := clients s; heap := heap s; next_client := next_client s;
     broadcast := q; chatws_users := chatws_users s;
     chatws_messages := chatws_messages s |}.

Definition set_users (u : gmap string UserRow) (s : state) : state :=
  {| clients := clients s; heap := heap s; next_client := next_client s;
     broadcast := broadcast s; chatws_users := u;
     chatws_messages := chatws_messages s |}.

(** [INSERT INTO chatws_users ... ON CONFLICT(id) DO UPDATE SET username,
    photo_url, is_online = TRUE]. The [email] column is UNIQUE: a new id with
    an email already present fails, which the callers only log. *)
Definition upsert_user (id em name photo : string) (users : gmap string UserRow)
    : gmap string UserRow :=
  match users !! id with
  | Some r =>
      <[id := {| email := email r; username := name; photo_url := photo;
                 is_online := true |}]> users
  | None =>
      if decide (map_Exists (λ _ r, email r = em) users) then users
      else <[id := {| email := em; username := name; photo_url := photo;
                      is_online := true |}]> users
  end.

(** [updateUserOnlineStatus]. *)
Definition updateUserOnlineStatus (userID : string) (isOnline : bool) (s : state) : state :=
  set_users
    (alter (λ r, {| email := email r; username := username r;
                    photo_url := photo_url r; is_online := isOnline |})
           userID (chatws_users s)) s.

(** [getOnlineCount]: [len(clients)]. *)
Definition getOnlineCount (s : state) : nat := size (clients s).

(** [broadcast <- eventJSON]: a blocking send. *)
Definition broadcast_send (ev : WSEvent) (s : state) : result state :=
  match try_send ev (broadcast s) with
  | Enqueued q => Done (set_broadcast q s)
  | WouldBlock => Blocks
  | SendOnClosed => Panics
  end.

Section auth.

(** The libraries behind [authenticateClientWithToken]:
    [base64.RawURLEncoding.DecodeString] and [json.Unmarshal] into a
    [map[string]interface{}]. [None] is an error. *)
Variable base64_DecodeString : string → option string.
Variable json_Unmarshal : string → option (gmap string json).

(** [authenticateClientWithToken]: the claims of the token are read from its
    middle part; nothing checks its signature, issuer, audience or expiry.
    On success the user row is written and the client made (not yet in the
    heap: [make_client] below). *)
Definition authenticateClientWithToken (idToken : string) (s : state)
    : state * option WSClient :=
  let parts := strings_Split "." idToken in
  if decide (length parts = 3) then
    match base64_DecodeString (default "" (parts !! 1)) with
    | None => (s, None)
    | Some payloadBytes =>
        match json_Unmarshal payloadBytes with
        | None => (s, None)
        | Some claims =>
            let userID := as_string (claims !! "sub") in
            let email := as_string (claims !! "email") in
            let name := as_string (claims !! "name") in
            let picture := as_string (claims !! "picture") in
            if decide (userID = "") then (s, None)
            else
              let username := if decide (name = "") then email else name in
              (set_users (upsert_user userID email username picture (chatws_users s)) s,
               Some {| UserID := userID; Username := username;
                       PhotoURL := picture; Send := make 256 |})
        end
    end
  else (s, None).

End auth.

(** [clients[client] = true] under the write lock, for a client just made:
    its address is fresh. *)
Definition register (client : WSClient) (s : state) : state * nat :=
  let a := next_client s in
  ({| clients := {[a]} ∪ clients s; heap := <[a := client]> (heap s);
      next_client := S a; broadcast := broadcast s;
      chatws_users := chatws_users s; chatws_messages := chatws_messages s |}, a).

(** The users of the registry other than [userID], in range order. *)
Definition online_users_except (userID : string) (s : state) : list OnlineUser :=
  omap (λ a, c ← heap s !! a;
             if decide (UserID c ≠ userID)
             then Some (mkOnlineUser (UserID c) (Username c) (PhotoURL c))
             else None)
       (elements (clients s)).

(** [sendOnlineUsersToClient]: the list and [len(clients)], sent with a
    select whose default case only logs. *)
Definition sendOnlineUsersToClient (a : nat) (s : state) : result state :=
  match heap s !! a with
  | None => Panics
  | Some client =>
      let event := EvOnline (online_users_except (UserID client) s) (size (clients s)) in
      match try_send event (Send client) with
      | Enqueued q => Done (set_clients_heap (clients s) (<[a := with_Send q client]> (heap s)) s)
      | WouldBlock => Done s
      | SendOnClosed => Panics
      end
  end.

(** [broadcastUserJoined] and [broadcastUserLeft]. *)
Definition broadcastUserJoined (a : nat) (s : state) : result state :=
  match heap s !! a with
  | None => Panics
  | Some client =>
      broadcast_send (EvUserJoined (UserID client) (Username client) (getOnlineCount s)) s
  end.

Definition broadcastUserLeft (a : nat) (s : state) : result state :=
  match heap s !! a with
  | None => Panics
  | Some client =>
      broadcast_send (EvUserLeft (UserID client) (Username client) (getOnlineCount s)) s
  end.

(** [disconnect], the critical section: delete and close, guarded by the
    presence of the client in the registry. [None] is a panic. *)
Definition disconnect_locked (a : nat) (s : state) : option state :=
  if decide (a ∈ clients s) then
    c ← heap s !! a;
    q ← close (Send c);
    Some (set_clients_heap (clients s ∖ {[a]}) (<[a := with_Send q c]> (heap s)) s)
  else Some s.

(** [disconnect], after the unlock. *)
Definition disconnect_notify (a : nat) (s : state) : result state :=
  match heap s !! a with
  | None => Panics
  | Some c => broadcastUserLeft a (updateUserOnlineStatus (UserID c) false s)
  end.

Definition disconnect (a : nat) (s : state) : result state :=
  match disconnect_locked a s with
  | None => Panics
  | Some s' => disconnect_notify a s'
  end.

(** [handleChatMessage]: no ban list and no block list is consulted. The
    clock is read twice: [inserted_at] is the reading bound to the INSERT,
    the [created_at] of the stored row; [now] is the later reading that the
    broadcast event carries. The id is the one AUTOINCREMENT gives: no row
    of this table is ever deleted. *)
Definition handleChatMessage (inserted_at now : Z) (a : nat) (msg : gmap string json)
    (s : state) : result state :=
  match heap s !! a with
  | None => Panics
  | Some c =>
      match msg !! "message" with
      | Some (JString messageText) =>
          if decide (messageText = "") then Done s
          else
            let messageID := Z.of_nat (S (length (chatws_messages s))) in
            let row :=
              Message.mk messageID (UserID c) (Username c) (PhotoURL c) messageText
                         inserted_at in
            let chatMessage :=
              Message.mk messageID (UserID c) (Username c) (PhotoURL c) messageText now in
            broadcast_send (EvMessage chatMessage)
              {| clients := clients s; heap := heap s; next_client := next_client s;
                 broadcast := broadcast s; chatws_users := chatws_users s;
                 chatws_messages := chatws_messages s ++ [row] |}
      | _ => Done s
      end
  end.

(** One frame read by [readPump]: dispatch on the [type] field. The pong is a
    blocking send on the client's own channel, outside any lock. *)
Definition readPump_frame (inserted_at now : Z) (a : nat) (msg : gmap string json)
    (s : state) : result state :=
  match msg !! "type" with
  | Some (JString msgType) =>
      if decide (msgType = "message") then handleChatMessage inserted_at now a msg s
      else if decide (msgType = "ping") then
        match heap s !! a with
        | None => Panics
        | Some c =>
            match try_send EvPong (Send c) with
            | Enqueued q => Done (set_clients_heap (clients s) (<[a := with_Send q c]> (heap s)) s)
            | WouldBlock => Blocks
            | SendOnClosed => Panics
            end
        end
      else Done s
  | _ => Done s
  end.

(** [writePump], the channel case: the next message written to the socket. *)
Definition writePump_recv (a : nat) (s : state) : option (state * WSEvent) :=
  c ← heap s !! a;
  match try_recv (Send c) with
  | Received message q =>
      Some (set_clients_heap (clients s) (<[a := with_Send q c]> (heap s)) s, message)
  | _ => None
  end.

(** One iteration of the loop of [handleBroadcast]: a select with a send case
    and a default case that closes the channel and deletes the client. *)
Definition deliver_one (message : WSEvent) (a : nat) (s : state) : option state :=
  c ← heap s !! a;
  match try_send message (Send c) with
  | Enqueued q =>
      Some (set_clients_heap (clients s) (<[a := with_Send q c]> (heap s)) s)
  | WouldBlock =>
      q ← close (Send c);
      Some (set_clients_heap (clients s ∖ {[a]}) (<[a := with_Send q c]> (heap s)) s)
  | SendOnClosed => None
  end.

Fixpoint deliver (message : WSEvent) (order : list nat) (s : state) : option state :=
  match order with
  | [] => Some s
  | a :: rest => s' ← deliver_one message a s; deliver message rest s'
  end.

(** One turn of the loop of [handleBroadcast]: receive from [broadcast], then
    under the read lock visit every client of the registry in range order. *)
Definition handleBroadcast_in (order : list nat) (s : state) : result state :=
  match try_recv (broadcast s) with
  | Received message q =>
      match deliver message order (set_broadcast q s) with
      | Some s' => Done s'
      | None => Panics
      end
  | _ => Blocks
  end.

Definition handleBroadcast (s : state) : result state :=
  handleBroadcast_in (elements (clients s)) s.

(** How [HandleWebSocket] ends before its pumps start. *)
Inductive accept_result :=
| Unauthorized401
| UpgradeFailed
| AuthFailed
| Accepted (a : nat).

Section accept.

Variable base64_DecodeString : string → option string.
Variable json_Unmarshal : string → option (gmap string json).

(** [HandleWebSocket] up to the registration. [upgraded] tells whether the
    protocol upgrade succeeded. *)
Definition HandleWebSocket_register (idToken : string) (upgraded : bool) (s : state)
    : state * accept_result :=
  if decide (idToken = "") then (s, Unauthorized401)
  else if negb upgraded then (s, UpgradeFailed)
  else
    match authenticateClientWithToken base64_DecodeString json_Unmarshal idToken s with
    | (s1, None) => (s1, AuthFailed)
    | (s1, Some client) =>
        let '(s2, a) := register client s1 in (s2, Accepted a)
    end.

(** [HandleWebSocket] from the registration to the start of the pumps. *)
Definition HandleWebSocket_announce (a : nat) (s : state) : result state :=
  match heap s !! a with
  | None => Panics
  | Some client =>
      match sendOnlineUsersToClient a (updateUserOnlineStatus (UserID client) true s) with
      | Done s1 => broadcastUserJoined a s1
      | r => r
      end
  end.

Definition HandleWebSocket (idToken : string) (upgraded : bool) (s : state)
    : result (state * accept_result) :=
  match HandleWebSocket_register idToken upgraded s with
  | (s1, Accepted a) =>
      match HandleWebSocket_announce a s1 with
      | Done s2 => Done (s2, Accepted a)
      | Blocks => Blocks
      | Panics => Panics
      end
  | (s1, r) => Done (s1, r)
  end.

End accept.

(** *** Interleavings of connection handlers and the dispatcher

    A connection goes through the statements of [HandleWebSocket] in order;
    its [readPump] handles frames until the read fails, then [disconnect]
    runs. The dispatcher [handleBroadcast] holds the read lock from the
    receipt of a message to the end of its loop; the two critical sections on
    the write lock (registration, [disconnect]) wait for it. *)

Inductive phase :=
| PRegistered      (* registered; next: status update and online list *)
| POnlineSent      (* next: broadcastUserJoined, then the pumps *)
| PRunning         (* readPump reads frames *)
| PLeft.           (* critical section of disconnect done; next: notify *)

Global Instance phase_eq_dec : EqDecision phase.
Proof. solve_decision. Defined.

Record conc := mkConc {
  shared : state;
  phases : gmap nat phase;
  (** the message and the clients still to visit, while the dispatcher is
      inside its loop *)
  dispatcher : option (WSEvent * list nat)
}.

Inductive action :=
| AHandshake (idToken : string)
| AOnline (a : nat)
| AJoined (a : nat)
| AFrame (a : nat) (inserted_at now : Z) (msg : gmap string json)
| AWrite (a : nat)
| ADisconnect (a : nat)
| ALeft (a : nat)
| DBegin (order : list nat)
| DSend
| DEnd.

Section interleaving.

Variable base64_DecodeString : string → option string.
Variable json_Unmarshal : string → option (gmap string json).

Definition in_phase (p : phase) (a : nat) (c : conc) : bool :=
  bool_decide (phases c !! a = Some p).

Definition continue (c : conc) (p : option phase) (a : nat) (r : result state)
    : result conc :=
  match r with
  | Done s' =>
      Done (mkConc s' (match p with
                       | Some p => <[a := p]> (phases c)
                       | None => delete a (phases c)
                       end) (dispatcher c))
  | Blocks => Blocks
  | Panics => Panics
  end.

Definition step (act : action) (c : conc) : result conc :=
  let s := shared c in
  match act with
  | AHandshake idToken =>
      match dispatcher c with
      | Some _ => Blocks
      | None =>
          match HandleWebSocket_register base64_DecodeString json_Unmarshal idToken true s with
          | (s', Accepted a) => Done (mkConc s' (<[a := PRegistered]> (phases c)) None)
          | (s', _) => Done (mkConc s' (phases c) None)
          end
      end
  | AOnline a =>
      if in_phase PRegistered a c then
        match heap s !! a with
        | None => Panics
        | Some client =>
            continue c (Some POnlineSent) a
              (sendOnlineUsersToClient a (updateUserOnlineStatus (UserID client) true s))
        end
      else Blocks
  | AJoined a =>
      if in_phase POnlineSent a c
      then continue c (Some PRunning) a (broadcastUserJoined a s)
      else Blocks
  | AFrame a inserted_at now msg =>
      if in_phase PRunning a c
      then continue c (Some PRunning) a (readPump_frame inserted_at now a msg s)
      else Blocks
  | AWrite a =>
      if in_phase PRunning a c || in_phase PLeft a c then
        match writePump_recv a s with
        | Some (s', _) => Done (mkConc s' (phases c) (dispatcher c))
        | None => Blocks
        end
      else Blocks
  | ADisconnect a =>
      if in_phase PRunning a c then
        match dispatcher c with
        | Some _ => Blocks
        | None =>
            match disconnect_locked a s with
            | Some s' => Done (mkConc s' (<[a := PLeft]> (phases c)) None)
            | None => Panics
            end
        end
      else Blocks
  | ALeft a =>
      if in_phase PLeft a c
      then continue c None a (disconnect_notify a s)
      else Blocks
  | DBegin order =>
      match dispatcher c with
      | Some _ => Blocks
      | None =>
          if bool_decide (NoDup order ∧ list_to_set order = clients s) then
            match try_recv (broadcast s) with
            | Received message q =>
                Done (mkConc (set_broadcast q s) (phases c) (Some (message, order)))
            | _ => Blocks
            end
          else Blocks
      end
  | DSend =>
      match dispatcher c with
      | Some (message, a :: rest) =>
          match deliver_one message a s with
          | Some s' => Done (mkConc s' (phases c) (Some (message, rest)))
          | None => Panics
          end
      | _ => Blocks
      end
  | DEnd =>
      match dispatcher c with
      | Some (_, []) => Done (mkConc s (phases c) None)
      | _ => Blocks
      end
  end.

Fixpoint run (sched : list action) (c : conc) : result conc :=
  match sched with
  | [] => Done c
  | act :: rest =>
      match step act c with
      | Done c' => run rest c'
      | r => r
      end
  end.

Definition initial : conc := mkConc initial_state ∅ None.

Definition reachable (c : conc) : Prop := ∃ sched, run sched initial = Done c.

End interleaving.

(** *** Invariants *)

(** Every registered client is allocated and its channel is open; the
    [broadcast] channel is never closed; the allocator is ahead of the heap;
    and a client that left the registry has its channel closed: a client is
    registered exactly as long as its channel is open. *)
Definition wf (s : state) : Prop :=
  (∀ a, a ∈ clients s → ∃ c, heap s !! a = Some c ∧ closed (Send c) = false) ∧
  (∀ a, is_Some (heap s !! a) → a < next_client s) ∧
  closed (broadcast s) = false ∧
  (∀ a c, heap s !! a = Some c → a ∉ clients s → closed (Send c) = true).

Definition inv (c : conc) : Prop :=
  wf (shared c) ∧
  (∀ a p, phases c !! a = Some p → is_Some (heap (shared c) !! a)) ∧
  match dispatcher c with
  | Some (_, todo) => NoDup todo ∧ ∀ a, a ∈ todo → a ∈ clients (shared c)
  | None => True
  end.

(** The one way a step panics: a connection's own goroutine sends on its
    channel ([sendOnlineUsersToClient], or the pong of [readPump]) after the
    dispatcher closed that channel and deleted the client. *)
Definition own_send_after_drop (act : action) (c : conc) : Prop :=
  ∃ a cl, heap (shared c) !! a = Some cl ∧ closed (Send cl) = true ∧
          (a ∉ clients (shared c)) ∧
          (act = AOnline a ∨ ∃ inserted_at now msg, act = AFrame a inserted_at now msg).

(** What a handler statement keeps: well-formedness, the registry and the
    allocated clients. *)
Definition keeps (s s' : state) : Prop :=
  wf s' ∧ clients s' = clients s ∧
  (∀ a, is_Some (heap s !! a) → is_Some (heap s' !! a)).

Definition closed_unregistered (a : nat) (s : state) : Prop :=
  ∃ cl, heap s !! a = Some cl ∧ closed (Send cl) = true ∧ (a ∉ clients s).

End ChatWS.

(* ===================================================================== *)
(** ** Package [chat]: the SSE chat *)
(* ===================================================================== *)

Module Chat.

Record OnlineUser := mkOnlineUser {
  ou_user_id : string; ou_username : string; ou_photo_url : string
}.

Record OnlineStatus := mkOnlineStatus { Count : nat; Users : list OnlineUser }.

(** What travels on a client channel or is written to the stream: the SSE
    frame of an [SSEEvent]. *)
Inductive SSEEvent :=
| EvMessage (m : Message.t)
| EvOnline (status : OnlineStatus)
| EvConnected (user_id : string) (online_count : nat).

(** An [SSEClient]; [Channel] is the state of the channel it owns. *)
Record SSEClient := mkSSEClient {
  UserID : string;
  Username : string;
  PhotoURL : string;
  Channel : chan SSEEvent
}.

Definition with_Channel (q : chan SSEEvent) (c : SSEClient) : SSEClient :=
  {| UserID := UserID c; Username := Username c; PhotoURL := PhotoURL c;
     Channel := q |}.

(** Tables [chat_users] (keyed by [id]) and [chat_banned_users] (keyed by
    [user_id]). *)
Record UserRow := mkUserRow {
  email : string; username : string; photo_url : string; is_online : bool
}.

Record BanRow := mkBanRow {
  ban_username : string; banned_by : string; reason : string
}.

(** The state of the package. [clients] is [map[string]*SSEClient]: user ids
    to addresses into [heap]. [chat_messages] and [chat_blocks] hold their
    rows in insertion order; [next_message_id] is the AUTOINCREMENT counter.
    The database always answers: the branches taken when a statement fails
    for lack of a database are not modelled. *)
Record state := mkState {
  clients : gmap string nat;
  heap : gmap nat SSEClient;
  next_client : nat;
  googleClientID : string;
  chat_users : gmap string UserRow;
  chat_messages : list Message.t;
  next_message_id : Z;
  chat_blocks : list (string * string);
  chat_banned_users : gmap string BanRow
}.

(** The state after [InitDB]; [SetGoogleClientID] is called by [main] only
    when GOOGLE_OAUTH_CLIENT_ID is set. *)
Definition initial_state (clientID : string) : state :=
  {| clients := ∅; heap := ∅; next_client := 0; googleClientID := clientID;
     chat_users := ∅; chat_messages := []; next_message_id := 1;
     chat_blocks := []; chat_banned_users := ∅ |}.

Definition set_registry (cl : gmap string nat) (h : gmap nat SSEClient) (n : nat)
    (s : state) : state :=
  {| clients := cl; heap := h; next_client := n;
     googleClientID := googleClientID s; chat_users := chat_users s;
     chat_messages := chat_messages s; next_message_id := next_message_id s;
     chat_blocks := chat_blocks s; chat_banned_users := chat_banned_users s |}.

Definition set_heap (h : gmap nat SSEClient) (s : state) : state :=
  set_registry (clients s) h (next_client s) s.

Definition set_users (u : gmap string UserRow) (s : state) : state :=
  {| clients := clients s; heap := heap s; next_client := next_client s;
     googleClientID := googleClientID s; chat_users := u;
     chat_messages := chat_messages s; next_message_id := next_message_id s;
     chat_blocks := chat_blocks s; chat_banned_users := chat_banned_users s |}.

Definition set_messages (m : list Message.t) (n : Z) (s : state) : state :=
  {| clients := clients s; heap := heap s; next_client := next_client s;
     googleClientID := googleClientID s; chat_users := chat_users s;
     chat_messages := m; next_message_id := n;
     chat_blocks := chat_blocks s; chat_banned_users := chat_banned_users s |}.

Definition set_blocks (b : list (string * string)) (s : state) : state :=
  {| clients := clients s; heap := heap s; next_client := next_client s;
     googleClientID := googleClientID s; chat_users := chat_users s;
     chat_messages := chat_messages s; next_message_id := next_message_id s;
     chat_blocks := b; chat_banned_users := chat_banned_users s |}.

Definition set_banned (b : gmap string BanRow) (s : state) : state :=
  {| clients := clients s; heap := heap s; next_client := next_client s;
     googleClientID := googleClientID s; chat_users := chat_users s;
     chat_messages := chat_messages s; next_message_id := next_message_id s;
     chat_blocks := chat_blocks s; chat_banned_users := b |}.

(** [UPDATE chat_users SET is_online = ? WHERE id = ?]. *)
Definition set_online (userID : string) (b : bool) (s : state) : state :=
  set_users
    (alter (λ r, {| email := email r; username := username r;
                    photo_url := photo_url r; is_online := b |})
           userID (chat_users s)) s.

(** [SELECT id, username, photo_url FROM chat_users WHERE is_online = 1 ORDER
    BY username ASC]. Rows with equal user names come in an order that SQL
    leaves open; the sort fixes one of them, and what is proved of the list
    (its members, its length) holds for each. *)
Definition username_le (u v : OnlineUser) : Prop :=
  Is_true (String.leb (ou_username u) (ou_username v)).

Global Instance username_le_dec u v : Decision (username_le u v).
Proof. unfold username_le. apply _. Defined.

Definition online_rows (s : state) : list OnlineUser :=
  merge_sort username_le
    (omap (λ '(id, r), if is_online r
                       then Some (mkOnlineUser id (username r) (photo_url r))
                       else None)
          (map_to_list (chat_users s))).

(** [getOnlineCount]: [SELECT COUNT( * ) FROM chat_users WHERE is_online = 1]. *)
Definition getOnlineCount (s : state) : nat :=
  length (filter (λ '(_, r), is_online r = true) (map_to_list (chat_users s))).

(** [isUserBanned]. *)
Definition isUserBanned (userID : string) (s : state) : bool :=
  bool_decide (is_Some (chat_banned_users s !! userID)).

(** [SELECT COUNT( * ) FROM chat_blocks WHERE blocker_id = ? AND blocked_id = ?]. *)
Definition block_count (blocker blocked : string) (s : state) : nat :=
  length (filter (λ p, p = (blocker, blocked)) (chat_blocks s)).



(** One non-blocking send to the client at address [a]; the default case of
    the select only logs. [None] is a panic. *)
Definition send_or_skip (ev : SSEEvent) (a : nat) (h : gmap nat SSEClient)
    : option (gmap nat SSEClient * bool) :=
  c ← h !! a;
  match try_send ev (Channel c) with
  | Enqueued q => Some (<[a := with_Channel q c]> h, true)
  | WouldBlock => Some (h, false)
  | SendOnClosed => None
  end.

(** The loop of [broadcastMessage]: the block query per recipient, then the
    select. The counters are [sentCount] and [blockedCount]. *)
Fixpoint message_loop (ev : SSEEvent) (senderID : string) (order : list (string * nat))
    (s : state) (h : gmap nat SSEClient) (sentCount blockedCount : nat)
    : option (gmap nat SSEClient * nat * nat) :=
  match order with
  | [] => Some (h, sentCount, blockedCount)
  | (userID, a) :: rest =>
      let count := block_count userID senderID s in
      if decide (count = 0) then
        match send_or_skip ev a h with
        | Some (h', true) =>
            message_loop ev senderID rest s h' (S sentCount) blockedCount
        | Some (h', false) =>
            message_loop ev senderID rest s h' sentCount blockedCount
        | None => None
        end
      else message_loop ev senderID rest s h sentCount (S blockedCount)
  end.

(** [broadcastMessage], with the range order as a parameter. *)
Definition broadcastMessage_in (order : list (string * nat)) (message : Message.t)
    (senderID : string) (s : state) : option (state * nat * nat) :=
  let connectedClients := size (clients s) in
  if decide (connectedClients = 0) then Some (s, 0, 0)
  else
    match message_loop (EvMessage message) senderID order s (heap s) 0 0 with
    | Some (h, sentCount, blockedCount) => Some (set_heap h s, sentCount, blockedCount)
    | None => None
    end.

Definition broadcastMessage (message : Message.t) (senderID : string) (s : state)
    : option (state * nat * nat) :=
  broadcastMessage_in (map_to_list (clients s)) message senderID s.

(** The loop of [broadcastOnlineStatus]. *)
Fixpoint status_loop (ev : SSEEvent) (order : list (string * nat))
    (h : gmap nat SSEClient) : option (gmap nat SSEClient) :=
  match order with
  | [] => Some h
  | (_, a) :: rest =>
      match send_or_skip ev a h with
      | Some (h', _) => status_loop ev rest h'
      | None => None
      end
  end.

(** [broadcastOnlineStatus]: the full list of online rows and its length. *)
Definition broadcastOnlineStatus (s : state) : option state :=
  let online := online_rows s in
  let status := {| Count := length online; Users := online |} in
  h ← status_loop (EvOnline status) (map_to_list (clients s)) (heap s);
  Some (set_heap h s).

(** *** Authentication *)

Record AuthRequest := mkAuthRequest {
  IDToken : string; Email : string; req_Username : string; req_PhotoURL : string
}.

Inductive auth_response :=
| Auth400
| Auth401
| Auth500
| Auth200 (user_id username photo_url : string).

(** [INSERT INTO chat_users ... ON CONFLICT(id) DO UPDATE SET username,
    photo_url, is_online = 1]; [None] when the UNIQUE email forbids it. *)
Definition upsert_user (id em name photo : string) (users : gmap string UserRow)
    : option (gmap string UserRow) :=
  match users !! id with
  | Some r =>
      Some (<[id := {| email := email r; username := name; photo_url := photo;
                       is_online := true |}]> users)
  | None =>
      if decide (map_Exists (λ _ r, email r = em) users) then None
      else Some (<[id := {| email := em; username := name; photo_url := photo;
                            is_online := true |}]> users)
  end.

Section auth.

(** [idtoken.Validate(ctx, token, audience)], the token validator: the claims
    of a verified token, or [None]. *)
Variable idtoken_Validate : string → string → option (gmap string json).

(** [payload.Claims[k].(string)]: panics unless the claim is a string. *)
Definition must_string (v : option json) : result string :=
  match v with
  | Some (JString s) => Done s
  | _ => Panics
  end.

(** The identity [googleAuthHandler] settles on: from the validator when
    [googleClientID] is set, from the request itself otherwise. *)
Definition resolve_identity (req : AuthRequest) (s : state)
    : result (auth_response + string * string * string * string) :=
  if decide (googleClientID s ≠ "") then
    match idtoken_Validate (IDToken req) (googleClientID s) with
    | None => Done (inl Auth401)
    | Some claims =>
        match must_string (claims !! "email") with
        | Done email =>
            let name := as_string (claims !! "name") in
            let username :=
              if decide (name ≠ "") then name
              else if decide (req_Username req ≠ "") then req_Username req
              else email in
            let picture := as_string (claims !! "picture") in
            let photoURL :=
              if decide (picture ≠ "") then picture
              else if decide (req_PhotoURL req ≠ "") then req_PhotoURL req
              else "" in
            Done (inr (email, email, username, photoURL))
        | Blocks => Blocks
        | Panics => Panics
        end
    end
  else
    (* development mode without verification *)
    if decide (Email req = "") then Done (inl Auth400)
    else Done (inr (Email req, Email req, req_Username req, req_PhotoURL req)).

(** [googleAuthHandler]; [req] is [None] when the body does not bind. *)
Definition googleAuthHandler (req : option AuthRequest) (s : state)
    : result (state * auth_response) :=
  match req with
  | None => Done (s, Auth400)
  | Some req =>
      if decide (IDToken req = "") then Done (s, Auth400)
      else
        match resolve_identity req s with
        | Done (inl r) => Done (s, r)
        | Done (inr (userID, em, name, photoURL)) =>
            match upsert_user userID em name photoURL (chat_users s) with
            | None => Done (s, Auth500)
            | Some users =>
                let s1 := set_users users s in
                match chat_users s1 !! userID with
                | None => Done (s1, Auth500)
                | Some user =>
                    match broadcastOnlineStatus s1 with
                    | Some s2 =>
                        Done (s2, Auth200 userID (username user) (photo_url user))
                    | None => Panics
                    end
                end
            end
        | Blocks => Blocks
        | Panics => Panics
        end
  end.

End auth.

(** *** Messages *)

Inductive send_response :=
| Send400
| Send403Banned
| Send401
| Send200 (message_id : Z) (message : string).

(** [sendMessageHandler]. The request is the bound body: both fields are
    required, an empty one does not bind. The INSERT names no [created_at]:
    the stored row gets [current_timestamp], SQLite's CURRENT_TIMESTAMP at
    the INSERT, which is the database clock in whole seconds. [now] is the
    handler's own clock, read afterwards; only the broadcast event carries
    it. *)
Definition sendMessageHandler (current_timestamp now : Z)
    (req_UserID req_Message : string) (s : state)
    : option (state * send_response) :=
  if decide (req_UserID = "" ∨ req_Message = "") then Some (s, Send400)
  else if isUserBanned req_UserID s then Some (s, Send403Banned)
  else
    match chat_users s !! req_UserID with
    | None => Some (s, Send401)
    | Some u =>
        let messageID := next_message_id s in
        let row :=
          Message.mk messageID req_UserID (username u) (photo_url u) req_Message
                     current_timestamp in
        let message :=
          Message.mk messageID req_UserID (username u) (photo_url u) req_Message now in
        let s1 := set_messages (chat_messages s ++ [row]) (messageID + 1) s in
        match broadcastMessage message req_UserID s1 with
        | Some (s2, _, _) => Some (s2, Send200 messageID req_Message)
        | None => None
        end
    end.


(** [ORDER BY created_at DESC]: what SQL promises of the order of the rows.
    Rows with equal times come in an order that SQL leaves open, so the
    ordering is a parameter of the handler, and [orders_by_created_at_desc]
    is all that is known of it. *)
Definition not_older (a b : Message.t) : Prop :=
  (Message.CreatedAt b ≤ Message.CreatedAt a)%Z.

Global Instance not_older_dec a b : Decision (not_older a b).
Proof. unfold not_older. apply _. Defined.

Definition orders_by_created_at_desc
    (order_by : list Message.t → list Message.t) : Prop :=
  ∀ rows, order_by rows ≡ₚ rows ∧ StronglySorted not_older (order_by rows).

(** [LIMIT n]: a negative limit is no limit. *)
Definition sql_limit {A} (n : Z) (rows : list A) : list A :=
  if decide (n < 0)%Z then rows else take (Z.to_nat n) rows.

Section history.

(** The integer SQLite reads from the text bound to [LIMIT ?]; [None] when
    the text does not convert. The mismatch is reported by the first step of
    the statement, that is by [rows.Next], which then yields no row; the
    handler never reads [rows.Err] and answers 200 with no messages. *)
Variable sqlite_integer : string → option Z.

(** The rows in the order in which SQLite returns them for
    [ORDER BY created_at DESC]. *)
Variable order_by_created_at_desc : list Message.t → list Message.t.


End history.

(** *** Blocking and banning *)

(** [blockUserHandler]: INSERT OR IGNORE under UNIQUE(blocker_id, blocked_id). *)
Definition blockUserHandler (blockerID blockedID : string) (s : state) : state :=
  if decide (blockerID = "" ∨ blockedID = "") then s
  else if decide ((blockerID, blockedID) ∈ chat_blocks s) then s
  else set_blocks (chat_blocks s ++ [(blockerID, blockedID)]) s.

(** [unblockUserHandler]. *)
Definition unblockUserHandler (blockerID blockedID : string) (s : state) : state :=
  if decide (blockerID = "" ∨ blockedID = "") then s
  else set_blocks (filter (λ p, p ≠ (blockerID, blockedID)) (chat_blocks s)) s.

(** *** The stream *)

(** [sseStreamHandler] up to its first frame: the client is stored under its
    user id (replacing an earlier client of that id), the user row is marked
    online, the online status is broadcast, and the connected event is
    written with [getOnlineCount]. The result is the client's address and
    the event ([None] inside: the request was refused with status 400). *)
Definition sseStreamHandler_open (userID username photoURL : string) (s : state)
    : option (state * option (nat * SSEEvent)) :=
  if decide (userID = "") then Some (s, None)
  else
    let a := next_client s in
    let client := mkSSEClient userID username photoURL (make 10) in
    let s1 := set_registry (<[userID := a]> (clients s)) (<[a := client]> (heap s)) (S a) s in
    let s2 := set_online userID true s1 in
    s3 ← broadcastOnlineStatus s2;
    Some (s3, Some (a, EvConnected userID (getOnlineCount s3))).

(** [case <-ctx.Done()]: the entry of the user id is deleted, whichever
    client it holds. *)
Definition sseStreamHandler_done (userID : string) (s : state) : option state :=
  let s1 := set_registry (delete userID (clients s)) (heap s) (next_client s) s in
  broadcastOnlineStatus (set_online userID false s1).

(** [case msg := <-client.Channel]. *)
Definition sseStreamHandler_recv (a : nat) (s : state) : option (state * SSEEvent) :=
  c ← heap s !! a;
  match try_recv (Channel c) with
  | Received msg q => Some (set_heap (<[a := with_Channel q c]> (heap s)) s, msg)
  | _ => None
  end.

(** *** Invariants *)

(** No channel of the heap is closed (the package never closes one), every
    registered address is allocated, distinct user ids hold distinct
    clients, and the allocator is ahead of the heap. *)
Definition wf (s : state) : Prop :=
  map_Forall (λ _ c, closed (Channel c) = false) (heap s) ∧
  map_Forall (λ _ a, is_Some (heap s !! a)) (clients s) ∧
  NoDup (map_to_list (clients s)).*2 ∧
  map_Forall (λ a _, a < next_client s) (heap s).

Global Instance wf_dec s : Decision (wf s).
Proof. unfold wf. apply _. Defined.

(** Two heaps with the same addresses and the same closed flags. *)
Definition same_shape (h h' : gmap nat SSEClient) : Prop :=
  ∀ a, (closed ∘ Channel) <$> h' !! a = (closed ∘ Channel) <$> h !! a.

(** The client after a select-send of [ev]. *)
Definition offered (ev : SSEEvent) (c : SSEClient) : SSEClient :=
  with_Channel (after_send ev (Channel c)) c.

End Chat.

(* ===================================================================== *)
(** ** Package [live]: the history check of an update *)
(* ===================================================================== *)

Module LiveHistory.

(** Instants are nanoseconds since the zero [time.Time]; durations are
    nanoseconds in the range of an int64. *)
Definition time_Second : Z := 1000000000.
Definition time_Minute : Z := 60 * time_Second.
Definition maxDuration : Z := 2 ^ 63 - 1.
Definition minDuration : Z := - 2 ^ 63.

(** [t.Sub(u)] on readings without a monotonic part ([In] strips it): the
    difference, or the nearest duration when the difference does not fit. *)
Definition time_Sub (t u : Z) : Z :=
  let d := (t - u)%Z in
  if decide (maxDuration < d)%Z then maxDuration
  else if decide (d < minDuration)%Z then minDuration
  else d.

(** [t.In(loc).Hour()] and [t.In(loc).Minute()]; [offset] is what the
    location gives for [t], in seconds east of UTC. *)
Definition Hour (offset t : Z) : Z :=
  (((t / time_Second + offset) mod 86400) / 3600)%Z.

Definition Minute (offset t : Z) : Z :=
  (((t / time_Second + offset) mod 3600) / 60)%Z.

Section callback.

(** The state of the history collaborator (package [twodhistory]), which
    the callback registered by [main] writes to. *)
Context {H : Type}.

(** [HistoryInserter], [func(data *LotteryData) error], with the state of
    the collaborator made explicit; the boolean tells whether it returned an
    error, which [checkAndInsertHistory] only logs. *)
Definition HistoryInserter : Type := Live.LotteryData → H → H * bool.

(** The state of package [live] with the variables that
    [checkAndInsertHistory] uses: [historyInserter] ([None] is nil) and
    [lastCheckTime] (initially the zero time). *)
Record state := mkState {
  live : Live.state;
  historyInserter : option HistoryInserter;
  lastCheckTime : Z;
  history : H
}.

Definition Init (now : string) (h : H) : state :=
  {| live := Live.Init now; historyInserter := None; lastCheckTime := 0;
     history := h |}.

Definition SetHistoryInserter (inserter : HistoryInserter) (s : state) : state :=
  {| live := live s; historyInserter := Some inserter;
     lastCheckTime := lastCheckTime s; history := history s |}.

(** [checkAndInsertHistory]. [LoadLocation] is the result of
    [time.LoadLocation("Asia/Yangon")]: the zone offset at an instant, or
    [None] for an error. [now] is the reading of [time.Now()] whose hour and
    minute are tested and which is stored in [lastCheckTime]; [later] is the
    reading made by [time.Since]. *)
Definition checkAndInsertHistory (LoadLocation : option (Z → Z)) (now later : Z)
    (data : Live.LotteryData) (s : state) : state :=
  match historyInserter s with
  | None => s
  | Some inserter =>
      match LoadLocation with
      | None => s
      | Some loc =>
          let hour := Hour (loc now) now in
          let minute := Minute (loc now) now in
          if decide (hour = 16 ∧ 30 ≤ minute ∧ minute < 35)%Z then
            if decide (Live.Result430 data = "--" ∨ Live.Result430 data = "") then s
            else if decide (time_Sub later (lastCheckTime s) < time_Minute)%Z then s
            else
              {| live := live s; historyInserter := historyInserter s;
                 lastCheckTime := now;
                 history := (inserter data (history s)).1 |}
          else s
      end
  end.

Section handlers.

Variable json_Marshal : Live.LotteryData → option string.

(** [UpdateLotteryData] with its history check: the new snapshot is stored,
    then checked for the history, then broadcast. *)
Definition UpdateLotteryData (LoadLocation : option (Z → Z)) (now later : Z)
    (body : option Live.Input.t) (s : state) : option (state * Live.response) :=
  match body with
  | None => Some (s, Live.Resp400)
  | Some inputData =>
      let newData := Live.ToLotteryData inputData in
      let l := live s in
      let s1 :=
        {| live := {| Live.currentData := newData; Live.clients := Live.clients l;
                      Live.chans := Live.chans l; Live.next_chan := Live.next_chan l;
                      Live.cachedJSONMessage := Live.cachedJSONMessage l;
                      Live.jsonBufferPool := Live.jsonBufferPool l;
                      Live.encodes := Live.encodes l;
                      Live.buffers_made := Live.buffers_made l |};
           historyInserter := historyInserter s;
           lastCheckTime := lastCheckTime s; history := history s |} in
      let s2 := checkAndInsertHistory LoadLocation now later newData s1 in
      match Live.broadcastUpdate json_Marshal (live s2) with
      | None => None
      | Some (l', _, _) =>
          Some ({| live := l'; historyInserter := historyInserter s2;
                   lastCheckTime := lastCheckTime s2; history := history s2 |},
                Live.Resp200 (Live.currentData l'))
      end
  end.

End handlers.

End callback.

Global Arguments state : clear implicits.
Global Arguments HistoryInserter : clear implicits.

End LiveHistory.

(* ===================================================================== *)
(** ** Package [chatws]: the recent messages *)
(* ===================================================================== *)

Module ChatWSHttp.

Inductive recent_response :=
| Recent200 (messages : list Message.t).

Section recent.

(** The integer SQLite reads from the text bound to [LIMIT ?] ([None]: the
    text does not convert, the statement yields no row and the handler,
    which does not read [rows.Err], answers with no messages), and the
    rows in the order SQLite returns them for [ORDER BY created_at DESC].
    The database is up: the answer 500 does not occur. *)
Variable sqlite_integer : string → option Z.
Variable order_by_created_at_desc : list Message.t → list Message.t.

(** [GetRecentMessagesHandler]: the newest rows of [chatws_messages], put
    back into chronological order. [limit] is the query parameter if
    present. *)
Definition GetRecentMessagesHandler (limit : option string) (s : ChatWS.state)
    : recent_response :=
  let limit := default "50" limit in
  let messages :=
    match sqlite_integer limit with
    | None => []
    | Some n => Chat.sql_limit n (order_by_created_at_desc (ChatWS.chatws_messages s))
    end in
  Recent200 (reverse messages).

End recent.

End ChatWSHttp.

(* ===================================================================== *)
(** ** Package [chat]: the remaining endpoints *)
(* ===================================================================== *)

Module ChatHttp.

Inductive blocked_response :=
| Blocked400
| Blocked200 (blocked : list Chat.OnlineUser).

(** A query without ORDER BY returns its rows in an order that SQL leaves
    open: some rearrangement of them. *)
Definition rearranges {A} (f : list A → list A) : Prop := ∀ rows, f rows ≡ₚ rows.

Section blocked.

(** The rows of the join in the order SQLite returns them. *)
Variable scan_order : list Chat.OnlineUser → list Chat.OnlineUser.

(** [getBlockedUsersHandler]: the join of [chat_blocks] with [chat_users] on
    the blocked id, for one blocker. *)
Definition getBlockedUsersHandler (userID : string) (s : Chat.state) : blocked_response :=
  if decide (userID = "") then Blocked400
  else
    Blocked200
      (scan_order
         (omap (λ b : string * string,
                  if decide (b.1 = userID) then
                    u ← Chat.chat_users s !! b.2;
                    Some (Chat.mkOnlineUser b.2 (Chat.username u) (Chat.photo_url u))
                  else None)
               (Chat.chat_blocks s))).

End blocked.



Section online.

(** The rows in the order SQLite returns them for [ORDER BY username ASC]. *)
Variable order_by_username : list Chat.OnlineUser → list Chat.OnlineUser.


End online.

Inductive ban_response :=
| Ban400
| Ban404
| Ban200 (user_id username : string) (deleted_messages : nat) (reason : string).

(** [INSERT INTO chat_banned_users ... ON CONFLICT(user_id) DO UPDATE SET
    banned_by, reason, created_at]: an existing row keeps its user name. *)
Definition ban_upsert (userID username bannedBy reason : string)
    (t : gmap string Chat.BanRow) : gmap string Chat.BanRow :=
  match t !! userID with
  | Some row => <[userID := Chat.mkBanRow (Chat.ban_username row) bannedBy reason]> t
  | None => <[userID := Chat.mkBanRow username bannedBy reason]> t
  end.

(** [banUserHandler], with its response: the ban row is written and the
    messages of the user are deleted in one transaction; [deleted_messages]
    is the number of rows the DELETE affected. *)
Definition banUserHandler (userID reason bannedBy : string) (s : Chat.state)
    : Chat.state * ban_response :=
  if decide (userID = "") then (s, Ban400)
  else
    let reason :=
      if decide (reason = "") then "Violation of community guidelines" else reason in
    let bannedBy := if decide (bannedBy = "") then "admin" else bannedBy in
    match Chat.chat_users s !! userID with
    | None => (s, Ban404)
    | Some u =>
        let username := Chat.username u in
        let deletedCount :=
          length (filter (λ m, Message.UserID m = userID) (Chat.chat_messages s)) in
        (Chat.set_messages
           (filter (λ m, Message.UserID m ≠ userID) (Chat.chat_messages s))
           (Chat.next_message_id s)
           (Chat.set_banned
              (ban_upsert userID username bannedBy reason (Chat.chat_banned_users s)) s),
         Ban200 userID username deletedCount reason)
    end.

Inductive unban_response :=
| Unban400
| Unban404
| Unban200 (user_id : string).

(** [unbanUserHandler]: status 404 when the DELETE affected no row. *)
Definition unbanUserHandler (userID : string) (s : Chat.state)
    : Chat.state * unban_response :=
  if decide (userID = "") then (s, Unban400)
  else
    match Chat.chat_banned_users s !! userID with
    | None => (s, Unban404)
    | Some _ =>
        (Chat.set_banned (delete userID (Chat.chat_banned_users s)) s, Unban200 userID)
    end.

Inductive all_messages_response :=
| All200 (messages : list Message.t) (count : nat).

Section admin.

Variable sqlite_integer : string → option Z.
Variable order_by_created_at_desc : list Message.t → list Message.t.

(** [getAllMessagesHandler]: the newest rows first, and their number; no
    rows when the limit text is no integer. *)
Definition getAllMessagesHandler (limit : option string) (s : Chat.state)
    : all_messages_response :=
  let limit := default "100" limit in
  let messages :=
    match sqlite_integer limit with
    | None => []
    | Some n => Chat.sql_limit n (order_by_created_at_desc (Chat.chat_messages s))
    end in
  All200 messages (length messages).

End admin.

(** *** Sequences of requests

    The requests that change the state of the package, and what serving one
    after the other does. A stream is opened, relays what is queued for it,
    and ends; [StreamDone] is the end of any stream of that user id. *)
Inductive call :=
| GoogleAuth (req : option Chat.AuthRequest)
| SendMessage (current_timestamp now : Z) (userID message : string)
| BlockUser (blockerID blockedID : string)
| UnblockUser (blockerID blockedID : string)
| BanUser (userID reason bannedBy : string)
| UnbanUser (userID : string)
| StreamOpen (userID username photoURL : string)
| StreamRecv (a : nat)
| StreamDone (userID : string).

Section serve.

Variable idtoken_Validate : string → string → option (gmap string json).

Definition serve (c : call) (s : Chat.state) : result Chat.state :=
  match c with
  | GoogleAuth req =>
      match Chat.googleAuthHandler idtoken_Validate req s with
      | Done (s', _) => Done s'
      | Blocks => Blocks
      | Panics => Panics
      end
  | SendMessage current_timestamp now userID message =>
      match Chat.sendMessageHandler current_timestamp now userID message s with
      | Some (s', _) => Done s'
      | None => Panics
      end
  | BlockUser blockerID blockedID => Done (Chat.blockUserHandler blockerID blockedID s)
  | UnblockUser blockerID blockedID => Done (Chat.unblockUserHandler blockerID blockedID s)
  | BanUser userID reason bannedBy => Done (banUserHandler userID reason bannedBy s).1
  | UnbanUser userID => Done (unbanUserHandler userID s).1
  | StreamOpen userID username photoURL =>
      match Chat.sseStreamHandler_open userID username photoURL s with
      | Some (s', _) => Done s'
      | None => Panics
      end
  | StreamRecv a =>
      match Chat.sseStreamHandler_recv a s with
      | Some (s', _) => Done s'
      | None => Done s
      end
  | StreamDone userID =>
      match Chat.sseStreamHandler_done userID s with
      | Some s' => Done s'
      | None => Panics
      end
  end.

Fixpoint serve_all (calls : list call) (s : Chat.state) : result Chat.state :=
  match calls with
  | [] => Done s
  | c :: rest =>
      match serve c s with
      | Done s' => serve_all rest s'
      | r => r
      end
  end.

End serve.

(** *** Invariants of the request sequences *)

(** What the requests keep: the well-formedness of the registry, the
    uniqueness of the block rows, and the configuration. *)
Definition sound (s0 s : Chat.state) : Prop :=
  Chat.wf s ∧ NoDup (Chat.chat_blocks s) ∧
  Chat.googleClientID s = Chat.googleClientID s0.

(** Every token that the validator accepts carries its e-mail claim. *)
Definition tokens_carry_email
    (idtoken_Validate : string → string → option (gmap string json))
    (clientID : string) : Prop :=
  ∀ token claims, idtoken_Validate token clientID = Some claims →
                  ∃ e, claims !! "email" = Some (JString e).

(** What a request does to the message table: nothing, the deletion of the
    messages of one user, or the storage of one message under the next id. *)
Definition table_step (s s' : Chat.state) : Prop :=
  (Chat.chat_messages s' = Chat.chat_messages s ∧
   Chat.next_message_id s' = Chat.next_message_id s) ∨
  (∃ userID,
     Chat.chat_messages s'
       = filter (λ m, Message.UserID m ≠ userID) (Chat.chat_messages s) ∧
     Chat.next_message_id s' = Chat.next_message_id s) ∨
  (∃ m, Message.ID m = Chat.next_message_id s ∧
        Chat.chat_messages s' = (Chat.chat_messages s ++ [m])%list ∧
        Chat.next_message_id s' = (Chat.next_message_id s + 1)%Z).

(** The ids of the stored messages increase in storage order and are below
    the counter. *)
Definition ids_increase (s : Chat.state) : Prop :=
  (∀ m, m ∈ Chat.chat_messages s → (Message.ID m < Chat.next_message_id s)%Z) ∧
  StronglySorted (λ a b, (Message.ID a < Message.ID b)%Z) (Chat.chat_messages s).

End ChatHttp.

(* ===================================================================== *)
(** ** Stand-ins for the libraries, for closed examples *)
(* ===================================================================== *)

(** The handlers above take the Go libraries they call as parameters. The
    examples below run them on concrete inputs with these stand-ins, each of
    which answers as its library does on the inputs it accepts. *)
Module Samples.

Definition dquote : ascii := ascii_of_nat 34.
Definition backslash : ascii := ascii_of_nat 92.

(** The alphabet of [base64.RawURLEncoding]. *)
Definition b64_value (c : ascii) : option N :=
  let n := N_of_ascii c in
  if decide (65 ≤ n ≤ 90)%N then Some (n - 65)%N
  else if decide (97 ≤ n ≤ 122)%N then Some (n - 71)%N
  else if decide (48 ≤ n ≤ 57)%N then Some (n + 4)%N
  else if decide (n = 45)%N then Some 62%N
  else if decide (n = 95)%N then Some 63%N
  else None.

(** Four sextets make three bytes; two or three trailing sextets make one or
    two bytes (no padding); one trailing sextet is an error. *)
Fixpoint b64_bytes (l : list N) : option (list N) :=
  match l with
  | a :: b :: c :: d :: rest =>
      bytes ← b64_bytes rest;
      Some ((a * 4 + b / 16) :: ((b mod 16) * 16 + c / 4) :: ((c mod 4) * 64 + d) :: bytes)%N
  | [a; b; c] => Some [(a * 4 + b / 16); ((b mod 16) * 16 + c / 4)]%N
  | [a; b] => Some [(a * 4 + b / 16)]%N
  | [_] => None
  | [] => Some []
  end.

Definition base64_DecodeString (s : string) : option string :=
  vals ← mapM b64_value (list_ascii_of_string s);
  bytes ← b64_bytes vals;
  Some (string_of_list_ascii (ascii_of_N <$> bytes)).

(** The characters of a JSON string up to its closing quote; escapes are
    not read. *)
Fixpoint read_string (s : string) : option (string * string) :=
  match s with
  | EmptyString => None
  | String c rest =>
      if decide (c = dquote) then Some (EmptyString, rest)
      else if decide (c = backslash) then None
      else '(v, r) ← read_string rest; Some (String c v, r)
  end.

(** The members of a JSON object whose values are all strings, without
    white space. *)
Fixpoint read_members (fuel : nat) (s : string) (acc : gmap string json)
    : option (gmap string json) :=
  match fuel, s with
  | S fuel, String q rest =>
      if decide (q = dquote) then
        '(k, r1) ← read_string rest;
        match r1 with
        | String colon (String q2 r2) =>
            if decide (colon = ":"%char ∧ q2 = dquote) then
              '(v, r3) ← read_string r2;
              match r3 with
              | String sep r4 =>
                  if decide (sep = ","%char)
                  then read_members fuel r4 (<[k := JString v]> acc)
                  else if decide (sep = "}"%char ∧ r4 = EmptyString)
                       then Some (<[k := JString v]> acc)
                       else None
              | EmptyString => None
              end
            else None
        | _ => None
        end
      else None
  | _, _ => None
  end.

(** [json.Unmarshal] into a map, on objects of strings. *)
Definition json_Unmarshal (s : string) : option (gmap string json) :=
  match s with
  | String open rest =>
      if decide (open = "{"%char) then
        if decide (rest = "}") then Some ∅
        else read_members (String.length rest) rest ∅
      else None
  | EmptyString => None
  end.

(** A token validator that accepts no token at all. *)
Definition reject_all : string → string → option (gmap string json) :=
  λ _ _, None.

(** A token whose middle part decodes to an object with the claims [sub] =
    u1 and [name] = Mallory; its third part is no signature of anything. *)
Definition forged_token : string :=
  "e30.eyJzdWIiOiJ1MSIsIm5hbWUiOiJNYWxsb3J5In0.forged".

(** Decimal integers, as SQLite converts the text bound to LIMIT. *)
Fixpoint digits_value (acc : Z) (s : string) : option Z :=
  match s with
  | EmptyString => Some acc
  | String c rest =>
      let n := Z.of_N (N_of_ascii c) in
      if decide (48 ≤ n ≤ 57)%Z then digits_value (10 * acc + (n - 48))%Z rest
      else None
  end.

Definition sqlite_integer (s : string) : option Z :=
  match s with
  | EmptyString => None
  | String c rest =>
      if decide (c = "-"%char) then
        if decide (rest = "") then None else Z.opp <$> digits_value 0 rest
      else digits_value 0 s
  end.

(** One of the orders that [ORDER BY created_at DESC] may return. *)
Definition order_by_created_at_desc (rows : list Message.t) : list Message.t :=
  merge_sort Chat.not_older rows.

(** [json.Marshal] of a snapshot whose fields need no escaping. *)
Definition json_field (key value : string) : string :=
  String dquote key +:+ String dquote ":" +:+ String dquote value +:+ String dquote "".

Definition json_Marshal (d : Live.LotteryData) : option string :=
  Some ("{" +:+ json_field "draw_date" (Live.Date d)
        +:+ "," +:+ json_field "live_number" (Live.Live d)
        +:+ "," +:+ json_field "service_status" (Live.Status d)
        +:+ "," +:+ json_field "noon_set" (Live.Set1200 d)
        +:+ "," +:+ json_field "noon_value" (Live.Value1200 d)
        +:+ "," +:+ json_field "noon_result" (Live.Result1200 d)
        +:+ "," +:+ json_field "evening_set" (Live.Set430 d)
        +:+ "," +:+ json_field "evening_value" (Live.Value430 d)
        +:+ "," +:+ json_field "evening_result" (Live.Result430 d)
        +:+ "," +:+ json_field "morning_modern" (Live.Modern930 d)
        +:+ "," +:+ json_field "morning_internet" (Live.Internet930 d)
        +:+ "," +:+ json_field "afternoon_modern" (Live.Modern200 d)
        +:+ "," +:+ json_field "afternoon_internet" (Live.Internet200 d)
        +:+ "," +:+ json_field "last_update" (Live.UpdateTime d)
        +:+ "," +:+ String dquote "active_viewers" +:+ String dquote ":"
        +:+ pretty (Live.ViewCount d) +:+ "}").

End Samples.

(* ===================================================================== *)
(** ** Scenarios and vocabulary of the claims *)
(* ===================================================================== *)

(** [stored] is [input], or the sentinel when [input] is empty. *)
Definition defaulted (sentinel input stored : string) : Prop :=
  (input = "" → stored = sentinel) ∧ (input ≠ "" → stored = input).

Definition empty_input : Live.Input.t :=
  Live.Input.mk "" "" "" "" "" "" "" "" "" "" "" "" "" "".

Definition sample_input : Live.Input.t :=
  Live.Input.mk "2025-11-07" "22" "On" "1398.12" "" "" "1401.55" "23341.07"
                "134" "" "" "51" "" "16:30:01 07/11/2025".

(** The state with one stream subscriber connected since start-up. *)
Definition one_subscriber : Live.state :=
  (Live.StreamLotteryData_open Samples.json_Marshal (Live.Init "boot")).1.1.

(** [n] producer updates in a row, each with its broadcast cycle, while
    nothing is read from the channels. *)
Fixpoint broadcasts (n : nat) (s : Live.state) : option Live.state :=
  match n with
  | 0 => Some s
  | S n =>
      match Live.UpdateLotteryData Samples.json_Marshal (Some sample_input) s with
      | Some (s', _) => broadcasts n s'
      | None => None
      end
  end.

(** The one subscriber after fifty updates it did not read, and the channel
    behind a reference. *)
Definition fifty_unread : Live.state :=
  default one_subscriber (broadcasts 50 one_subscriber).

Definition chan_at (ch : nat) (s : Live.state) : chan string :=
  default (make 0) (Live.chans s !! ch).

(** Schedules of the WebSocket chat on the stand-in libraries. A connection
    with the forged token is accepted as client 0, gets the online list and
    announces itself ([sched_join]); it then sends 255 pings whose pongs
    nobody reads, which fills its queue ([sched_stall]); the dispatcher then
    takes the pending join event and finds the queue full ([sched_drop]). *)
Definition ping_frame : gmap string json := {["type" := JString "ping"]}.

Definition chat_frame : gmap string json :=
  {["type" := JString "message"; "message" := JString "hi"]}.

Definition ws_run : list ChatWS.action → ChatWS.conc → result ChatWS.conc :=
  ChatWS.run Samples.base64_DecodeString Samples.json_Unmarshal.

Definition sched_join : list ChatWS.action :=
  [ChatWS.AHandshake Samples.forged_token; ChatWS.AOnline 0; ChatWS.AJoined 0].

Definition sched_stall : list ChatWS.action :=
  sched_join ++ replicate 255 (ChatWS.AFrame 0 0 0 ping_frame).

Definition sched_drop : list ChatWS.action :=
  sched_stall ++ [ChatWS.DBegin [0]; ChatWS.DSend; ChatWS.DEnd].

Definition ws_joined : ChatWS.conc :=
  match ws_run sched_join ChatWS.initial with
  | Done c => c
  | _ => ChatWS.initial
  end.

(** The state in which the queue of client 0 is full and its join event
    waits on the [broadcast] channel, and the client at an address. *)
Definition ws_stalled : ChatWS.conc :=
  match ws_run sched_stall ChatWS.initial with
  | Done c => c
  | _ => ChatWS.initial
  end.

Definition ws_client_at (a : nat) (s : ChatWS.state) : ChatWS.WSClient :=
  default (ChatWS.mkWSClient "" "" "" (make 0)) (ChatWS.heap s !! a).

(** The request of the repository's own authentication test, in development
    mode. *)
Definition dev_request : Chat.AuthRequest :=
  Chat.mkAuthRequest "test-token" "test@example.com" "Test User"
                     "https://example.com/photo.jpg".

(** Alice, Bob and Carol sign in (development mode), open their streams, and
    Alice blocks Bob. Then Bob sends nine messages that Carol does not read:
    with the online event she got on connecting, her queue of ten is full. *)
Definition chat_auth (email name : string) (s : Chat.state) : option Chat.state :=
  match Chat.googleAuthHandler Samples.reject_all
          (Some (Chat.mkAuthRequest "test-token" email name "")) s with
  | Done (s', _) => Some s'
  | _ => None
  end.

Definition chat_open (userID name : string) (s : Chat.state) : option Chat.state :=
  fst <$> Chat.sseStreamHandler_open userID name "" s.

Fixpoint chat_sends (n : nat) (userID : string) (s : Chat.state) : option Chat.state :=
  match n with
  | 0 => Some s
  | S n =>
      s' ← fst <$> Chat.sendMessageHandler (Chat.next_message_id s)
                     (Chat.next_message_id s) userID "hello" s;
      chat_sends n userID s'
  end.

Definition three_users : option Chat.state :=
  s ← chat_auth "alice@x" "Alice" (Chat.initial_state "");
  s ← chat_auth "bob@x" "Bob" s;
  s ← chat_auth "carol@x" "Carol" s;
  s ← chat_open "alice@x" "Alice" s;
  s ← chat_open "bob@x" "Bob" s;
  s ← chat_open "carol@x" "Carol" s;
  Some (Chat.blockUserHandler "alice@x" "bob@x" s).

Definition carol_full : option Chat.state :=
  s ← three_users; chat_sends 9 "bob@x" s.

(** The scenario before Bob's messages, and the clients of Alice and Carol
    in it. *)
Definition three_users_state : Chat.state :=
  default (Chat.initial_state "") three_users.

Definition client_at (a : nat) (s : Chat.state) : Chat.SSEClient :=
  default (Chat.mkSSEClient "" "" "" (make 0)) (Chat.heap s !! a).

(** The scenario after Bob's nine messages. *)
Definition history_state : Chat.state :=
  default (Chat.initial_state "") carol_full.

(** In development mode, someone signs in under the email of two
    apostrophes and sends a message; Carol has signed in and has blocked
    nobody. *)
Definition quoted_user : option Chat.state :=
  s ← chat_auth "''" "Quote" (Chat.initial_state "");
  s ← chat_auth "carol@x" "Carol" s;
  fst <$> Chat.sendMessageHandler 100 100 "''" "hello" s.

Definition quoted_user_state : Chat.state :=
  default (Chat.initial_state "") quoted_user.

(** A history collaborator that keeps what it is given, and the fixed zone
    of six and a half hours east of UTC. *)
Definition history_log : LiveHistory.HistoryInserter (list Live.LotteryData) :=
  λ data h, ((h ++ [data])%list, false).

Definition yangon : Z → Z := λ _, 23400%Z.

(** One minute past half past four in the afternoon in that zone, on the
    first day of the calendar. *)
Definition half_past_four : Z := ((10 * 3600 + 60) * LiveHistory.time_Second)%Z.

Definition history_ready : LiveHistory.state (list Live.LotteryData) :=
  LiveHistory.SetHistoryInserter history_log (LiveHistory.Init "boot" []).

(** Whether the queue of a stream subscriber is full. *)
Definition queue_full (h : gmap nat (chan string)) (ch : nat) : bool :=
  from_option full false (h !! ch).

(** A day of the SSE chat in development mode. *)
Definition chat_day : list ChatHttp.call :=
  [ChatHttp.GoogleAuth (Some dev_request);
   ChatHttp.StreamOpen "test@example.com" "Test User" "";
   ChatHttp.SendMessage 100 100 "test@example.com" "hi";
   ChatHttp.BlockUser "test@example.com" "bob@x";
   ChatHttp.StreamRecv 0;
   ChatHttp.BanUser "test@example.com" "" "";
   ChatHttp.SendMessage 101 101 "test@example.com" "again";
   ChatHttp.UnbanUser "test@example.com";
   ChatHttp.StreamDone "test@example.com"].

(* ===================================================================== *)
(** ** Facts about channels *)
(* ===================================================================== *)

Module GoChanFacts.

Section facts.
Context {A : Type}.
Implicit Types (c : chan A) (v : A).

Lemma try_send_open v c :
  closed c = false →
  try_send v c =
    if full c then WouldBlock
    else Enqueued (mkChan (buf c ++ [v]) (cap c) false).
Proof.
  intros Hc. unfold try_send, full. rewrite Hc.
  by destruct (length (buf c) <? cap c)%nat.
Qed.

Lemma try_send_closed v c : closed c = true → try_send v c = SendOnClosed.
Proof. intros Hc. unfold try_send. by rewrite Hc. Qed.

Lemma after_send_closed v c : closed (after_send v c) = closed c.
Proof.
  unfold after_send, try_send.
  destruct (closed c) eqn:Hc; [done|].
  destruct (length (buf c) <? cap c)%nat; simpl; congruence.
Qed.

Lemma after_send_room v c :
  closed c = false → full c = false →
  after_send v c = mkChan (buf c ++ [v]) (cap c) false.
Proof.
  intros Hc Hf. unfold after_send. rewrite try_send_open by done. by rewrite Hf.
Qed.

Lemma after_send_full v c : full c = true → after_send v c = c.
Proof.
  intros Hf. unfold after_send, try_send. unfold full in Hf.
  destruct (closed c); [done|].
  destruct (length (buf c) <? cap c)%nat; [done|done].
Qed.

Lemma close_open c :
  closed c = false → close c = Some (mkChan (buf c) (cap c) true).
Proof. intros Hc. unfold close. by rewrite Hc. Qed.

Lemma try_recv_closed c c' v :
  try_recv c = Received v c' → closed c' = closed c.
Proof.
  unfold try_recv. destruct (buf c); [by destruct (closed c)|].
  intros [= _ <-]. done.
Qed.

Lemma try_send_Enqueued v c c' :
  try_send v c = Enqueued c' → c' = mkChan (buf c ++ [v]) (cap c) false.
Proof.
  unfold try_send. destruct (closed c); [done|].
  destruct (length (buf c) <? cap c)%nat; [|done]. by intros [= <-].
Qed.

Lemma full_make n : 0 < n → full (make (A:=A) n) = false.
Proof.
  intros Hn. unfold full, make. simpl.
  destruct (Nat.ltb_spec 0 n); [done|lia].
Qed.

End facts.

End GoChanFacts.

Import GoChanFacts.

(* ===================================================================== *)
(** ** Package [live]: facts *)
(* ===================================================================== *)

Module LiveFacts.

Import Live.

(** The loop visits each channel of [order] once: a channel with room gets
    the message, a full one is left as it is, and no other channel changes.
    The outcome does not depend on the order of the visits. *)
Lemma fanout_spec (message : string) (order : list nat) :
  ∀ (h : gmap nat (chan string)) sent skipped,
    NoDup order →
    (∀ ch, ch ∈ order → open_in h ch) →
    ∃ h' sent' skipped',
      fanout message order h sent skipped = Some (h', sent', skipped') ∧
      (∀ ch, ch ∈ order → h' !! ch = after_send message <$> h !! ch) ∧
      (∀ ch, ch ∉ order → h' !! ch = h !! ch) ∧
      sent' + skipped' = sent + skipped + length order.
Proof.
  induction order as [|a order IH]; intros h sent skipped Hnd Hopen.
  - exists h, sent, skipped. simpl. split_and!; [done| |done|lia].
    intros ch Hch. by apply elem_of_nil in Hch.
  - apply NoDup_cons in Hnd as [Hna Hnd].
    destruct (Hopen a) as (c & Hc & Hcl); [left|].
    simpl. rewrite Hc. rewrite (try_send_open message c Hcl).
    destruct (full c) eqn:Hfull.
    + destruct (IH h sent (S skipped) Hnd) as (h' & sent' & skipped' & Hf & Hin & Hout & Hcount).
      { intros ch Hch. apply Hopen. by right. }
      exists h', sent', skipped'. split_and!; [done| | |lia].
      * intros ch [->|Hch]%elem_of_cons.
        -- rewrite (Hout a Hna), Hc. simpl. by rewrite after_send_full.
        -- by apply Hin.
      * intros ch Hch. apply Hout. intros ?. apply Hch. by right.
    + destruct (IH (<[a := mkChan (buf c ++ [message]) (cap c) false]> h) (S sent) skipped Hnd)
        as (h' & sent' & skipped' & Hf & Hin & Hout & Hcount).
      { intros ch Hch. destruct (decide (ch = a)) as [->|Hne]; [done|].
        destruct (Hopen ch) as (c' & Hc' & Hcl'); [by right|].
        exists c'. by rewrite lookup_insert_ne. }
      exists h', sent', skipped'. split_and!; [done| | |lia].
      * intros ch [->|Hch]%elem_of_cons.
        -- rewrite (Hout a Hna), lookup_insert_eq, Hc. simpl.
           by rewrite after_send_room.
        -- rewrite (Hin ch Hch). rewrite lookup_insert_ne; [done|].
           intros ->. done.
      * intros ch Hch. rewrite Hout.
        -- rewrite lookup_insert_ne; [done|]. intros ->. apply Hch. by left.
        -- intros ?. apply Hch. by right.
Qed.

(** *** The registry through the handlers *)

Section handlers.

Variable json_Marshal : LotteryData → option string.

Lemma stream_initial_registry n s :
  let s' := (stream_initial json_Marshal n s).1 in
  clients s' = clients s ∧ chans s' = chans s ∧ next_chan s' = next_chan s ∧
  cachedJSONMessage s' = cachedJSONMessage s.
Proof. unfold stream_initial. by case_decide. Qed.

Lemma open_registry s :
  let s' := (StreamLotteryData_open json_Marshal s).1.1 in
  clients s' = {[next_chan s]} ∪ clients s ∧
  chans s' = <[next_chan s := make 50]> (chans s) ∧
  next_chan s' = S (next_chan s) ∧
  cachedJSONMessage s' = cachedJSONMessage s.
Proof.
  unfold StreamLotteryData_open. simpl.
  destruct (stream_initial json_Marshal _ _) as [s2 frame] eqn:Hi. simpl.
  pose proof (stream_initial_registry
    (size ({[next_chan s]} ∪ clients s)) (stream_register s).1.1) as H.
  unfold stream_register in H. simpl in H. rewrite Hi in H. simpl in H.
  destruct H as (-> & -> & -> & ->). done.
Qed.

Lemma prepare_registry s :
  let s' := (broadcast_prepare json_Marshal s).1 in
  clients s' = clients s ∧ chans s' = chans s ∧ next_chan s' = next_chan s.
Proof.
  unfold broadcast_prepare, Encoder_Encode, json_call.
  destruct (pool_Get s) as [pool made]. by destruct (json_Marshal _).
Qed.

Lemma wf_Init now : wf (Init now).
Proof.
  split; simpl.
  - intros ch Hch. by apply not_elem_of_empty in Hch.
  - intros ch [c Hc]. by rewrite lookup_empty in Hc.
Qed.

Lemma wf_registered_lt s ch : wf s → ch ∈ clients s → ch < next_chan s.
Proof.
  intros [Hopen Hlt] Hch. apply Hlt. destruct (Hopen ch Hch) as (c & -> & _). eauto.
Qed.

Lemma wf_open s : wf s → wf (StreamLotteryData_open json_Marshal s).1.1.
Proof.
  intros Hwf. pose proof Hwf as [Hopen Hlt].
  destruct (open_registry s) as (Hcl & Hch & Hn & _).
  split.
  - intros ch. rewrite Hcl, Hch. intros [->%elem_of_singleton|Hin]%elem_of_union.
    + exists (make 50). by rewrite lookup_insert_eq.
    + destruct (Hopen ch Hin) as (c & Hc & Hclosed).
      exists c. rewrite lookup_insert_ne; [done|].
      pose proof (wf_registered_lt s ch Hwf Hin). lia.
  - intros ch. rewrite Hch, Hn. intros [c Hc].
    destruct (decide (ch = next_chan s)) as [->|Hne]; [lia|].
    rewrite lookup_insert_ne in Hc by done.
    assert (ch < next_chan s) by (apply Hlt; eauto). lia.
Qed.

End handlers.

(** *** The invariant of the interleavings *)

Section interleaving.

Variable json_Marshal : LotteryData → option string.

Lemma inv_initial now : inv (initial now).
Proof.
  split_and!; simpl.
  - apply wf_Init.
  - intros ch Hch. by apply not_elem_of_empty in Hch.
  - constructor.
Qed.

(** No step of a handler or of a broadcast panics in a state that satisfies
    the invariant, and every step keeps the invariant. *)
Lemma step_inv a c :
  inv c →
  match step json_Marshal a c with
  | Ok c' => inv c'
  | Disabled => True
  | Panic => False
  end.
Proof.
  intros (Hwf & Hclosing & Hreaders). pose proof Hwf as [Hopen Hlt].
  destruct c as [s cl rd]. simpl in *.
  destruct a as [|ch|ch|ch|input| |order|i|i]; simpl.
  - (* AConnect *)
    destruct rd; [|done].
    destruct (open_registry json_Marshal s) as (Hcl & Hch & Hn & _).
    split_and!; simpl.
    + by apply wf_open.
    + intros ch Hch'. destruct (Hclosing ch Hch') as [Hnin (q & Hq & Hqc)].
      assert (ch < next_chan s) by (apply Hlt; eauto).
      rewrite Hcl, Hch. split.
      * intros [->%elem_of_singleton|?]%elem_of_union; [lia|done].
      * exists q. rewrite lookup_insert_ne by lia. done.
    + constructor.
  - (* ARecv *)
    case_decide as Hin; [|done].
    unfold stream_recv.
    destruct (chans s !! ch) as [q|] eqn:Hq; [|done].
    destruct (try_recv q) as [v q'| |] eqn:Hr; [|done|done].
    pose proof (try_recv_closed _ _ _ Hr) as Hcl'.
    split_and!; simpl.
    + split; simpl.
      * intros ch' Hch'. destruct (Hopen ch' Hch') as (q0 & Hq0 & Hc0).
        destruct (decide (ch' = ch)) as [->|Hne].
        -- exists q'. rewrite lookup_insert_eq. split; [done|]. congruence.
        -- exists q0. by rewrite lookup_insert_ne.
      * intros ch' [q0 Hq0]. apply Hlt.
        destruct (decide (ch' = ch)) as [->|Hne]; [eauto|].
        rewrite lookup_insert_ne in Hq0 by done. eauto.
    + intros ch' Hch'. destruct (Hclosing ch' Hch') as [Hnin (q0 & Hq0 & Hc0)].
      split; [done|].
      assert (ch' ≠ ch) by (intros ->; done).
      exists q0. by rewrite lookup_insert_ne.
    + done.
  - (* ARemove *)
    destruct rd; [|done].
    case_decide as Hin; [|done].
    split_and!; simpl.
    + split; simpl; [|done].
      intros ch' [Hch' _]%elem_of_difference. by apply Hopen.
    + intros ch' [->%elem_of_singleton|Hch']%elem_of_union.
      * split; [|by apply Hopen].
        intros [_ Hne]%elem_of_difference. by apply Hne, elem_of_singleton.
      * destruct (Hclosing ch' Hch') as [Hnin Ho]. split; [|done].
        by intros [? _]%elem_of_difference.
    + constructor.
  - (* AClose *)
    case_decide as Hin; [|done].
    destruct (Hclosing ch Hin) as [Hnin (q & Hq & Hqc)].
    unfold stream_close. rewrite Hq. simpl. rewrite (close_open q Hqc). simpl.
    split_and!; simpl.
    + split; simpl.
      * intros ch' Hch'. destruct (Hopen ch' Hch') as (q0 & Hq0 & Hc0).
        assert (ch' ≠ ch) by (intros ->; done).
        exists q0. by rewrite lookup_insert_ne.
      * intros ch' [q0 Hq0]. apply Hlt.
        destruct (decide (ch' = ch)) as [->|Hne]; [eauto|].
        rewrite lookup_insert_ne in Hq0 by done. eauto.
    + intros ch' [Hch' Hne%not_elem_of_singleton]%elem_of_difference.
      destruct (Hclosing ch' Hch') as [Hnin' (q0 & Hq0 & Hc0)].
      split; [done|]. exists q0. by rewrite lookup_insert_ne.
    + done.
  - (* AStore *)
    split_and!; simpl; [by split| done | done].
  - (* AGet *)
    by split_and!.
  - (* ABegin *)
    case_bool_decide as Hord; [|done].
    destruct Hord as [Hnd Hset].
    destruct (prepare_registry json_Marshal s) as (Hcl & Hch & Hn).
    destruct (broadcast_prepare json_Marshal s) as [s' [message|]] eqn:Hp;
      simpl in *.
    + split_and!; simpl.
      * split; rewrite ?Hcl, ?Hch, ?Hn; done.
      * rewrite Hcl, Hch. done.
      * rewrite Hcl. apply Forall_app. split; [done|].
        constructor; [|constructor]. simpl. intros ch Hch'.
        rewrite <- Hset. by apply elem_of_list_to_set.
    + split_and!; simpl.
      * split; rewrite ?Hcl, ?Hch, ?Hn; done.
      * rewrite Hcl, Hch. done.
      * rewrite Hcl. done.
  - (* ASend *)
    destruct (rd !! i) as [[message [|ch rest]]|] eqn:Hi; [done| |done].
    pose proof (Forall_lookup_1 _ _ _ _ Hreaders Hi) as Htodo. simpl in Htodo.
    destruct (Hopen ch) as (q & Hq & Hqc); [apply Htodo; left|].
    rewrite Hq. rewrite (try_send_open message q Hqc).
    assert (Forall (λ r : string * list nat, ∀ ch0, ch0 ∈ r.2 → ch0 ∈ clients s)
                   (<[i := (message, rest)]> rd)) as Hrd'.
    { apply Forall_insert; [done|]. simpl. intros ch0 Hch0. apply Htodo. by right. }
    destruct (full q).
    + split_and!; simpl; done.
    + split_and!; simpl.
      * split; simpl.
        -- intros ch' Hch'. destruct (Hopen ch' Hch') as (q0 & Hq0 & Hc0).
           destruct (decide (ch' = ch)) as [->|Hne].
           ++ eexists. rewrite lookup_insert_eq. done.
           ++ exists q0. by rewrite lookup_insert_ne.
        -- intros ch' [q0 Hq0]. apply Hlt.
           destruct (decide (ch' = ch)) as [->|Hne]; [eauto|].
           rewrite lookup_insert_ne in Hq0 by done. eauto.
      * intros ch' Hch'. destruct (Hclosing ch' Hch') as [Hnin (q0 & Hq0 & Hc0)].
        split; [done|].
        assert (ch' ≠ ch) by (intros ->; apply Hnin, Htodo; left).
        exists q0. by rewrite lookup_insert_ne.
      * done.
  - (* AEnd *)
    destruct (rd !! i) as [[message [|ch rest]]|] eqn:Hi; [|done|done].
    split_and!; simpl; [done|done|].
    by apply Forall_delete.
Qed.

Lemma run_inv sched : ∀ c,
  inv c →
  match run json_Marshal sched c with
  | Ok c' => inv c'
  | Disabled => True
  | Panic => False
  end.
Proof.
  induction sched as [|a sched IH]; intros c Hinv; simpl; [done|].
  pose proof (step_inv a c Hinv) as Hs.
  destruct (step json_Marshal a c) as [c'| |]; [|done|done].
  by apply IH.
Qed.

Lemma reachable_inv c : reachable json_Marshal c → inv c.
Proof.
  intros (now & sched & Hrun).
  pose proof (run_inv sched (initial now) (inv_initial now)) as H.
  by rewrite Hrun in H.
Qed.

End interleaving.

(** *** [broadcastUpdate] as a whole *)

Section broadcast.

Variable json_Marshal : LotteryData → option string.

(** In a well-formed state [broadcastUpdate] returns, whatever the order of
    the range. It encodes the snapshot once, with the registry size as view
    count; the message is cached and offered to every registered channel;
    a full channel is skipped and stays registered. *)
Lemma broadcastUpdate_in_spec order s :
  wf s → NoDup order → list_to_set order = clients s →
  ∃ s' sent skipped,
    broadcastUpdate_in json_Marshal order s = Some (s', sent, skipped) ∧
    wf s' ∧ clients s' = clients s ∧ next_chan s' = next_chan s ∧
    encodes s' = (encodes s ++ [currentData s'])%list ∧
    currentData s' = with_ViewCount (size (clients s)) (currentData s) ∧
    match Encode json_Marshal "" (currentData s') with
    | Some message =>
        cachedJSONMessage s' = message ∧
        head (jsonBufferPool s') = Some message ∧
        (∀ ch, ch ∈ clients s → chans s' !! ch = after_send message <$> chans s !! ch) ∧
        (∀ ch, ch ∉ clients s → chans s' !! ch = chans s !! ch) ∧
        sent + skipped = size (clients s)
    | None =>
        cachedJSONMessage s' = cachedJSONMessage s ∧ chans s' = chans s
    end.
Proof.
  intros Hwf Hnd Hset. pose proof Hwf as [Hopen Hlt].
  unfold broadcastUpdate_in, broadcast_prepare, Encoder_Encode, json_call.
  destruct (pool_Get s) as [pool made].
  unfold Encode.
  destruct (json_Marshal (with_ViewCount (size (clients s)) (currentData s)))
    as [js|] eqn:Hjs; simpl.
  - set (message := "" +:+ js +:+ LF).
    destruct (fanout_spec message order (chans s) 0 0 Hnd) as
      (h' & sent & skipped & Hf & Hin & Hout & Hcount).
    { intros ch Hch. apply Hopen. rewrite <- Hset. by apply elem_of_list_to_set. }
    rewrite Hf. eexists _, sent, skipped.
    split; [done|]. simpl. rewrite Hjs. simpl.
    assert (∀ ch, ch ∈ clients s ↔ ch ∈ order) as Hmem.
    { intros ch. rewrite <- Hset. by rewrite elem_of_list_to_set. }
    split_and!; try done.
    + split; simpl.
      * intros ch Hch. destruct (Hopen ch Hch) as (c & Hc & Hcl).
        exists (after_send message c). rewrite Hin by (by apply Hmem).
        rewrite Hc. split; [done|]. by rewrite after_send_closed.
      * intros ch [c Hc]. apply Hlt.
        destruct (decide (ch ∈ order)) as [Hi|Hi].
        -- rewrite (Hin ch Hi) in Hc. destruct (chans s !! ch); [eauto|done].
        -- rewrite (Hout ch Hi) in Hc. eauto.
    + intros ch Hch. apply Hin. by apply Hmem.
    + intros ch Hch. apply Hout. by rewrite <- Hmem.
    + rewrite <- Hset, size_list_to_set by done. lia.
  - eexists _, 0, 0. split; [done|]. simpl. rewrite Hjs. simpl.
    split_and!; try done.
Qed.

(** The buffer of a broadcast: one buffer is taken out of the pool, or made
    when the pool has none, and put back holding what the encoder wrote
    into it after the reset; the rest of the pool is untouched. *)
Lemma broadcastUpdate_in_pool order s s' sent skipped :
  broadcastUpdate_in json_Marshal order s = Some (s', sent, skipped) →
  jsonBufferPool s'
    = default "" (Encode json_Marshal "" (currentData s')) :: tail (jsonBufferPool s) ∧
  buffers_made s'
    = (if jsonBufferPool s is [] then S (buffers_made s) else buffers_made s).
Proof.
  unfold broadcastUpdate_in, broadcast_prepare, Encoder_Encode, json_call, pool_Get, Encode.
  destruct (jsonBufferPool s) as [|b pool]; simpl;
    (destruct (json_Marshal (with_ViewCount (size (clients s)) (currentData s)))
       as [js|] eqn:Hjs; simpl;
     [destruct (fanout _ _ _ _ _) as [[[h ?] ?]|]; [|done]|]);
    intros [= <- _ _]; simpl; by rewrite Hjs.
Qed.

(** A new stream connection that finds a cached message writes that message
    as its first frame and encodes nothing. *)
Lemma open_cached s :
  cachedJSONMessage s ≠ "" →
  (StreamLotteryData_open json_Marshal s).2 = sse_frame (cachedJSONMessage s) ∧
  encodes (StreamLotteryData_open json_Marshal s).1.1 = encodes s ∧
  currentData (StreamLotteryData_open json_Marshal s).1.1 = currentData s.
Proof.
  intros Hc. unfold StreamLotteryData_open, stream_register, stream_initial. simpl.
  by case_decide.
Qed.

(** Without a cached message the connection encodes the snapshot itself,
    with the registry size it saw, and caches nothing. *)
Lemma open_uncached s :
  cachedJSONMessage s = "" →
  let n := S (size (clients s)) in
  next_chan s ∉ clients s →
  (StreamLotteryData_open json_Marshal s).2 =
    sse_frame (default "" (json_Marshal (with_ViewCount n (currentData s)))) ∧
  encodes (StreamLotteryData_open json_Marshal s).1.1
    = (encodes s ++ [with_ViewCount n (currentData s)])%list ∧
  currentData (StreamLotteryData_open json_Marshal s).1.1 = with_ViewCount n (currentData s).
Proof.
  intros Hc n Hfresh. unfold StreamLotteryData_open, stream_register, stream_initial.
  simpl. case_decide; [|done]. simpl.
  rewrite size_union, size_singleton by (by apply disjoint_singleton_l). done.
Qed.

End broadcast.

(** *** [UpdateLotteryData] *)

Section update.

Variable json_Marshal : LotteryData → option string.

(** What an accepted update leaves in the store: the converted input with
    the registry size as view count. *)
Lemma update_currentData input s s' r :
  UpdateLotteryData json_Marshal (Some input) s = Some (s', r) →
  r = Resp200 (currentData s') ∧
  clients s' = clients s ∧
  currentData s' = with_ViewCount (size (clients s)) (ToLotteryData input).
Proof.
  unfold UpdateLotteryData, broadcastUpdate, broadcastUpdate_in, broadcast_prepare,
    Encoder_Encode, json_call.
  simpl. destruct (pool_Get _) as [pool made].
  destruct (json_Marshal _) as [js|]; simpl.
  - destruct (fanout _ _ _ _ _) as [[[h sent] skipped]|]; [|done].
    intros [= <- <-]. done.
  - intros [= <- <-]. done.
Qed.

(** An update keeps the state well-formed. *)
Lemma update_keeps_wf body s s' r :
  wf s → UpdateLotteryData json_Marshal body s = Some (s', r) → wf s'.
Proof.
  intros Hwf. unfold UpdateLotteryData. destruct body as [input|].
  - unfold broadcastUpdate.
    set (s1 := {| currentData := ToLotteryData input; clients := clients s;
                  chans := chans s; next_chan := next_chan s;
                  cachedJSONMessage := cachedJSONMessage s;
                  jsonBufferPool := jsonBufferPool s;
                  encodes := encodes s; buffers_made := buffers_made s |}).
    destruct (broadcastUpdate_in_spec json_Marshal (elements (clients s1)) s1)
      as (s2 & sent & skipped & Hb & Hwf2 & _);
      [done|apply NoDup_elements|apply list_to_set_elements_L|].
    rewrite Hb. by intros [= <- <-].
  - by intros [= <- <-].
Qed.

End update.

(** The encoder ends its output with a line feed: a message it produced is
    never empty. *)
Lemma Encode_nonempty (json_Marshal : LotteryData → option string) d message :
  Encode json_Marshal "" d = Some message → message ≠ "".
Proof.
  unfold Encode. destruct (json_Marshal d) as [js|]; [|done].
  intros [= <-]. simpl. destruct js; [done|done].
Qed.

End LiveFacts.

(* ===================================================================== *)
(** ** Package [chatws]: facts *)
(* ===================================================================== *)

Module ChatWSFacts.

Import ChatWS.

Lemma wf_initial : wf initial_state.
Proof.
  split_and!; simpl; [|intros a [c Hc]; by rewrite lookup_empty in Hc|done|].
  - intros a Ha. by apply not_elem_of_empty in Ha.
  - intros a c Hc. by rewrite lookup_empty in Hc.
Qed.

(** A client's channel changes, its closed flag does not. *)
Lemma wf_update s a c q :
  wf s → heap s !! a = Some c → closed q = closed (Send c) →
  wf (set_clients_heap (clients s) (<[a := with_Send q c]> (heap s)) s).
Proof.
  intros (Hopen & Hlt & Hb & Hgone) Ha Hq. split_and!; simpl; [| |done|].
  - intros a' Ha'. destruct (Hopen a' Ha') as (c' & Hc' & Hcl').
    destruct (decide (a' = a)) as [->|Hne].
    + exists (with_Send q c). rewrite lookup_insert_eq. split; [done|]. simpl.
      rewrite Hq. congruence.
    + exists c'. by rewrite lookup_insert_ne.
  - intros a' [c' Hc']. apply Hlt.
    destruct (decide (a' = a)) as [->|Hne]; [eauto|].
    rewrite lookup_insert_ne in Hc' by done. eauto.
  - intros a' c' Hc' Hnin. destruct (decide (a' = a)) as [->|Hne].
    + rewrite lookup_insert_eq in Hc'. injection Hc' as <-. simpl.
      rewrite Hq. by apply (Hgone a c).
    + rewrite lookup_insert_ne in Hc' by done. by apply (Hgone a' c').
Qed.

(** A client leaves the registry and its channel changes at will. *)
Lemma wf_drop s a c c' :
  wf s → heap s !! a = Some c → closed (Send c') = true →
  wf (set_clients_heap (clients s ∖ {[a]}) (<[a := c']> (heap s)) s).
Proof.
  intros (Hopen & Hlt & Hb & Hgone) Ha Hcl. split_and!; simpl; [| |done|].
  - intros a' [Ha' Hne%not_elem_of_singleton]%elem_of_difference.
    destruct (Hopen a' Ha') as (c0 & Hc0 & Hcl0).
    exists c0. by rewrite lookup_insert_ne.
  - intros a' [c0 Hc0]. apply Hlt.
    destruct (decide (a' = a)) as [->|Hne]; [eauto|].
    rewrite lookup_insert_ne in Hc0 by done. eauto.
  - intros a' c0 Hc0 Hnin. destruct (decide (a' = a)) as [->|Hne].
    + rewrite lookup_insert_eq in Hc0. by injection Hc0 as <-.
    + rewrite lookup_insert_ne in Hc0 by done. apply (Hgone a' c0 Hc0).
      intros Hin. apply Hnin. apply elem_of_difference. split; [done|].
      by apply not_elem_of_singleton.
Qed.

Lemma wf_set_users u s : wf s → wf (set_users u s).
Proof. by intros (? & ? & ? & ?). Qed.

Lemma wf_set_broadcast q s : wf s → closed q = false → wf (set_broadcast q s).
Proof. by intros (? & ? & ? & ?) ?. Qed.

Lemma wf_register client s :
  wf s → closed (Send client) = false → wf (register client s).1.
Proof.
  intros (Hopen & Hlt & Hb & Hgone) Hc. split_and!; simpl; [| |done|].
  - intros a [->%elem_of_singleton|Ha]%elem_of_union.
    + exists client. by rewrite lookup_insert_eq.
    + destruct (Hopen a Ha) as (c & Hc' & Hcl).
      exists c. rewrite lookup_insert_ne; [done|].
      assert (a < next_client s) by (apply Hlt; eauto). lia.
  - intros a [c Hc'].
    destruct (decide (a = next_client s)) as [->|Hne]; [lia|].
    rewrite lookup_insert_ne in Hc' by done.
    assert (a < next_client s) by (apply Hlt; eauto). lia.
  - intros a c Hc' Hnin. destruct (decide (a = next_client s)) as [->|Hne].
    + exfalso. apply Hnin. apply elem_of_union. left. by apply elem_of_singleton.
    + rewrite lookup_insert_ne in Hc' by done. apply (Hgone a c Hc').
      intros Hin. apply Hnin. apply elem_of_union. by right.
Qed.

Lemma broadcast_send_wf ev s :
  wf s →
  match broadcast_send ev s with
  | Done s' => wf s' ∧ clients s' = clients s ∧ heap s' = heap s ∧
               next_client s' = next_client s
  | Blocks => True
  | Panics => False
  end.
Proof.
  intros Hwf. pose proof Hwf as (_ & _ & Hb & _).
  unfold broadcast_send. rewrite (try_send_open ev _ Hb).
  destruct (full (broadcast s)); [done|].
  split_and!; try done. by apply wf_set_broadcast.
Qed.

(** What one iteration of the dispatcher does to the client it visits. *)
Lemma deliver_one_spec message a s c :
  wf s → a ∈ clients s → heap s !! a = Some c →
  ∃ s', deliver_one message a s = Some s' ∧ wf s' ∧
    broadcast s' = broadcast s ∧ next_client s' = next_client s ∧
    chatws_users s' = chatws_users s ∧ chatws_messages s' = chatws_messages s ∧
    (∀ a', a' ≠ a → heap s' !! a' = heap s !! a' ∧ (a' ∈ clients s' ↔ a' ∈ clients s)) ∧
    if full (Send c)
    then (a ∉ clients s') ∧
         heap s' !! a = Some (with_Send (mkChan (buf (Send c)) (cap (Send c)) true) c)
    else a ∈ clients s' ∧
         heap s' !! a = Some (with_Send (mkChan (buf (Send c) ++ [message]) (cap (Send c)) false) c).
Proof.
  intros Hwf Ha Hc. pose proof Hwf as (Hopen & _ & _).
  destruct (Hopen a Ha) as (c0 & Hc0 & Hcl). rewrite Hc in Hc0. injection Hc0 as <-.
  unfold deliver_one. rewrite Hc. simpl. rewrite (try_send_open message _ Hcl).
  destruct (full (Send c)) eqn:Hfull.
  - rewrite (close_open _ Hcl). simpl. eexists. split; [done|].
    split; [by eapply wf_drop|].
    do 4 (split; [done|]). simpl. split; [|split].
    + intros a' Hne. rewrite lookup_insert_ne by done. split; [done|].
      rewrite elem_of_difference, not_elem_of_singleton. tauto.
    + rewrite elem_of_difference, not_elem_of_singleton. tauto.
    + by rewrite lookup_insert_eq.
  - eexists. split; [done|].
    split; [by apply wf_update|].
    do 4 (split; [done|]). simpl. split; [|split].
    + intros a' Hne. by rewrite lookup_insert_ne.
    + done.
    + by rewrite lookup_insert_eq.
Qed.

(** The whole loop: every client of the registry with room in its channel
    gets the message and stays; every client whose channel is full has its
    channel closed and leaves the registry; nothing else changes. *)
Lemma deliver_spec message order :
  ∀ s, wf s → NoDup order → (∀ a, a ∈ order → a ∈ clients s) →
  ∃ s', deliver message order s = Some s' ∧ wf s' ∧
    broadcast s' = broadcast s ∧ next_client s' = next_client s ∧
    chatws_users s' = chatws_users s ∧ chatws_messages s' = chatws_messages s ∧
    (∀ a, a ∉ order → heap s' !! a = heap s !! a ∧ (a ∈ clients s' ↔ a ∈ clients s)) ∧
    (∀ a, a ∈ order → ∃ c, heap s !! a = Some c ∧
       if full (Send c)
       then (a ∉ clients s') ∧
            heap s' !! a = Some (with_Send (mkChan (buf (Send c)) (cap (Send c)) true) c)
       else a ∈ clients s' ∧
            heap s' !! a = Some (with_Send (mkChan (buf (Send c) ++ [message]) (cap (Send c)) false) c)).
Proof.
  induction order as [|a order IH]; intros s Hwf Hnd Hin.
  - exists s. simpl. split_and!; try done.
    intros a Ha. by apply elem_of_nil in Ha.
  - apply NoDup_cons in Hnd as [Hna Hnd].
    pose proof Hwf as (Hopen & _ & _).
    destruct (Hopen a) as (c & Hc & Hcl); [apply Hin; left|].
    destruct (deliver_one_spec message a s c Hwf) as
      (s1 & Hd & Hwf1 & Hb1 & Hn1 & Hu1 & Hm1 & Hother1 & Hsame1);
      [apply Hin; left|done|].
    destruct (IH s1 Hwf1 Hnd) as
      (s' & Hd' & Hwf' & Hb' & Hn' & Hu' & Hm' & Hother' & Hsame').
    { intros a' Ha'. apply Hother1; [by intros ->|]. apply Hin. by right. }
    exists s'. simpl. rewrite Hd. simpl. split; [done|].
    split_and!; try congruence.
    + intros a' Ha'. apply not_elem_of_cons in Ha' as [Hne Hnin].
      destruct (Hother' a' Hnin) as [Hh Hr].
      destruct (Hother1 a' Hne) as [Hh1 Hr1].
      split; [congruence|]. by rewrite Hr.
    + intros a' [->|Ha']%elem_of_cons.
      * exists c. split; [done|].
        destruct (Hother' a Hna) as [Hh Hr]. rewrite Hh.
        destruct (full (Send c)); destruct Hsame1 as [H1 H2]; (split; [|done]).
        -- intros Hx. by apply H1, Hr.
        -- by apply Hr.
      * destruct (Hsame' a' Ha') as (c' & Hc' & Hcase).
        assert (a' ≠ a) as Hne by (by intros ->).
        destruct (Hother1 a' Hne) as [Heq _]. rewrite Heq in Hc'.
        exists c'. done.
Qed.

(** *** The invariant of the interleavings *)

Lemma keeps_update s a c q :
  wf s → heap s !! a = Some c → closed q = closed (Send c) →
  keeps s (set_clients_heap (clients s) (<[a := with_Send q c]> (heap s)) s).
Proof.
  intros Hwf Ha Hq. split_and!; [by apply wf_update|done|].
  simpl. intros a' Ha'. destruct (decide (a' = a)) as [->|Hne].
  - rewrite lookup_insert_eq. eauto.
  - by rewrite lookup_insert_ne.
Qed.

Lemma closed_not_registered s a cl :
  wf s → heap s !! a = Some cl → closed (Send cl) = true → a ∉ clients s.
Proof.
  intros (Hopen & _ & _) Ha Hcl Hin.
  destruct (Hopen a Hin) as (c & Hc & Hc'). congruence.
Qed.

Lemma broadcast_send_keeps ev s :
  wf s →
  match broadcast_send ev s with
  | Done s' => keeps s s'
  | Blocks => True
  | Panics => False
  end.
Proof.
  intros Hwf. pose proof (broadcast_send_wf ev s Hwf) as H.
  destruct (broadcast_send ev s) as [s'| |]; [|done|done].
  destruct H as (? & ? & Hh & ?). split_and!; [done|done|]. by rewrite Hh.
Qed.

Lemma sendOnlineUsersToClient_keeps a s :
  wf s → is_Some (heap s !! a) →
  match sendOnlineUsersToClient a s with
  | Done s' => keeps s s'
  | Blocks => True
  | Panics => closed_unregistered a s
  end.
Proof.
  intros Hwf [client Ha]. unfold sendOnlineUsersToClient. rewrite Ha.
  destruct (closed (Send client)) eqn:Hcl.
  - rewrite try_send_closed by done. exists client. split_and!; [done|done|].
    by eapply closed_not_registered.
  - rewrite try_send_open by done. destruct (full (Send client)).
    + split_and!; done.
    + by apply keeps_update.
Qed.

Lemma handleChatMessage_keeps inserted_at now a msg s :
  wf s → is_Some (heap s !! a) →
  match handleChatMessage inserted_at now a msg s with
  | Done s' => keeps s s'
  | Blocks => True
  | Panics => False
  end.
Proof.
  intros Hwf [client Ha]. unfold handleChatMessage. rewrite Ha.
  destruct (msg !! "message") as [[| | |messageText| |]|]; try by split_and!.
  case_decide; [by split_and!|].
  match goal with |- context [broadcast_send ?ev ?s0] =>
    pose proof (broadcast_send_keeps ev s0) as Hbs end.
  destruct (broadcast_send _ _) as [s'| |]; [|done|]; by apply Hbs.
Qed.

Lemma readPump_frame_keeps inserted_at now a msg s :
  wf s → is_Some (heap s !! a) →
  match readPump_frame inserted_at now a msg s with
  | Done s' => keeps s s'
  | Blocks => True
  | Panics => closed_unregistered a s
  end.
Proof.
  intros Hwf Ha. unfold readPump_frame.
  destruct (msg !! "type") as [[| | |msgType| |]|]; try by split_and!.
  case_decide.
  { pose proof (handleChatMessage_keeps inserted_at now a msg s Hwf Ha) as Hk.
    by destruct (handleChatMessage inserted_at now a msg s). }
  case_decide; [|by split_and!].
  destruct Ha as [client Ha]. rewrite Ha.
  destruct (closed (Send client)) eqn:Hcl.
  - rewrite try_send_closed by done. exists client. split_and!; [done|done|].
    by eapply closed_not_registered.
  - rewrite try_send_open by done. destruct (full (Send client)); [done|].
    by apply keeps_update.
Qed.

Section interleaving.

Variable base64_DecodeString : string → option string.
Variable json_Unmarshal : string → option (gmap string json).

(** Authentication writes the user table only, and the client it makes owns
    a new open channel of capacity 256. *)
Lemma authenticate_spec idToken s s1 r :
  authenticateClientWithToken base64_DecodeString json_Unmarshal idToken s = (s1, r) →
  (∃ u, s1 = set_users u s) ∧
  (r = None → s1 = s) ∧
  (∀ client, r = Some client → Send client = make 256 ∧ UserID client ≠ "").
Proof.
  unfold authenticateClientWithToken.
  assert (s = set_users (chatws_users s) s) as Hs by (by destruct s).
  repeat (case_decide || case_match); intros [= <- <-];
    (split; [eauto|]); (split; [done|]); intros client [= <-]; done.
Qed.

Lemma register_spec idToken s s' r :
  wf s →
  HandleWebSocket_register base64_DecodeString json_Unmarshal idToken true s = (s', r) →
  wf s' ∧
  (∀ a, is_Some (heap s !! a) → is_Some (heap s' !! a)) ∧
  match r with
  | Accepted a =>
      a = next_client s ∧ clients s' = {[a]} ∪ clients s ∧ is_Some (heap s' !! a)
  | _ => clients s' = clients s
  end.
Proof.
  intros Hwf. unfold HandleWebSocket_register.
  case_decide; [by intros [= <- <-]|]. simpl.
  destruct (authenticateClientWithToken _ _ _ _) as [s1 [client|]] eqn:Hauth;
    destruct (authenticate_spec _ _ _ _ Hauth) as ([u ->] & Hnone & Hsome).
  - destruct (Hsome client eq_refl) as [Hsend _].
    pose proof (wf_register client (set_users u s) (wf_set_users u s Hwf)) as Hwf1.
    unfold register in *. simpl in *. intros Heq. inversion Heq; subst; clear Heq.
    split; [|split].
    + apply Hwf1. by rewrite Hsend.
    + simpl. intros a Ha. destruct (decide (a = next_client s)) as [->|Hne].
      * rewrite lookup_insert_eq. eauto.
      * by rewrite lookup_insert_ne.
    + simpl. split; [done|]. split; [done|]. rewrite lookup_insert_eq. eauto.
  - pose proof (wf_set_users u s Hwf) as Hwf1.
    intros [= <- <-]. split_and!; [done|done|done].
Qed.

Lemma continue_inv c p a r (P : Prop) :
  inv c → is_Some (heap (shared c) !! a) →
  match r with
  | Done s' => keeps (shared c) s'
  | Blocks => True
  | Panics => P
  end →
  match continue c p a r with
  | Done c' => inv c'
  | Blocks => True
  | Panics => P
  end.
Proof.
  intros (Hwf & Hph & Hd) Ha Hr. destruct r as [s'| |]; simpl; [|done|done].
  destruct Hr as (Hwf' & Hcl & Hdom). split_and!; simpl; [done| |].
  - intros a' p'. destruct p as [p|].
    + destruct (decide (a' = a)) as [->|Hne].
      * intros _. by apply Hdom.
      * rewrite lookup_insert_ne by done. intros H. eapply Hdom, Hph, H.
    + intros H. apply lookup_delete_Some in H as [_ H]. eapply Hdom, Hph, H.
  - destruct (dispatcher c) as [[m todo]|]; [|done]. by rewrite Hcl.
Qed.

(** Every step keeps the invariant, the dispatcher and [disconnect] never
    panic, and a step that panics is a send by a connection on its own
    channel after the dispatcher dropped it. *)
Lemma ws_step_inv act c :
  inv c →
  match step base64_DecodeString json_Unmarshal act c with
  | Done c' => inv c'
  | Blocks => True
  | Panics => own_send_after_drop act c
  end.
Proof.
  intros Hinv. pose proof Hinv as (Hwf & Hph & Hd).
  destruct act as [idToken|a|a|a inserted_at now msg|a|a|a|order| |]; simpl.
  - (* AHandshake *)
    destruct (dispatcher c) eqn:Hdc; [done|].
    destruct (HandleWebSocket_register _ _ _ _ _) as [s' r] eqn:Hr.
    destruct (register_spec _ _ _ _ Hwf Hr) as (Hwf' & Hdom & Hcase).
    destruct r as [| | |a]; try (split_and!; simpl; [done| |done];
      intros a' p' H; eapply Hdom, Hph, H).
    destruct Hcase as (-> & Hcl & Hsome).
    split_and!; simpl; [done| |done].
    intros a' p'. destruct (decide (a' = next_client (shared c))) as [->|Hne].
    + done.
    + rewrite lookup_insert_ne by done. intros H. eapply Hdom, Hph, H.
  - (* AOnline *)
    unfold in_phase. case_bool_decide as Hp; [|done].
    destruct (Hph _ _ Hp) as [client Ha]. rewrite Ha.
    pose proof (sendOnlineUsersToClient_keeps a
      (updateUserOnlineStatus (UserID client) true (shared c))) as Hk.
    apply (continue_inv c (Some POnlineSent) a _ (own_send_after_drop (AOnline a) c));
      [done|eauto|].
    destruct (sendOnlineUsersToClient _ _) as [s'| |]; [| done |].
    + apply Hk; [by apply wf_set_users|simpl; eauto].
    + destruct Hk as (cl & Hcl & Hclosed & Hnin); [by apply wf_set_users|simpl; eauto|].
      exists a, cl. split_and!; eauto.
  - (* AJoined *)
    unfold in_phase. case_bool_decide as Hp; [|done].
    destruct (Hph _ _ Hp) as [client Ha].
    apply (continue_inv c (Some PRunning) a _ (own_send_after_drop (AJoined a) c));
      [done|eauto|].
    unfold broadcastUserJoined. rewrite Ha.
    pose proof (broadcast_send_keeps
      (EvUserJoined (UserID client) (Username client) (getOnlineCount (shared c)))
      (shared c) Hwf) as Hk.
    by destruct (broadcast_send _ _).
  - (* AFrame *)
    unfold in_phase. case_bool_decide as Hp; [|done].
    apply (continue_inv c (Some PRunning) a _
             (own_send_after_drop (AFrame a inserted_at now msg) c));
      [done|eauto|].
    pose proof (readPump_frame_keeps inserted_at now a msg (shared c) Hwf (Hph _ _ Hp))
      as Hk.
    destruct (readPump_frame _ _ _ _) as [s'| |]; [done|done|].
    destruct Hk as (cl & Hcl & Hclosed & Hnin).
    exists a, cl. split_and!; eauto.
  - (* AWrite *)
    destruct (in_phase PRunning a c || in_phase PLeft a c); [|done].
    unfold writePump_recv.
    destruct (heap (shared c) !! a) as [client|] eqn:Ha; [|done]. simpl.
    destruct (try_recv (Send client)) as [v q| |] eqn:Hrecv; [|done|done].
    destruct (keeps_update (shared c) a client q Hwf Ha (try_recv_closed _ _ _ Hrecv))
      as (Hwf' & Hcl & Hdom).
    split_and!; simpl; [done| |done].
    intros a' p' H. eapply Hdom, Hph, H.
  - (* ADisconnect *)
    unfold in_phase. case_bool_decide as Hp; [|done].
    destruct (dispatcher c) eqn:Hdc; [done|].
    destruct (Hph _ _ Hp) as [client Ha].
    unfold disconnect_locked. case_decide as Hin.
    + rewrite Ha. simpl.
      pose proof Hwf as (Hopen & _ & _).
      destruct (Hopen a Hin) as (c0 & Hc0 & Hcl0). rewrite Ha in Hc0.
      injection Hc0 as <-. rewrite close_open by done. simpl.
      split_and!; simpl; [by eapply wf_drop| |done].
      intros a' p'. destruct (decide (a' = a)) as [->|Hne].
      * rewrite !lookup_insert_eq. eauto.
      * rewrite !lookup_insert_ne by done. apply Hph.
    + split_and!; simpl; [done| |done].
      intros a' p'. destruct (decide (a' = a)) as [->|Hne]; [eauto|].
      rewrite lookup_insert_ne by done. apply Hph.
  - (* ALeft *)
    unfold in_phase. case_bool_decide as Hp; [|done].
    destruct (Hph _ _ Hp) as [client Ha].
    apply (continue_inv c None a _ (own_send_after_drop (ALeft a) c));
      [done|eauto|].
    unfold disconnect_notify, broadcastUserLeft. rewrite Ha. simpl. rewrite Ha.
    match goal with |- context [broadcast_send ?ev ?s0] =>
      pose proof (broadcast_send_keeps ev s0) as Hk end.
    destruct (broadcast_send _ _) as [s'| |]; [|done|exfalso];
      apply Hk; by apply wf_set_users.
  - (* DBegin *)
    destruct (dispatcher c) eqn:Hdc; [done|].
    case_bool_decide as Hord; [|done]. destruct Hord as [Hnd Hset].
    destruct (try_recv (broadcast (shared c))) as [v q| |] eqn:Hrecv; [|done|done].
    pose proof Hwf as (_ & _ & Hb & _).
    split_and!; simpl.
    + apply wf_set_broadcast; [done|].
      rewrite (try_recv_closed _ _ _ Hrecv). done.
    + done.
    + split; [done|]. intros a Ha. rewrite <- Hset. by apply elem_of_list_to_set.
  - (* DSend *)
    destruct (dispatcher c) as [[message [|a rest]]|] eqn:Hdc; [done| |done].
    destruct Hd as [Hnd Hin]. apply NoDup_cons in Hnd as [Hna Hnd].
    pose proof Hwf as (Hopen & _ & _).
    destruct (Hopen a) as (cl & Hcl & Hclosed); [apply Hin; left|].
    destruct (deliver_one_spec message a (shared c) cl Hwf) as
      (s' & -> & Hwf' & _ & _ & _ & _ & Hother & Hsame); [apply Hin; left|done|].
    split_and!; simpl; [done| |].
    + intros a' p' H. destruct (Hph _ _ H) as [c' Hc'].
      destruct (decide (a' = a)) as [->|Hne].
      * destruct (full (Send cl)); destruct Hsame as [_ ->]; eauto.
      * destruct (Hother a' Hne) as [-> _]. eauto.
    + split; [done|].
      intros a' Ha'. apply Hother; [by intros ->|]. apply Hin. by right.
  - (* DEnd *)
    destruct (dispatcher c) as [[message [|a rest]]|] eqn:Hdc; [|done|done].
    split_and!; simpl; done.
Qed.

Lemma ws_inv_initial : inv initial.
Proof.
  split_and!; simpl; [apply wf_initial| |done].
  intros a p H. by rewrite lookup_empty in H.
Qed.

Lemma ws_reachable_inv c :
  reachable base64_DecodeString json_Unmarshal c → inv c.
Proof.
  intros [sched Hrun]. revert Hrun.
  generalize ws_inv_initial. generalize initial.
  induction sched as [|act sched IH]; intros c0 Hinv; simpl.
  - by intros [= <-].
  - pose proof (ws_step_inv act c0 Hinv) as Hs.
    destruct (step _ _ act c0) as [c1| |]; [|done|done].
    by apply IH.
Qed.

End interleaving.

End ChatWSFacts.

(* ===================================================================== *)
(** ** Package [chat]: facts *)
(* ===================================================================== *)

Module ChatFacts.

Import Chat.

Lemma same_shape_refl h : same_shape h h.
Proof. by intros a. Qed.

Lemma same_shape_trans h1 h2 h3 :
  same_shape h1 h2 → same_shape h2 h3 → same_shape h1 h3.
Proof. intros H12 H23 a. by rewrite H23, H12. Qed.

Lemma with_Channel_id c : with_Channel (Channel c) c = c.
Proof. by destruct c. Qed.

Lemma send_or_skip_spec ev a h c :
  h !! a = Some c → closed (Channel c) = false →
  ∃ h', send_or_skip ev a h = Some (h', negb (full (Channel c))) ∧
        h' !! a = Some (offered ev c) ∧
        (∀ a', a' ≠ a → h' !! a' = h !! a') ∧
        same_shape h h'.
Proof.
  intros Ha Hcl. unfold send_or_skip, offered. rewrite Ha. simpl.
  rewrite try_send_open by done. destruct (full (Channel c)) eqn:Hfull.
  - exists h. rewrite after_send_full, with_Channel_id by done.
    split_and!; [done|done|done|apply same_shape_refl].
  - eexists. split; [done|]. rewrite after_send_room by done.
    split_and!.
    + by rewrite lookup_insert_eq.
    + intros a' Hne. by rewrite lookup_insert_ne.
    + intros a'. destruct (decide (a' = a)) as [->|Hne].
      * rewrite lookup_insert_eq, Ha. simpl. by rewrite Hcl.
      * by rewrite lookup_insert_ne.
Qed.

Lemma same_shape_open h h' a :
  same_shape h h' →
  (∃ c, h !! a = Some c ∧ closed (Channel c) = false) →
  ∃ c', h' !! a = Some c' ∧ closed (Channel c') = false.
Proof.
  intros Hs (c & Hc & Hcl). specialize (Hs a). rewrite Hc in Hs. simpl in Hs.
  destruct (h' !! a) as [c'|]; [|done]. exists c'. split; [done|].
  simpl in Hs. congruence.
Qed.

(** The loop of [broadcastMessage]: every client of [order] that has not
    blocked the sender is offered the event; a client that has is left
    alone, and so is every client outside [order]. *)
Lemma message_loop_spec ev sender s : ∀ order h sent blocked,
  NoDup order.*2 →
  (∀ uid a, (uid, a) ∈ order → ∃ c, h !! a = Some c ∧ closed (Channel c) = false) →
  ∃ h' sent' blocked',
    message_loop ev sender order s h sent blocked = Some (h', sent', blocked') ∧
    same_shape h h' ∧
    (∀ uid a, (uid, a) ∈ order →
       ∃ c, h !! a = Some c ∧
            h' !! a = Some (if decide (block_count uid sender s = 0)
                            then offered ev c else c)) ∧
    (∀ a, a ∉ order.*2 → h' !! a = h !! a).
Proof.
  induction order as [|[uid a] order IH]; intros h sent blocked Hnd Hopen.
  - exists h, sent, blocked. simpl. split_and!; [done|apply same_shape_refl| |done].
    intros uid a Hin. by apply elem_of_nil in Hin.
  - rewrite fmap_cons in Hnd. apply NoDup_cons in Hnd as [Hna Hnd]. simpl in Hna.
    destruct (Hopen uid a) as (c & Hc & Hcl); [left|].
    simpl. case_decide as Hblock.
    + destruct (send_or_skip_spec ev a h c Hc Hcl) as (h1 & -> & Ha1 & Hother1 & Hshape1).
      assert (∀ uid' a', (uid', a') ∈ order → a' ≠ a) as Hne.
      { intros uid' a' Hin ->. apply Hna.
        apply list_elem_of_fmap. by exists (uid', a). }
      assert (∃ h' sent' blocked',
        message_loop ev sender order s h1
          (if negb (full (Channel c)) then S sent else sent) blocked
          = Some (h', sent', blocked') ∧
        same_shape h1 h' ∧
        (∀ uid a, (uid, a) ∈ order →
           ∃ c, h1 !! a = Some c ∧
                h' !! a = Some (if decide (block_count uid sender s = 0)
                                then offered ev c else c)) ∧
        (∀ a, a ∉ order.*2 → h' !! a = h1 !! a))
        as (h' & sent' & blocked' & Hl & Hshape & Hin & Hout).
      { apply IH; [done|]. intros uid' a' Hin'.
        apply (same_shape_open h h1 a' Hshape1). apply (Hopen uid' a'). by right. }
      exists h', sent', blocked'. split.
      { destruct (negb (full (Channel c))); exact Hl. }
      split_and!.
      * by eapply same_shape_trans.
      * intros uid' a' [[= -> ->]|Hin']%elem_of_cons.
        -- exists c. split; [done|]. rewrite (Hout a Hna), Ha1.
           by rewrite decide_True.
        -- destruct (Hin uid' a' Hin') as (c' & Hc' & Hc'').
           rewrite Hother1 in Hc' by (by eapply Hne). eauto.
      * intros a' Ha'. try rewrite fmap_cons in Ha'.
        apply not_elem_of_cons in Ha' as [Hne' Hnin]. simpl in Hne'.
        rewrite (Hout a' Hnin). by apply Hother1.
    + destruct (IH h sent (S blocked) Hnd) as (h' & sent' & blocked' & Hl & Hshape & Hin & Hout).
      { intros uid' a' Hin'. apply (Hopen uid' a'). by right. }
      exists h', sent', blocked'. split_and!; [done|done| |].
      * intros uid' a' [[= -> ->]|Hin']%elem_of_cons.
        -- exists c. split; [done|]. rewrite (Hout a Hna), Hc.
           by rewrite decide_False.
        -- by apply Hin.
      * intros a' Ha'. try rewrite fmap_cons in Ha'.
        apply not_elem_of_cons in Ha' as [Hne' Hnin]. by apply Hout.
Qed.

(** The loop of [broadcastOnlineStatus]: every client of [order] is offered
    the event. *)
Lemma status_loop_spec ev : ∀ order h,
  NoDup order.*2 →
  (∀ (uid : string) a, (uid, a) ∈ order → ∃ c, h !! a = Some c ∧ closed (Channel c) = false) →
  ∃ h',
    status_loop ev order h = Some h' ∧
    same_shape h h' ∧
    (∀ uid a, (uid, a) ∈ order → ∃ c, h !! a = Some c ∧ h' !! a = Some (offered ev c)) ∧
    (∀ a, a ∉ order.*2 → h' !! a = h !! a).
Proof.
  induction order as [|[uid a] order IH]; intros h Hnd Hopen.
  - exists h. simpl. split_and!; [done|apply same_shape_refl| |done].
    intros uid a Hin. by apply elem_of_nil in Hin.
  - rewrite fmap_cons in Hnd. apply NoDup_cons in Hnd as [Hna Hnd]. simpl in Hna.
    destruct (Hopen uid a) as (c & Hc & Hcl); [left|].
    simpl.
    destruct (send_or_skip_spec ev a h c Hc Hcl) as (h1 & -> & Ha1 & Hother1 & Hshape1).
    assert (∀ (uid' : string) a', (uid', a') ∈ order → a' ≠ a) as Hne.
    { intros uid' a' Hin ->. apply Hna.
      apply list_elem_of_fmap. by exists (uid', a). }
    destruct (IH h1 Hnd) as (h' & Hl & Hshape & Hin & Hout).
    { intros uid' a' Hin'.
      apply (same_shape_open h h1 a' Hshape1). apply (Hopen uid' a'). by right. }
    exists h'. split_and!; [done|by eapply same_shape_trans| |].
    + intros uid' a' [[= -> ->]|Hin']%elem_of_cons.
      * exists c. split; [done|]. by rewrite (Hout a Hna), Ha1.
      * destruct (Hin uid' a' Hin') as (c' & Hc' & Hc'').
        rewrite Hother1 in Hc' by (by eapply Hne). eauto.
    + intros a' Ha'. try rewrite fmap_cons in Ha'.
      apply not_elem_of_cons in Ha' as [Hne' Hnin]. simpl in Hne'.
      rewrite (Hout a' Hnin). by apply Hother1.
Qed.

(** Well-formedness only looks at the shape of the heap. *)
Lemma wf_set_heap s h : wf s → same_shape (heap s) h → wf (set_heap h s).
Proof.
  intros (Hopen & Hreg & Hnd & Hlt) Hshape. split_and!; simpl; [| |done|].
  - intros a c' Hc'. specialize (Hshape a). rewrite Hc' in Hshape. simpl in Hshape.
    destruct (heap s !! a) as [c|] eqn:Hc; [|done]. simpl in Hshape.
    specialize (Hopen a c Hc). simpl in Hopen. congruence.
  - intros uid a Ha. specialize (Hreg uid a Ha). simpl in Hreg.
    specialize (Hshape a). destruct Hreg as [c Hc]. rewrite Hc in Hshape.
    destruct (h !! a); [eauto|done].
  - intros a c' Hc'. specialize (Hshape a). rewrite Hc' in Hshape.
    destruct (heap s !! a) as [c|] eqn:Hc; [|done]. by apply (Hlt a c).
Qed.

Lemma wf_registered_open s uid a :
  wf s → clients s !! uid = Some a →
  ∃ c, heap s !! a = Some c ∧ closed (Channel c) = false.
Proof.
  intros (Hopen & Hreg & _ & _) Ha. destruct (Hreg uid a Ha) as [c Hc].
  exists c. split; [done|]. by apply (Hopen a c).
Qed.

(** [broadcastMessage] in a well-formed state, for every order of the range. *)
Lemma broadcastMessage_in_spec order message sender s :
  wf s → order ≡ₚ map_to_list (clients s) →
  ∃ s' sent blocked,
    broadcastMessage_in order message sender s = Some (s', sent, blocked) ∧
    wf s' ∧ s' = set_heap (heap s') s ∧
    (∀ uid a, clients s !! uid = Some a →
       ∃ c, heap s !! a = Some c ∧
            heap s' !! a = Some (if decide (block_count uid sender s = 0)
                                 then offered (EvMessage message) c else c)).
Proof.
  intros Hwf Hperm. unfold broadcastMessage_in. case_decide as Hsize.
  - exists s, 0, 0. split_and!; [done|done|by destruct s|].
    intros uid a Ha. apply map_size_empty_inv in Hsize.
    rewrite Hsize, lookup_empty in Ha. done.
  - destruct (message_loop_spec (EvMessage message) sender s order (heap s) 0 0)
      as (h' & sent & blocked & -> & Hshape & Hin & Hout).
    + rewrite Hperm. by destruct Hwf as (_ & _ & ? & _).
    + intros uid a Ha. apply (wf_registered_open s uid a Hwf).
      apply elem_of_map_to_list. by rewrite <- Hperm.
    + exists (set_heap h' s), sent, blocked. split_and!; [done| |done|].
      * by apply wf_set_heap.
      * intros uid a Ha. apply Hin. rewrite Hperm. by apply elem_of_map_to_list.
Qed.

(** [broadcastOnlineStatus] in a well-formed state. *)
Lemma broadcastOnlineStatus_spec s :
  wf s →
  ∃ s', broadcastOnlineStatus s = Some s' ∧ wf s' ∧ s' = set_heap (heap s') s ∧
    (∀ uid a, clients s !! uid = Some a →
       ∃ c, heap s !! a = Some c ∧
            heap s' !! a =
              Some (offered (EvOnline (mkOnlineStatus (length (online_rows s)) (online_rows s))) c)).
Proof.
  intros Hwf. unfold broadcastOnlineStatus.
  destruct (status_loop_spec
              (EvOnline (mkOnlineStatus (length (online_rows s)) (online_rows s)))
              (map_to_list (clients s)) (heap s))
    as (h' & -> & Hshape & Hin & Hout).
  - by destruct Hwf as (_ & _ & ? & _).
  - intros uid a Ha. apply (wf_registered_open s uid a Hwf).
    by apply elem_of_map_to_list.
  - simpl. exists (set_heap h' s). split_and!; [done| |done|].
    + by apply wf_set_heap.
    + intros uid a Ha. apply (Hin uid). by apply elem_of_map_to_list.
Qed.

(** *** Well-formedness through the stream handler *)

Lemma NoDup_fmap_inj_on {A B} (f : A → B) (l : list A) x y :
  NoDup (f <$> l) → x ∈ l → y ∈ l → f x = f y → x = y.
Proof.
  induction l as [|z l IH]; intros Hnd Hx Hy Hf.
  - by apply elem_of_nil in Hx.
  - rewrite fmap_cons in Hnd. apply NoDup_cons in Hnd as [Hz Hnd].
    apply elem_of_cons in Hx as [->|Hx]; apply elem_of_cons in Hy as [->|Hy].
    + done.
    + exfalso. apply Hz. rewrite Hf. apply list_elem_of_fmap. by exists y.
    + exfalso. apply Hz. rewrite <- Hf. apply list_elem_of_fmap. by exists x.
    + by apply IH.
Qed.

(** Distinct user ids hold distinct clients. *)
Lemma distinct_clients (m : gmap string nat) :
  NoDup (map_to_list m).*2 ↔
  (∀ u1 u2 a, m !! u1 = Some a → m !! u2 = Some a → u1 = u2).
Proof.
  split.
  - intros Hnd u1 u2 a H1 H2.
    apply elem_of_map_to_list in H1, H2.
    by injection (NoDup_fmap_inj_on snd _ _ _ Hnd H1 H2 eq_refl).
  - intros Hinj. apply NoDup_fmap_2_strong; [|apply NoDup_map_to_list].
    intros [u1 a1] [u2 a2] H1%elem_of_map_to_list H2%elem_of_map_to_list Heq.
    simpl in Heq. subst a2. by rewrite (Hinj u1 u2 a1 H1 H2).
Qed.

Lemma chat_wf_set_users u s : wf s → wf (set_users u s).
Proof. by intros (? & ? & ? & ?). Qed.

Lemma chat_wf_initial clientID : wf (initial_state clientID).
Proof.
  split_and!; simpl.
  - intros a c Hc. by rewrite lookup_empty in Hc.
  - intros u a Ha. by rewrite lookup_empty in Ha.
  - rewrite map_to_list_empty. constructor.
  - intros a c Hc. by rewrite lookup_empty in Hc.
Qed.

(** Registering a new client under a user id, in place of the client that
    the id held, if any. *)
Lemma chat_wf_register userID client s :
  wf s → closed (Channel client) = false →
  wf (set_registry (<[userID := next_client s]> (clients s))
                   (<[next_client s := client]> (heap s))
                   (S (next_client s)) s).
Proof.
  intros (Hopen & Hreg & Hnd & Hlt) Hcl. split_and!; simpl.
  - intros a c. destruct (decide (a = next_client s)) as [->|Hne].
    + rewrite lookup_insert_eq. by intros [= <-].
    + rewrite lookup_insert_ne by done. apply Hopen.
  - intros u a. destruct (decide (u = userID)) as [->|Hne].
    + rewrite lookup_insert_eq. intros [= <-]. rewrite lookup_insert_eq. eauto.
    + rewrite lookup_insert_ne by done. intros Ha.
      destruct (Hreg u a Ha) as [c Hc]. simpl in Hc.
      assert (a < next_client s) by (by apply (Hlt a c)).
      rewrite lookup_insert_ne by lia. eauto.
  - apply distinct_clients. intros u1 u2 a H1 H2.
    assert (∀ u, clients s !! u = Some (next_client s) → False) as Hfresh.
    { intros u Hu. destruct (Hreg u _ Hu) as [c Hc].
      pose proof (Hlt _ c Hc) as Hlt'. simpl in Hlt'. lia. }
    destruct (decide (u1 = userID)) as [->|Hne1];
      destruct (decide (u2 = userID)) as [->|Hne2]; [done| | |].
    + rewrite lookup_insert_eq in H1. injection H1 as <-.
      rewrite lookup_insert_ne in H2 by done. by destruct (Hfresh u2).
    + rewrite lookup_insert_eq in H2. injection H2 as <-.
      rewrite lookup_insert_ne in H1 by done. by destruct (Hfresh u1).
    + rewrite lookup_insert_ne in H1, H2 by done.
      by apply (proj1 (distinct_clients (clients s)) Hnd u1 u2 a).
  - intros a c. destruct (decide (a = next_client s)) as [->|Hne].
    + intros _. lia.
    + rewrite lookup_insert_ne by done. intros Hc.
      pose proof (Hlt a c Hc) as Hlt'. simpl in Hlt'. lia.
Qed.

(** [sseStreamHandler] registers every request with a user id: no token is
    asked for. The client is the entry of the user id afterwards. *)
Lemma sseStreamHandler_open_spec userID username photoURL s :
  wf s → userID ≠ "" →
  ∃ s' ev,
    sseStreamHandler_open userID username photoURL s
      = Some (s', Some (next_client s, ev)) ∧
    wf s' ∧
    clients s' = <[userID := next_client s]> (clients s) ∧
    chat_users s' =
      alter (λ r, mkUserRow (email r) (Chat.username r) (photo_url r) true)
            userID (chat_users s) ∧
    chat_messages s' = chat_messages s ∧
    chat_blocks s' = chat_blocks s ∧
    chat_banned_users s' = chat_banned_users s.
Proof.
  intros Hwf Hne. unfold sseStreamHandler_open. rewrite decide_False by done.
  match goal with |- context [broadcastOnlineStatus ?s2] =>
    destruct (broadcastOnlineStatus_spec s2) as (s3 & Hs3 & Hwf3 & Heq & _)
  end.
  { apply chat_wf_set_users. by apply chat_wf_register. }
  rewrite Hs3. simpl. eexists _, _. split; [done|].
  split; [done|]. rewrite Heq. done.
Qed.

(** *** Blocks, bans and the message history *)

Lemma block_count_zero blocker blocked s :
  block_count blocker blocked s = 0 ↔ (blocker, blocked) ∉ chat_blocks s.
Proof.
  unfold block_count. induction (chat_blocks s) as [|p l IH].
  - split; [intros _ H; by apply elem_of_nil in H|done].
  - rewrite filter_cons. case_decide as Hp.
    + subst p. simpl. split; [done|]. intros H. exfalso. apply H. by left.
    + rewrite IH. rewrite not_elem_of_cons. split; [done|]. by intros [_ ?].
Qed.

Lemma wf_set_messages m n s : wf s → wf (set_messages m n s).
Proof. by intros (? & ? & ? & ?). Qed.




Global Instance not_older_trans : Transitive not_older.
Proof. intros a b c. unfold not_older. lia. Qed.

Global Instance not_older_total : Total not_older.
Proof. intros a b. unfold not_older. lia. Qed.

Lemma StronglySorted_reverse {A} (R : relation A) (l : list A) :
  StronglySorted R l → StronglySorted (flip R) (reverse l).
Proof.
  induction 1 as [|x l Hl IH Hx]; [constructor|].
  rewrite reverse_cons. apply StronglySorted_app_2; [|done|by repeat constructor].
  intros y z Hy Hz. apply list_elem_of_singleton in Hz as ->.
  rewrite elem_of_reverse in Hy. rewrite Forall_forall in Hx. by apply Hx.
Qed.

(** The stand-in ordering is one that SQL allows. *)
Lemma merge_sort_orders : orders_by_created_at_desc Samples.order_by_created_at_desc.
Proof.
  intros rows. unfold Samples.order_by_created_at_desc. split.
  - apply merge_sort_Permutation.
  - apply StronglySorted_merge_sort; apply _.
Qed.

(** The first rows of an ordered table are its most recent ones: they are in
    order, they are rows of the table, each as often as the table has it at
    most, and a row left out is not newer than a row taken. *)
Lemma limit_takes_the_newest order_by n (rows : list Message.t) :
  orders_by_created_at_desc order_by →
  let taken := sql_limit n (order_by rows) in
  length taken = (if decide (n < 0)%Z then length rows
                  else Nat.min (Z.to_nat n) (length rows)) ∧
  StronglySorted not_older taken ∧
  taken ⊆+ rows ∧
  (∀ m m', m ∈ taken → m' ∈ rows → m' ∉ taken → not_older m m').
Proof.
  intros Hord taken. destruct (Hord rows) as [Hperm Hss].
  assert (length (order_by rows) = length rows) as Hlen by by rewrite Hperm.
  unfold taken, sql_limit. case_decide as Hn.
  - split_and!; [done|done|by rewrite Hperm|].
    intros m m' _ Hm' Hnot. by rewrite Hperm in Hnot.
  - rewrite <- (take_drop (Z.to_nat n) (order_by rows)) in Hss.
    split_and!.
    + rewrite length_take. lia.
    + by apply StronglySorted_app_1_l in Hss.
    + etrans; [apply sublist_submseteq, sublist_take|]. by rewrite Hperm.
    + intros m m' Hm Hm' Hnot.
      assert (m' ∈ order_by rows) as Hin by (by rewrite Hperm).
      rewrite <- (take_drop (Z.to_nat n) (order_by rows)) in Hin.
      apply elem_of_app in Hin as [Hin|Hin]; [done|].
      apply (StronglySorted_app_1_elem_of _ _ _ m m' Hss Hm Hin).
Qed.

Lemma filter_all {A} (P : A → Prop) `{∀ x, Decision (P x)} (l : list A) :
  (∀ x, x ∈ l → P x) → filter P l = l.
Proof.
  induction l as [|x l IH]; intros Hall; [done|].
  rewrite filter_cons_True by (apply Hall; by left).
  rewrite IH; [done|]. intros y Hy. apply Hall. by right.
Qed.

(** The online rows name every user id at most once. *)
Lemma online_rows_NoDup s : NoDup (ou_user_id <$> online_rows s).
Proof.
  unfold online_rows. rewrite merge_sort_Permutation.
  pose proof (NoDup_fst_map_to_list (chat_users s)) as Hnd.
  induction (map_to_list (chat_users s)) as [|[id r] l IH]; simpl; [constructor|].
  rewrite fmap_cons in Hnd. apply NoDup_cons in Hnd as [Hid Hnd]. simpl in Hid.
  destruct (is_online r); simpl; [|by apply IH].
  apply NoDup_cons. split; [|by apply IH].
  intros Hin. apply Hid. apply list_elem_of_fmap in Hin as (u & Hu & Hin).
  apply list_elem_of_omap in Hin as ([id' r'] & Hin' & Hf).
  destruct (is_online r'); [|done]. injection Hf as <-. simpl in Hu. subst id'.
  apply list_elem_of_fmap. by exists (id, r').
Qed.

End ChatFacts.

(* ===================================================================== *)
(** ** The claims of the specification *)
(* ===================================================================== *)

(** *** C1: what happens to a subscriber whose queue is full *)

(** C1, as stated, fails: a stream subscriber that reads nothing has a full
    queue after fifty updates; the broadcast of the next update skips it
    (nothing sent, one skipped) and leaves it registered, its channel open
    and unchanged. *)
Lemma live_full_subscriber_stays_registered :
  ∃ s q s' r s'',
    broadcasts 50 one_subscriber = Some s ∧
    elements (Live.clients s) = [0] ∧
    Live.chans s !! 0 = Some q ∧ full q = true ∧ closed q = false ∧
    Live.UpdateLotteryData Samples.json_Marshal (Some sample_input) s = Some (s', r) ∧
    elements (Live.clients s') = [0] ∧
    Live.chans s' !! 0 = Some q ∧
    Live.broadcastUpdate Samples.json_Marshal s = Some (s'', 0, 1).
Proof.
  eexists _, _, _, _, _. split; [vm_compute; reflexivity|].
  split; [vm_compute; reflexivity|].
  split; [vm_compute; reflexivity|].
  split; [vm_compute; reflexivity|].
  split; [vm_compute; reflexivity|].
  split; [vm_compute; reflexivity|].
  split; [vm_compute; reflexivity|].
  split; vm_compute; reflexivity.
Qed.

(** C1, amended: each of the three dispatchers returns without blocking.
    [chatws.handleBroadcast] and [live.broadcastUpdate] make one
    non-blocking enqueue per subscriber registered at broadcast time;
    [chat.broadcastMessage] makes one per registered subscriber that has not
    blocked the sender, and leaves the channel of a subscriber that has
    blocked the sender as it is. In [chatws.handleBroadcast] a subscriber
    whose queue is full is dropped (channel closed, entry deleted), so none
    whose enqueue failed stays registered. In [live.broadcastUpdate] and in
    [chat.broadcastMessage] a subscriber whose queue is full is skipped: it
    stays registered, its channel open and unchanged. In all three, a
    subscriber that is offered the message and has room gets it appended,
    whatever happens to the others; in [live] the message is the encoded
    snapshot, and when the encoding fails no channel changes. *)
Theorem full_queue_dropped_or_skipped :
  (∀ order s message q,
     ChatWS.wf s → NoDup order → list_to_set order = ChatWS.clients s →
     try_recv (ChatWS.broadcast s) = Received message q →
     ∃ s', ChatWS.handleBroadcast_in order s = Done s' ∧
       ∀ a c, a ∈ ChatWS.clients s → ChatWS.heap s !! a = Some c →
         ∃ c', ChatWS.heap s' !! a = Some c' ∧
           if full (ChatWS.Send c)
           then (a ∉ ChatWS.clients s') ∧ closed (ChatWS.Send c') = true
           else a ∈ ChatWS.clients s' ∧
                ChatWS.Send c' = mkChan (buf (ChatWS.Send c) ++ [message])
                                        (cap (ChatWS.Send c)) false) ∧
  (∀ json_Marshal order s,
     Live.wf s → NoDup order → list_to_set order = Live.clients s →
     ∃ s' sent skipped,
       Live.broadcastUpdate_in json_Marshal order s = Some (s', sent, skipped) ∧
       Live.clients s' = Live.clients s ∧
       (∀ message, Live.Encode json_Marshal "" (Live.currentData s') = Some message →
          ∀ ch c, ch ∈ Live.clients s → Live.chans s !! ch = Some c →
            closed c = false ∧
            Live.chans s' !! ch =
              Some (if full c then c else mkChan (buf c ++ [message]) (cap c) false)) ∧
       (Live.Encode json_Marshal "" (Live.currentData s') = None →
        Live.chans s' = Live.chans s)) ∧
  (∀ order message sender s,
     Chat.wf s → order ≡ₚ map_to_list (Chat.clients s) →
     ∃ s' sent blocked,
       Chat.broadcastMessage_in order message sender s = Some (s', sent, blocked) ∧
       Chat.clients s' = Chat.clients s ∧
       ∀ uid a c, Chat.clients s !! uid = Some a → Chat.heap s !! a = Some c →
         closed (Chat.Channel c) = false ∧
         ∃ c', Chat.heap s' !! a = Some c' ∧
           Chat.Channel c' =
             if decide (Chat.block_count uid sender s = 0)
             then if full (Chat.Channel c) then Chat.Channel c
                  else mkChan (buf (Chat.Channel c) ++ [Chat.EvMessage message])
                              (cap (Chat.Channel c)) false
             else Chat.Channel c).
Proof.
  split_and!.
  - intros order s message q Hwf Hnd Hset Hrecv.
    unfold ChatWS.handleBroadcast_in. rewrite Hrecv.
    destruct (ChatWSFacts.deliver_spec message order (ChatWS.set_broadcast q s))
      as (s' & Hd & _ & _ & _ & _ & _ & _ & Hin).
    + apply ChatWSFacts.wf_set_broadcast; [done|].
      rewrite (try_recv_closed _ _ _ Hrecv). by destruct Hwf as (_ & _ & ? & _).
    + done.
    + intros a Ha. simpl. rewrite <- Hset. by apply elem_of_list_to_set.
    + exists s'. rewrite Hd. split; [done|].
      intros a c Ha Hc.
      destruct (Hin a) as (c0 & Hc0 & Hcase).
      { rewrite <- Hset in Ha. by apply elem_of_list_to_set in Ha. }
      simpl in Hc0. rewrite Hc in Hc0. injection Hc0 as <-.
      destruct (full (ChatWS.Send c)); destruct Hcase as [Hreg Hheap];
        eexists; (split; [exact Hheap|]); done.
  - intros json_Marshal order s Hwf Hnd Hset.
    destruct (LiveFacts.broadcastUpdate_in_spec json_Marshal order s Hwf Hnd Hset)
      as (s' & sent & skipped & Hb & _ & Hcl & _ & _ & _ & Hcase).
    exists s', sent, skipped. split_and!; [done|done| |].
    + intros message Hmsg ch c Hch Hc. rewrite Hmsg in Hcase.
      destruct Hcase as (_ & _ & Hin & _ & _).
      destruct (proj1 Hwf ch Hch) as (c0 & Hc0 & Hopen). rewrite Hc in Hc0.
      injection Hc0 as <-. split; [done|].
      rewrite (Hin ch Hch), Hc. simpl. f_equal.
      destruct (full c) eqn:Hfull.
      * by apply after_send_full.
      * by apply after_send_room.
    + intros Hnone. rewrite Hnone in Hcase. by destruct Hcase.
  - intros order message sender s Hwf Hperm.
    destruct (ChatFacts.broadcastMessage_in_spec order message sender s Hwf Hperm)
      as (s' & sent & blocked & Hb & _ & Hs' & Hin).
    exists s', sent, blocked. split_and!; [done|by rewrite Hs'|].
    intros uid a c Ha Hc.
    destruct (Hin uid a Ha) as (c0 & Hc0 & Hc').
    rewrite Hc in Hc0. injection Hc0 as <-.
    destruct (ChatFacts.wf_registered_open s uid a Hwf Ha) as (c0 & Hc0 & Hopen).
    rewrite Hc in Hc0. injection Hc0 as <-.
    split; [done|]. eexists. split; [exact Hc'|].
    case_decide as Hblock; [|done].
    unfold Chat.offered. simpl.
    destruct (full (Chat.Channel c)) eqn:Hfull.
    + by apply after_send_full.
    + by apply after_send_room.
Qed.

Lemma ws_joined_reachable :
  ChatWS.reachable Samples.base64_DecodeString Samples.json_Unmarshal ws_joined.
Proof. exists sched_join. vm_compute. reflexivity. Qed.

Lemma ws_stalled_reachable :
  ChatWS.reachable Samples.base64_DecodeString Samples.json_Unmarshal ws_stalled.
Proof. exists sched_stall. vm_compute. reflexivity. Qed.

Lemma broadcasts_wf n s s' :
  Live.wf s → broadcasts n s = Some s' → Live.wf s'.
Proof.
  revert s. induction n as [|n IH]; intros s Hwf Hb.
  - by injection Hb as <-.
  - cbn [broadcasts] in Hb.
    destruct (Live.UpdateLotteryData Samples.json_Marshal (Some sample_input) s)
      as [[s1 r]|] eqn:Hu; [|done].
    apply (IH s1); [|done]. by eapply LiveFacts.update_keeps_wf.
Qed.

Lemma fifty_unread_wf : Live.wf fifty_unread.
Proof.
  unfold fifty_unread.
  destruct (broadcasts 50 one_subscriber) as [s|] eqn:Hs; simpl.
  - eapply broadcasts_wf; [|exact Hs]. apply LiveFacts.wf_open, LiveFacts.wf_Init.
  - apply LiveFacts.wf_open, LiveFacts.wf_Init.
Qed.

Lemma full_queue_dropped_or_skipped_witness :
  (∃ s' c',
     ChatWS.handleBroadcast_in [0] (ChatWS.shared ws_stalled) = Done s' ∧
     0 ∈ ChatWS.clients (ChatWS.shared ws_stalled) ∧
     full (ChatWS.Send (ws_client_at 0 (ChatWS.shared ws_stalled))) = true ∧
     (0 ∉ ChatWS.clients s') ∧
     ChatWS.heap s' !! 0 = Some c' ∧ closed (ChatWS.Send c') = true) ∧
  (∃ s', ChatWS.handleBroadcast_in [0] (ChatWS.shared ws_joined) = Done s' ∧
         0 ∈ ChatWS.clients s') ∧
  (∃ s' sent skipped,
     Live.broadcastUpdate_in Samples.json_Marshal [0] fifty_unread
       = Some (s', sent, skipped) ∧
     full (chan_at 0 fifty_unread) = true ∧
     Live.clients s' = Live.clients fifty_unread ∧
     0 ∈ Live.clients s' ∧
     Live.chans s' !! 0 = Some (chan_at 0 fifty_unread)) ∧
  (∃ s' sent blocked alice carol,
     Chat.broadcastMessage_in (map_to_list (Chat.clients history_state))
       (Message.mk 10 "bob@x" "Bob" "" "hi" 100) "bob@x" history_state
       = Some (s', sent, blocked) ∧
     Chat.block_count "alice@x" "bob@x" history_state = 1 ∧
     Chat.heap s' !! 0 = Some alice ∧
     Chat.Channel alice = Chat.Channel (client_at 0 history_state) ∧
     Chat.block_count "carol@x" "bob@x" history_state = 0 ∧
     full (Chat.Channel (client_at 2 history_state)) = true ∧
     Chat.heap s' !! 2 = Some carol ∧
     Chat.Channel carol = Chat.Channel (client_at 2 history_state)).
Proof.
  destruct full_queue_dropped_or_skipped as (Hws & Hlive & Hchat).
  split_and!.
  - destruct (Hws [0] (ChatWS.shared ws_stalled)
                (ChatWS.EvUserJoined "u1" "Mallory" 1) (make 256))
      as (s' & Hs' & Hall).
    + exact (proj1 (ChatWSFacts.ws_reachable_inv _ _ _ ws_stalled_reachable)).
    + apply NoDup_singleton.
    + vm_compute. reflexivity.
    + vm_compute. reflexivity.
    + assert (0 ∈ ChatWS.clients (ChatWS.shared ws_stalled)) as Hin
        by (apply (bool_decide_unpack _); vm_compute; exact I).
      assert (full (ChatWS.Send (ws_client_at 0 (ChatWS.shared ws_stalled))) = true)
        as Hfull by (vm_compute; reflexivity).
      destruct (Hall 0 (ws_client_at 0 (ChatWS.shared ws_stalled)) Hin)
        as (c' & Hc' & Hcase); [vm_compute; reflexivity|].
      rewrite Hfull in Hcase. destruct Hcase as [Hout Hclosed].
      exists s', c'. split_and!; done.
  - destruct (Hws [0] (ChatWS.shared ws_joined)
                (ChatWS.EvUserJoined "u1" "Mallory" 1) (make 256))
      as (s' & Hs' & Hall).
    + exact (proj1 (ChatWSFacts.ws_reachable_inv _ _ _ ws_joined_reachable)).
    + apply NoDup_singleton.
    + vm_compute. reflexivity.
    + vm_compute. reflexivity.
    + exists s'. split; [exact Hs'|].
      destruct (Hall 0 (ChatWS.mkWSClient "u1" "Mallory" ""
                          (mkChan [ChatWS.EvOnline [] 1] 256 false)))
        as (c' & _ & Hin & _).
      * apply (bool_decide_unpack _). vm_compute. exact I.
      * vm_compute. reflexivity.
      * exact Hin.
  - destruct (Hlive Samples.json_Marshal [0] fifty_unread)
      as (s' & sent & skipped & Hb & Hcl & Hsome & _).
    + apply fifty_unread_wf.
    + apply NoDup_singleton.
    + vm_compute. reflexivity.
    + assert (0 ∈ Live.clients fifty_unread) as Hin
        by (apply (bool_decide_unpack _); vm_compute; exact I).
      assert (full (chan_at 0 fifty_unread) = true) as Hfull
        by (vm_compute; reflexivity).
      destruct (Hsome _ eq_refl 0 (chan_at 0 fifty_unread) Hin) as [_ Hch];
        [vm_compute; reflexivity|].
      rewrite Hfull in Hch.
      exists s', sent, skipped. split_and!; [done|done|done|by rewrite Hcl|done].
  - destruct (Hchat (map_to_list (Chat.clients history_state))
                (Message.mk 10 "bob@x" "Bob" "" "hi" 100) "bob@x" history_state)
      as (s' & sent & blocked & Hb & _ & Hall).
    + apply (bool_decide_unpack _). vm_compute. exact I.
    + reflexivity.
    + assert (Chat.block_count "alice@x" "bob@x" history_state = 1) as Hblk
        by (vm_compute; reflexivity).
      assert (Chat.block_count "carol@x" "bob@x" history_state = 0) as Hnot
        by (vm_compute; reflexivity).
      assert (full (Chat.Channel (client_at 2 history_state)) = true) as Hfull
        by (vm_compute; reflexivity).
      destruct (Hall "alice@x" 0 (client_at 0 history_state))
        as (_ & alice & Ha & Hca); [vm_compute; reflexivity..|].
      destruct (Hall "carol@x" 2 (client_at 2 history_state))
        as (_ & carol & Hc & Hcc); [vm_compute; reflexivity..|].
      rewrite decide_False in Hca by (rewrite Hblk; discriminate).
      rewrite decide_True in Hcc by done. rewrite Hfull in Hcc.
      exists s', sent, blocked, alice, carol. split_and!; done.
Defined.

(** *** C2: sends and closed channels *)

(** C2, as stated, fails: in package [live] the removal from the registry
    and the close are two steps. After a handler deleted its channel under
    the write lock, the lock is free and the channel is still open: another
    connection registers before the close happens. *)
Lemma live_close_is_a_separate_step :
  ∃ c c1 c2,
    Live.run Samples.json_Marshal [Live.AConnect; Live.ARemove 0] (Live.initial "boot")
      = Live.Ok c ∧
    elements (Live.clients (Live.shared c)) = [] ∧
    elements (Live.closing c) = [0] ∧
    Live.chans (Live.shared c) !! 0 = Some (make 50) ∧
    closed (make (A:=string) 50) = false ∧
    Live.step Samples.json_Marshal Live.AConnect c = Live.Ok c1 ∧
    elements (Live.clients (Live.shared c1)) = [1] ∧
    Live.step Samples.json_Marshal (Live.AClose 0) c1 = Live.Ok c2 ∧
    Live.chans (Live.shared c2) !! 0 = Some (mkChan [] 50 true).
Proof.
  eexists _, _, _. split; [vm_compute; reflexivity|].
  split; [vm_compute; reflexivity|].
  split; [vm_compute; reflexivity|].
  split; [vm_compute; reflexivity|].
  split; [vm_compute; reflexivity|].
  split; [vm_compute; reflexivity|].
  split; [vm_compute; reflexivity|].
  split; vm_compute; reflexivity.
Qed.

(** The send that the amended C2 leaves out: once the dispatcher dropped a
    client whose queue was full, the pong that the client's [readPump]
    sends for the next ping is a send on a closed channel. *)
Lemma ws_pong_after_drop_panics :
  ∃ c cl,
    ws_run sched_drop ChatWS.initial = Done c ∧
    elements (ChatWS.clients (ChatWS.shared c)) = [] ∧
    ChatWS.heap (ChatWS.shared c) !! 0 = Some cl ∧
    closed (ChatWS.Send cl) = true ∧
    ChatWS.phases c !! 0 = Some ChatWS.PRunning ∧
    ws_run (sched_drop ++ [ChatWS.AFrame 0 0 0 ping_frame]) ChatWS.initial = Panics.
Proof.
  eexists _, _. split; [vm_compute; reflexivity|].
  split; [vm_compute; reflexivity|].
  split; [vm_compute; reflexivity|].
  split; [vm_compute; reflexivity|].
  split; vm_compute; reflexivity.
Qed.

(** C2, amended: in every reachable state of the interleavings of handlers
    and dispatcher, a registered channel is open and neither a send of the
    dispatcher nor a close hits a closed channel. In [chatws] the close and
    the deletion are one step under the registry lock, in [disconnect] as in
    the dispatcher: an allocated client is registered exactly when its
    channel is open. In [live] the handler deletes its channel under the
    write lock and closes it after the unlock, and no step of any handler or
    broadcast panics. *)
Theorem dispatcher_never_sends_on_closed :
  (∀ json_Marshal c, Live.reachable json_Marshal c →
     (∀ ch, ch ∈ Live.clients (Live.shared c) →
            ∃ q, Live.chans (Live.shared c) !! ch = Some q ∧ closed q = false) ∧
     (∀ ch, ch ∈ Live.closing c →
            (ch ∉ Live.clients (Live.shared c)) ∧
            ∃ q, Live.chans (Live.shared c) !! ch = Some q ∧ closed q = false) ∧
     (∀ a, Live.step json_Marshal a c ≠ Live.Panic)) ∧
  (∀ base64_DecodeString json_Unmarshal c,
     ChatWS.reachable base64_DecodeString json_Unmarshal c →
     (∀ a cl, ChatWS.heap (ChatWS.shared c) !! a = Some cl →
              (a ∈ ChatWS.clients (ChatWS.shared c) ↔ closed (ChatWS.Send cl) = false)) ∧
     ChatWS.step base64_DecodeString json_Unmarshal ChatWS.DSend c ≠ Panics ∧
     (∀ a, ChatWS.step base64_DecodeString json_Unmarshal (ChatWS.ADisconnect a) c ≠ Panics)).
Proof.
  split.
  - intros json_Marshal c Hreach.
    pose proof (LiveFacts.reachable_inv json_Marshal c Hreach) as Hinv.
    pose proof Hinv as ([Hopen _] & Hclosing & _).
    split_and!; [done|done|].
    intros a Hp. pose proof (LiveFacts.step_inv json_Marshal a c Hinv) as Hs.
    by rewrite Hp in Hs.
  - intros b64 unm c Hreach.
    pose proof (ChatWSFacts.ws_reachable_inv b64 unm c Hreach) as Hinv.
    pose proof Hinv as ((Hopen & _ & _ & Hgone) & _ & _).
    split_and!.
    + intros a cl Hcl. split.
      * intros Hin. destruct (Hopen a Hin) as (c0 & Hc0 & Hc0'). congruence.
      * intros Hc. destruct (decide (a ∈ ChatWS.clients (ChatWS.shared c))); [done|].
        pose proof (Hgone a cl Hcl n). congruence.
    + intros Hp. pose proof (ChatWSFacts.ws_step_inv b64 unm ChatWS.DSend c Hinv) as Hs.
      rewrite Hp in Hs. destruct Hs as (a & cl & _ & _ & _ & [?|(? & ? & ? & ?)]); done.
    + intros a Hp.
      pose proof (ChatWSFacts.ws_step_inv b64 unm (ChatWS.ADisconnect a) c Hinv) as Hs.
      rewrite Hp in Hs. destruct Hs as (a' & cl & _ & _ & _ & [?|(? & ? & ? & ?)]); done.
Qed.

Lemma dispatcher_never_sends_on_closed_witness :
  ChatWS.step Samples.base64_DecodeString Samples.json_Unmarshal ChatWS.DSend ws_joined
    ≠ Panics ∧
  0 ∈ ChatWS.clients (ChatWS.shared ws_joined).
Proof.
  destruct dispatcher_never_sends_on_closed as (_ & Hws).
  destruct (Hws _ _ ws_joined ws_joined_reachable) as (Hiff & Hsend & _).
  split; [exact Hsend|].
  apply (Hiff 0 (ChatWS.mkWSClient "u1" "Mallory" ""
                   (mkChan [ChatWS.EvOnline [] 1] 256 false))).
  - vm_compute. reflexivity.
  - reflexivity.
Defined.

(** *** C3: the counts reported to clients *)

(** C3, as stated, fails: after an update broadcast to nobody, a subscriber
    connects and finds a cached message, so the snapshot is not touched;
    [GetCurrentData] then reports no viewer while the registry holds one
    entry, and the first frame of that subscriber carries the same stale
    count. *)
Lemma current_data_reports_stale_count :
  ∃ s1 r s2 ch frame d,
    Live.UpdateLotteryData Samples.json_Marshal (Some sample_input) (Live.Init "boot")
      = Some (s1, r) ∧
    Live.StreamLotteryData_open Samples.json_Marshal s1 = (s2, ch, frame) ∧
    Live.GetCurrentData s2 = Live.Resp200 d ∧
    Live.ViewCount d = 0 ∧
    size (Live.clients s2) = 1 ∧
    frame = sse_frame (Live.cachedJSONMessage s1) ∧
    Live.Encode Samples.json_Marshal "" (Live.with_ViewCount 0 d)
      = Some (Live.cachedJSONMessage s1).
Proof.
  eexists _, _, _, _, _, _. split; [vm_compute; reflexivity|].
  split; [vm_compute; reflexivity|].
  split; [vm_compute; reflexivity|].
  split; [vm_compute; reflexivity|].
  split; [vm_compute; reflexivity|].
  split; vm_compute; reflexivity.
Qed.

(** C3, amended: a count is the registry size at the moment it is computed
    in the payload of a broadcast ([live]: the view count encoded by
    [broadcastUpdate] is the registry size it read) and in the events of
    [chatws] (user joined, user left, online list). [GetCurrentData] reports
    the view count stored in the snapshot, which a connection that finds a
    cached message and a disconnection leave as it was. The connected event
    of the SSE chat reports the number of user rows flagged online in the
    database. *)
Theorem counts_reported :
  (∀ json_Marshal order s s' sent skipped,
     Live.broadcastUpdate_in json_Marshal order s = Some (s', sent, skipped) →
     Live.ViewCount (Live.currentData s') = size (Live.clients s) ∧
     ∀ message, Live.Encode json_Marshal "" (Live.currentData s') = Some message →
                Live.cachedJSONMessage s' = message) ∧
  (∀ json_Marshal s,
     Live.GetCurrentData s = Live.Resp200 (Live.currentData s) ∧
     (Live.cachedJSONMessage s ≠ "" →
      Live.GetCurrentData (Live.StreamLotteryData_open json_Marshal s).1.1
        = Live.GetCurrentData s) ∧
     (∀ ch s', Live.StreamLotteryData_done ch s = Some s' →
               Live.GetCurrentData s' = Live.GetCurrentData s)) ∧
  (∀ a s s',
     (ChatWS.broadcastUserJoined a s = Done s' →
      ∃ c, ChatWS.heap s !! a = Some c ∧
           buf (ChatWS.broadcast s') =
             (buf (ChatWS.broadcast s)
                ++ [ChatWS.EvUserJoined (ChatWS.UserID c) (ChatWS.Username c)
                      (size (ChatWS.clients s))])%list) ∧
     (ChatWS.broadcastUserLeft a s = Done s' →
      ∃ c, ChatWS.heap s !! a = Some c ∧
           buf (ChatWS.broadcast s') =
             (buf (ChatWS.broadcast s)
                ++ [ChatWS.EvUserLeft (ChatWS.UserID c) (ChatWS.Username c)
                      (size (ChatWS.clients s))])%list) ∧
     (ChatWS.sendOnlineUsersToClient a s = Done s' →
      ∃ c, ChatWS.heap s !! a = Some c ∧
           (s' = s ∨
            ∃ c', ChatWS.heap s' !! a = Some c' ∧
                  buf (ChatWS.Send c') =
                    (buf (ChatWS.Send c)
                       ++ [ChatWS.EvOnline (ChatWS.online_users_except (ChatWS.UserID c) s)
                             (size (ChatWS.clients s))])%list)) ∧
     ChatWS.getOnlineCount s = size (ChatWS.clients s)) ∧
  (∀ userID username photoURL s s' a ev,
     Chat.sseStreamHandler_open userID username photoURL s = Some (s', Some (a, ev)) →
     ev = Chat.EvConnected userID
            (length (filter (λ '(_, r), Chat.is_online r = true)
                            (map_to_list (Chat.chat_users s'))))).
Proof.
  split_and!.
  - intros json_Marshal order s s' sent skipped.
    unfold Live.broadcastUpdate_in, Live.broadcast_prepare, Live.Encoder_Encode,
      Live.json_call, Live.Encode.
    destruct (Live.pool_Get s) as [pool made].
    destruct (json_Marshal _) as [js|] eqn:Hjs; simpl.
    + destruct (Live.fanout _ _ _ _ _) as [[[h n1] n2]|]; [|done].
      intros [= <- _ _]. simpl. split; [done|]. rewrite Hjs. simpl. congruence.
    + intros [= <- _ _]. simpl. split; [done|]. by rewrite Hjs.
  - intros json_Marshal s. split_and!; [done| |].
    + intros Hc. unfold Live.GetCurrentData.
      by destruct (LiveFacts.open_cached json_Marshal s Hc) as (_ & _ & ->).
    + intros ch s'. unfold Live.StreamLotteryData_done, Live.stream_close. simpl.
      destruct (Live.chans s !! ch) as [q|]; [|done]. simpl.
      destruct (close q); [|done]. simpl. by intros [= <-].
  - intros a s s'. split_and!; [| | |done].
    + unfold ChatWS.broadcastUserJoined, ChatWS.broadcast_send.
      destruct (ChatWS.heap s !! a) as [c|]; [|done].
      destruct (try_send _ _) as [q| |] eqn:Hsend; [|done|done].
      intros [= <-]. exists c. split; [done|]. simpl.
      by rewrite (try_send_Enqueued _ _ _ Hsend).
    + unfold ChatWS.broadcastUserLeft, ChatWS.broadcast_send.
      destruct (ChatWS.heap s !! a) as [c|]; [|done].
      destruct (try_send _ _) as [q| |] eqn:Hsend; [|done|done].
      intros [= <-]. exists c. split; [done|]. simpl.
      by rewrite (try_send_Enqueued _ _ _ Hsend).
    + unfold ChatWS.sendOnlineUsersToClient.
      destruct (ChatWS.heap s !! a) as [c|]; [|done].
      destruct (try_send _ _) as [q| |] eqn:Hsend; [| |done].
      * intros [= <-]. exists c. split; [done|]. right. simpl.
        eexists. rewrite lookup_insert_eq. split; [done|]. simpl.
        by rewrite (try_send_Enqueued _ _ _ Hsend).
      * intros [= <-]. exists c. split; [done|]. by left.
  - intros userID username photoURL s s' a ev.
    unfold Chat.sseStreamHandler_open. case_decide; [by intros [= <-]|].
    destruct (Chat.broadcastOnlineStatus _) as [s3|]; [|done]. simpl.
    by intros [= <- _ <-].
Qed.

Lemma counts_reported_witness :
  ∃ s' sent skipped,
    Live.broadcastUpdate_in Samples.json_Marshal [0] one_subscriber
      = Some (s', sent, skipped) ∧
    Live.ViewCount (Live.currentData s') = size (Live.clients one_subscriber).
Proof.
  destruct counts_reported as (Hlive & _).
  destruct (Live.broadcastUpdate_in Samples.json_Marshal [0] one_subscriber)
    as [[[s' sent] skipped]|] eqn:Hb; [|by vm_compute in Hb].
  exists s', sent, skipped. split; [reflexivity|].
  exact (proj1 (Hlive _ _ _ _ _ _ Hb)).
Defined.

(** *** C4: identities and the token validator *)

(** C4, as stated, fails. [HandleWebSocket] accepts a token that nobody
    signed: the connection is registered under the identity its middle part
    claims, and no validator is part of that path. And with no client id
    configured, which is what [main] leaves when GOOGLE_OAUTH_CLIENT_ID is
    not set, [googleAuthHandler] answers success although the validator
    accepts no token, and [sseStreamHandler] then registers the user id. *)
Lemma forged_token_reaches_active :
  ∃ s' c s2 s3 ev,
    ChatWS.HandleWebSocket Samples.base64_DecodeString Samples.json_Unmarshal
      Samples.forged_token true ChatWS.initial_state = Done (s', ChatWS.Accepted 0) ∧
    elements (ChatWS.clients s') = [0] ∧
    ChatWS.heap s' !! 0 = Some c ∧
    ChatWS.UserID c = "u1" ∧ ChatWS.Username c = "Mallory" ∧
    Chat.googleAuthHandler Samples.reject_all (Some dev_request) (Chat.initial_state "")
      = Done (s2, Chat.Auth200 "test@example.com" "Test User"
                    "https://example.com/photo.jpg") ∧
    Chat.sseStreamHandler_open "test@example.com" "Test User" "" s2
      = Some (s3, Some (0, ev)) ∧
    Chat.clients s3 !! "test@example.com" = Some 0.
Proof.
  eexists _, _, _, _, _. split; [vm_compute; reflexivity|].
  split; [vm_compute; reflexivity|].
  split; [vm_compute; reflexivity|].
  split; [vm_compute; reflexivity|].
  split; [vm_compute; reflexivity|].
  split; [vm_compute; reflexivity|].
  split; vm_compute; reflexivity.
Qed.

(** C4, amended: [chatws.HandleWebSocket] registers a connection exactly
    when its token is not empty, the upgrade succeeded, the token has three
    dot-separated parts and its middle part decodes to a JSON object with a
    non-empty string claim [sub]; the client then carries that claim as its
    identity, and the token validator is not consulted. In [chat],
    [googleAuthHandler] consults the validator exactly when a client id is
    configured: a token it rejects gets status 401 and changes nothing;
    with no client id configured the outcome does not depend on the
    validator. [sseStreamHandler] registers every request that names a user
    id. *)
Theorem identities_admitted :
  (∀ base64_DecodeString json_Unmarshal idToken upgraded s,
     let r := ChatWS.HandleWebSocket_register base64_DecodeString json_Unmarshal
                idToken upgraded s in
     let parts := strings_Split "." idToken in
     (∀ a, r.2 = ChatWS.Accepted a →
        idToken ≠ "" ∧ upgraded = true ∧ length parts = 3 ∧
        ∃ payload claims,
          base64_DecodeString (default "" (parts !! 1)) = Some payload ∧
          json_Unmarshal payload = Some claims ∧
          as_string (claims !! "sub") ≠ "" ∧
          a ∈ ChatWS.clients r.1 ∧
          ∃ c, ChatWS.heap r.1 !! a = Some c ∧
               ChatWS.UserID c = as_string (claims !! "sub")) ∧
     (∀ payload claims,
        idToken ≠ "" → upgraded = true → length parts = 3 →
        base64_DecodeString (default "" (parts !! 1)) = Some payload →
        json_Unmarshal payload = Some claims →
        as_string (claims !! "sub") ≠ "" →
        r.2 = ChatWS.Accepted (ChatWS.next_client s))) ∧
  (∀ idtoken_Validate req s,
     Chat.googleClientID s ≠ "" → Chat.IDToken req ≠ "" →
     idtoken_Validate (Chat.IDToken req) (Chat.googleClientID s) = None →
     Chat.googleAuthHandler idtoken_Validate (Some req) s = Done (s, Chat.Auth401)) ∧
  (∀ validate1 validate2 req s,
     Chat.googleClientID s = "" →
     Chat.googleAuthHandler validate1 req s = Chat.googleAuthHandler validate2 req s) ∧
  (∀ userID username photoURL s,
     Chat.wf s → userID ≠ "" →
     ∃ s' ev,
       Chat.sseStreamHandler_open userID username photoURL s
         = Some (s', Some (Chat.next_client s, ev)) ∧
       Chat.clients s' !! userID = Some (Chat.next_client s)).
Proof.
  split_and!.
  - intros b64 unm idToken upgraded s r parts. subst r parts.
    unfold ChatWS.HandleWebSocket_register, ChatWS.authenticateClientWithToken.
    split.
    + intros a. case_decide as Htok; [done|].
      destruct upgraded; [|done]. simpl.
      case_decide as Hlen; [|done].
      destruct (b64 _) as [payload|] eqn:Hb; [|done].
      destruct (unm payload) as [claims|] eqn:Hu; [|done].
      case_decide as Hsub; [done|]. simpl. intros [= <-].
      split_and!; [done|done|done|]. exists payload, claims.
      split_and!; [done|done|done|set_solver|].
      eexists. rewrite lookup_insert_eq. done.
    + intros payload claims Htok -> Hlen Hb Hu Hsub.
      rewrite decide_False by done. simpl.
      rewrite decide_True by done. rewrite Hb, Hu.
      rewrite decide_False by done. done.
  - intros validate req s Hid Htok Hval.
    unfold Chat.googleAuthHandler, Chat.resolve_identity.
    rewrite decide_False by done. rewrite decide_True by done. by rewrite Hval.
  - intros v1 v2 [req|] s Hid; [|done].
    unfold Chat.googleAuthHandler, Chat.resolve_identity.
    case_decide; [done|]. case_decide as Hc; [by destruct Hc|done].
  - intros userID username photoURL s Hwf Hne.
    destruct (ChatFacts.sseStreamHandler_open_spec userID username photoURL s Hwf Hne)
      as (s' & ev & Hopen & _ & Hcl & _).
    exists s', ev. split; [done|]. by rewrite Hcl, lookup_insert_eq.
Qed.

Lemma identities_admitted_witness :
  Chat.googleAuthHandler Samples.reject_all (Some dev_request) (Chat.initial_state "web-client")
    = Done (Chat.initial_state "web-client", Chat.Auth401) ∧
  ∃ s' ev,
    Chat.sseStreamHandler_open "test@example.com" "Test User" "" (Chat.initial_state "web-client")
      = Some (s', Some (0, ev)) ∧
    Chat.clients s' !! "test@example.com" = Some 0.
Proof.
  destruct identities_admitted as (_ & Hreject & _ & Hsse).
  split.
  - apply Hreject.
    + vm_compute. discriminate.
    + vm_compute. discriminate.
    + reflexivity.
  - apply (Hsse "test@example.com" "Test User" "" (Chat.initial_state "web-client")).
    + apply ChatFacts.chat_wf_initial.
    + discriminate.
Defined.

(** *** C5: blocking *)

(** C5, as stated, fails: Alice has blocked Bob and Carol has not, but
    Carol's queue is full; the message Bob sends is accepted and is enqueued
    on neither channel. *)
Lemma message_skips_full_unblocked_subscriber :
  ∃ s alice carol s',
    carol_full = Some s ∧
    Chat.clients s !! "alice@x" = Some 0 ∧ Chat.clients s !! "carol@x" = Some 2 ∧
    Chat.heap s !! 0 = Some alice ∧ Chat.heap s !! 2 = Some carol ∧
    Chat.block_count "alice@x" "bob@x" s = 1 ∧
    Chat.block_count "carol@x" "bob@x" s = 0 ∧
    full (Chat.Channel carol) = true ∧
    Chat.sendMessageHandler 100 100 "bob@x" "hi" s = Some (s', Chat.Send200 10 "hi") ∧
    Chat.heap s' !! 0 = Some alice ∧ Chat.heap s' !! 2 = Some carol.
Proof.
  eexists _, _, _, _. split; [vm_compute; reflexivity|].
  split; [vm_compute; reflexivity|].
  split; [vm_compute; reflexivity|].
  split; [vm_compute; reflexivity|].
  split; [vm_compute; reflexivity|].
  split; [vm_compute; reflexivity|].
  split; [vm_compute; reflexivity|].
  split; [vm_compute; reflexivity|].
  split; [vm_compute; reflexivity|].
  split; vm_compute; reflexivity.
Qed.

(** C5, amended: in the SSE chat, for registered users A and C where A has
    blocked B and C has not, [broadcastMessage] evaluates the block
    predicate per recipient, leaves A's channel as it is, and appends the
    event to C's channel when that channel has room; when C's queue is full
    C is skipped. The dispatcher of [chatws] has no block predicate: it
    offers every message to every registered client. *)
Theorem blocked_recipient_is_skipped :
  (∀ order message B s A C a c ca cc,
     Chat.wf s → order ≡ₚ map_to_list (Chat.clients s) →
     Chat.clients s !! A = Some a → Chat.heap s !! a = Some ca →
     Chat.clients s !! C = Some c → Chat.heap s !! c = Some cc →
     (A, B) ∈ Chat.chat_blocks s → (C, B) ∉ Chat.chat_blocks s →
     ∃ s' sent blocked cc',
       Chat.broadcastMessage_in order message B s = Some (s', sent, blocked) ∧
       Chat.heap s' !! a = Some ca ∧
       Chat.heap s' !! c = Some cc' ∧
       Chat.Channel cc' =
         if full (Chat.Channel cc) then Chat.Channel cc
         else mkChan (buf (Chat.Channel cc) ++ [Chat.EvMessage message])
                     (cap (Chat.Channel cc)) false) ∧
  (∀ message a s c,
     ChatWS.wf s → a ∈ ChatWS.clients s → ChatWS.heap s !! a = Some c →
     full (ChatWS.Send c) = false →
     ∃ s' c', ChatWS.deliver_one message a s = Some s' ∧
              ChatWS.heap s' !! a = Some c' ∧
              ChatWS.Send c' = mkChan (buf (ChatWS.Send c) ++ [message])
                                      (cap (ChatWS.Send c)) false).
Proof.
  split.
  - intros order message B s A C a c ca cc Hwf Hperm HA Hca HC Hcc HAB HCB.
    destruct (ChatFacts.broadcastMessage_in_spec order message B s Hwf Hperm)
      as (s' & sent & blocked & Hb & _ & _ & Hin).
    destruct (Hin A a HA) as (ca0 & Hca0 & Hca').
    destruct (Hin C c HC) as (cc0 & Hcc0 & Hcc').
    rewrite Hca in Hca0. injection Hca0 as <-.
    rewrite Hcc in Hcc0. injection Hcc0 as <-.
    rewrite decide_False in Hca' by (by rewrite ChatFacts.block_count_zero; intros H).
    rewrite decide_True in Hcc' by (by apply ChatFacts.block_count_zero).
    eexists s', sent, blocked, _. split_and!; [done|done|exact Hcc'|].
    unfold Chat.offered. simpl.
    destruct (ChatFacts.wf_registered_open s C c Hwf HC) as (c0 & Hc0 & Hopen).
    rewrite Hcc in Hc0. injection Hc0 as <-.
    destruct (full (Chat.Channel cc)) eqn:Hfull.
    + by apply after_send_full.
    + by apply after_send_room.
  - intros message a s c Hwf Ha Hc Hfull.
    destruct (ChatWSFacts.deliver_one_spec message a s c Hwf Ha Hc)
      as (s' & Hd & _ & _ & _ & _ & _ & _ & Hcase).
    rewrite Hfull in Hcase. destruct Hcase as [_ Hheap].
    eexists s', _. split_and!; [done|exact Hheap|done].
Qed.

Lemma blocked_recipient_is_skipped_witness :
  ∃ s' sent blocked carol',
    Chat.broadcastMessage_in (map_to_list (Chat.clients three_users_state))
      (Message.mk 1 "bob@x" "Bob" "" "hi" 100) "bob@x" three_users_state
      = Some (s', sent, blocked) ∧
    Chat.heap s' !! 0 = Some (client_at 0 three_users_state) ∧
    Chat.heap s' !! 2 = Some carol' ∧
    Chat.Channel carol' =
      if full (Chat.Channel (client_at 2 three_users_state))
      then Chat.Channel (client_at 2 three_users_state)
      else mkChan (buf (Chat.Channel (client_at 2 three_users_state))
                     ++ [Chat.EvMessage (Message.mk 1 "bob@x" "Bob" "" "hi" 100)])
                  (cap (Chat.Channel (client_at 2 three_users_state))) false.
Proof.
  apply (proj1 blocked_recipient_is_skipped
           (map_to_list (Chat.clients three_users_state))
           (Message.mk 1 "bob@x" "Bob" "" "hi" 100)
           "bob@x" three_users_state "alice@x" "carol@x" 0 2
           (client_at 0 three_users_state) (client_at 2 three_users_state)).
  - apply (bool_decide_unpack _). vm_compute. exact I.
  - reflexivity.
  - vm_compute. reflexivity.
  - vm_compute. reflexivity.
  - vm_compute. reflexivity.
  - vm_compute. reflexivity.
  - apply (bool_decide_unpack _). vm_compute. exact I.
  - apply (bool_decide_unpack _). vm_compute. exact I.
Defined.

(** *** C6: sending a message *)

(** C6, as stated, fails: a request from a user id that is not banned but has
    no user row is answered with status 401; nothing is stored, and nothing
    is enqueued for Carol, who has not blocked that id and has room. *)
Lemma unknown_sender_is_not_broadcast :
  ∃ carol,
    Chat.isUserBanned "ghost@x" three_users_state = false ∧
    Chat.clients three_users_state !! "carol@x" = Some 2 ∧
    Chat.heap three_users_state !! 2 = Some carol ∧
    full (Chat.Channel carol) = false ∧
    Chat.block_count "carol@x" "ghost@x" three_users_state = 0 ∧
    Chat.sendMessageHandler 100 100 "ghost@x" "hi" three_users_state
      = Some (three_users_state, Chat.Send401).
Proof.
  eexists. split; [vm_compute; reflexivity|].
  split; [vm_compute; reflexivity|].
  split; [vm_compute; reflexivity|].
  split; [vm_compute; reflexivity|].
  split; vm_compute; reflexivity.
Qed.

(** C6, amended: for every send-message request of the SSE chat that binds
    (user id and text not empty): a banned sender gets the ban rejection and
    nothing changes; a sender that is not banned and has no user row gets
    status 401 and nothing changes; a sender that is not banned and has a
    user row gets status 200, one row with the text, the user id and the
    user name is appended to the message table (its time is the database's
    CURRENT_TIMESTAMP), and a message event with the same id, text, user id
    and user name, carrying the handler's clock, is appended to the channel
    of every registered subscriber that has not blocked the sender and has
    room (a full channel is skipped, a blocker's channel is untouched). The
    WebSocket chat has no ban list: for every non-empty text
    [handleChatMessage] appends one row to [chatws_messages] and queues the
    event of that message on the [broadcast] channel when that channel has
    room, and nothing else of the state changes. *)
Theorem send_message_outcomes :
  (∀ current_timestamp now userID text s,
     userID ≠ "" → text ≠ "" → Chat.isUserBanned userID s = true →
     Chat.sendMessageHandler current_timestamp now userID text s
       = Some (s, Chat.Send403Banned)) ∧
  (∀ current_timestamp now userID text s,
     userID ≠ "" → text ≠ "" → Chat.isUserBanned userID s = false →
     Chat.chat_users s !! userID = None →
     Chat.sendMessageHandler current_timestamp now userID text s
       = Some (s, Chat.Send401)) ∧
  (∀ current_timestamp now userID text s u,
     Chat.wf s →
     userID ≠ "" → text ≠ "" → Chat.isUserBanned userID s = false →
     Chat.chat_users s !! userID = Some u →
     let row :=
       Message.mk (Chat.next_message_id s) userID (Chat.username u)
                  (Chat.photo_url u) text current_timestamp in
     let message :=
       Message.mk (Chat.next_message_id s) userID (Chat.username u)
                  (Chat.photo_url u) text now in
     ∃ s',
       Chat.sendMessageHandler current_timestamp now userID text s
         = Some (s', Chat.Send200 (Chat.next_message_id s) text) ∧
       Chat.chat_messages s' = (Chat.chat_messages s ++ [row])%list ∧
       ∀ recipient a c,
         Chat.clients s !! recipient = Some a → Chat.heap s !! a = Some c →
         ∃ c', Chat.heap s' !! a = Some c' ∧
           Chat.Channel c' =
             if decide ((recipient, userID) ∈ Chat.chat_blocks s)
             then Chat.Channel c
             else if full (Chat.Channel c) then Chat.Channel c
                  else mkChan (buf (Chat.Channel c) ++ [Chat.EvMessage message])
                              (cap (Chat.Channel c)) false) ∧
  (∀ inserted_at now a msg s c text,
     ChatWS.heap s !! a = Some c →
     msg !! "message" = Some (JString text) → text ≠ "" →
     closed (ChatWS.broadcast s) = false → full (ChatWS.broadcast s) = false →
     let messageID := Z.of_nat (S (length (ChatWS.chatws_messages s))) in
     let row :=
       Message.mk messageID (ChatWS.UserID c) (ChatWS.Username c) (ChatWS.PhotoURL c)
                  text inserted_at in
     let chatMessage :=
       Message.mk messageID (ChatWS.UserID c) (ChatWS.Username c) (ChatWS.PhotoURL c)
                  text now in
     ChatWS.handleChatMessage inserted_at now a msg s =
       Done {| ChatWS.clients := ChatWS.clients s;
               ChatWS.heap := ChatWS.heap s;
               ChatWS.next_client := ChatWS.next_client s;
               ChatWS.broadcast :=
                 mkChan (buf (ChatWS.broadcast s) ++ [ChatWS.EvMessage chatMessage])
                        (cap (ChatWS.broadcast s)) false;
               ChatWS.chatws_users := ChatWS.chatws_users s;
               ChatWS.chatws_messages := ChatWS.chatws_messages s ++ [row] |}).
Proof.
  split_and!.
  - intros ts now userID text s Hu Ht Hban. unfold Chat.sendMessageHandler.
    rewrite decide_False by (intros [?|?]; done). by rewrite Hban.
  - intros ts now userID text s Hu Ht Hban Hrow. unfold Chat.sendMessageHandler.
    rewrite decide_False by (intros [?|?]; done). by rewrite Hban, Hrow.
  - intros ts now userID text s u Hwf Hu Ht Hban Hrow row message.
    unfold Chat.sendMessageHandler.
    rewrite decide_False by (intros [?|?]; done). rewrite Hban, Hrow.
    fold row. fold message. unfold Chat.broadcastMessage.
    set (s1 := Chat.set_messages (Chat.chat_messages s ++ [row])
                 (Chat.next_message_id s + 1) s).
    destruct (ChatFacts.broadcastMessage_in_spec
                (map_to_list (Chat.clients s1)) message userID s1)
      as (s' & sent & blocked & Hb & _ & Hs' & Hin);
      [by apply ChatFacts.wf_set_messages|done|].
    rewrite Hb. exists s'. split_and!; [done|by rewrite Hs'|].
    intros recipient a c Ha Hc.
    destruct (Hin recipient a Ha) as (c0 & Hc0 & Hc').
    simpl in Hc0. rewrite Hc in Hc0. injection Hc0 as <-.
    eexists. split; [exact Hc'|].
    destruct (ChatFacts.wf_registered_open s recipient a Hwf Ha) as (c0 & Hc0 & Hopen).
    rewrite Hc in Hc0. injection Hc0 as <-.
    pose proof (ChatFacts.block_count_zero recipient userID s1) as Hzero.
    simpl in Hzero.
    destruct (decide ((recipient, userID) ∈ Chat.chat_blocks s)) as [Hblk|Hblk].
    + rewrite decide_False; [done|]. rewrite Hzero. by intros H.
    + rewrite decide_True by (by apply Hzero).
      unfold Chat.offered. simpl.
      destruct (full (Chat.Channel c)) eqn:Hfull.
      * by apply after_send_full.
      * by apply after_send_room.
  - intros inserted_at now a msg s c text Hc Hmsg Ht Hcl Hfull messageID row chatMessage.
    unfold ChatWS.handleChatMessage, ChatWS.broadcast_send.
    rewrite Hc, Hmsg. rewrite decide_False by done. simpl.
    rewrite try_send_open by done. by rewrite Hfull.
Qed.

Lemma send_message_outcomes_witness :
  (∃ s',
     Chat.sendMessageHandler 100 101 "bob@x" "hi" three_users_state
       = Some (s', Chat.Send200 (Chat.next_message_id three_users_state) "hi") ∧
     Chat.chat_messages s'
       = (Chat.chat_messages three_users_state
            ++ [Message.mk (Chat.next_message_id three_users_state) "bob@x"
                  "Bob" "" "hi" 100])%list) ∧
  (∃ s',
     ChatWS.handleChatMessage 100 101 0 chat_frame (ChatWS.shared ws_joined) = Done s' ∧
     ChatWS.chatws_messages s' = [Message.mk 1 "u1" "Mallory" "" "hi" 100] ∧
     buf (ChatWS.broadcast s')
       = (buf (ChatWS.broadcast (ChatWS.shared ws_joined))
            ++ [ChatWS.EvMessage (Message.mk 1 "u1" "Mallory" "" "hi" 101)])%list).
Proof.
  split.
  - destruct (proj1 (proj2 (proj2 send_message_outcomes))
                100%Z 101%Z "bob@x" "hi" three_users_state
                (Chat.mkUserRow "bob@x" "Bob" "" true))
      as (s' & Hsend & Hstored & _).
    + apply (bool_decide_unpack _). vm_compute. exact I.
    + discriminate.
    + discriminate.
    + vm_compute. reflexivity.
    + vm_compute. reflexivity.
    + exists s'. exact (conj Hsend Hstored).
  - eexists. split.
    + apply (proj2 (proj2 (proj2 send_message_outcomes))
               100%Z 101%Z 0%nat chat_frame (ChatWS.shared ws_joined)
               (ChatWS.mkWSClient "u1" "Mallory" ""
                  (mkChan [ChatWS.EvOnline [] 1] 256 false)) "hi").
      * vm_compute. reflexivity.
      * vm_compute. reflexivity.
      * discriminate.
      * vm_compute. reflexivity.
      * vm_compute. reflexivity.
    + split; vm_compute; reflexivity.
Defined.

(** *** C7: marking an identity online twice *)

(** C7, as stated, fails for the WebSocket chat: the registry is keyed by
    connection, so the same identity connecting twice is counted twice by
    [getOnlineCount] and listed twice in the online list sent to another
    user. *)
Lemma same_identity_counted_twice :
  ∃ s1 s2,
    ChatWS.HandleWebSocket_register Samples.base64_DecodeString Samples.json_Unmarshal
      Samples.forged_token true ChatWS.initial_state = (s1, ChatWS.Accepted 0) ∧
    ChatWS.HandleWebSocket_register Samples.base64_DecodeString Samples.json_Unmarshal
      Samples.forged_token true s1 = (s2, ChatWS.Accepted 1) ∧
    ChatWS.getOnlineCount s1 = 1 ∧
    ChatWS.getOnlineCount s2 = 2 ∧
    ChatWS.ou_user_id <$> ChatWS.online_users_except "someone-else" s2 = ["u1"; "u1"].
Proof.
  eexists _, _. split; [vm_compute; reflexivity|].
  split; [vm_compute; reflexivity|].
  split; [vm_compute; reflexivity|].
  split; vm_compute; reflexivity.
Qed.

(** C7, amended: in the SSE chat, a second connection of an identity that is
    registered and whose user row is flagged online replaces the registry
    entry of that identity: the set of registered identities, its size, the
    online rows and the online count are unchanged, and the online rows
    never name an identity twice. In the WebSocket chat every accepted
    connection adds a registry entry, so [getOnlineCount] counts
    connections, one more for each. *)
Theorem second_connect_of_an_identity :
  (∀ userID username photoURL s,
     Chat.wf s → userID ≠ "" →
     is_Some (Chat.clients s !! userID) →
     (∀ r, Chat.chat_users s !! userID = Some r → Chat.is_online r = true) →
     ∃ s' ev,
       Chat.sseStreamHandler_open userID username photoURL s
         = Some (s', Some (Chat.next_client s, ev)) ∧
       dom (Chat.clients s') = dom (Chat.clients s) ∧
       size (Chat.clients s') = size (Chat.clients s) ∧
       Chat.online_rows s' = Chat.online_rows s ∧
       Chat.getOnlineCount s' = Chat.getOnlineCount s ∧
       NoDup (Chat.ou_user_id <$> Chat.online_rows s')) ∧
  (∀ client s,
     ChatWS.wf s →
     ChatWS.getOnlineCount (ChatWS.register client s).1
       = S (ChatWS.getOnlineCount s)).
Proof.
  split.
  - intros userID username photoURL s Hwf Hne [a0 Ha0] Honline.
    destruct (ChatFacts.sseStreamHandler_open_spec userID username photoURL s Hwf Hne)
      as (s' & ev & Hopen & _ & Hcl & Husers & _).
    assert (Chat.chat_users s' = Chat.chat_users s) as Hsame.
    { rewrite Husers. apply alter_id. intros r Hr.
      specialize (Honline r Hr). destruct r; simpl in *. by subst. }
    exists s', ev. split_and!; [done| | | | |apply ChatFacts.online_rows_NoDup].
    + rewrite Hcl, dom_insert_L.
      apply subseteq_union_1_L. intros u ->%elem_of_singleton.
      apply elem_of_dom. eauto.
    + rewrite Hcl. by erewrite map_size_insert_Some.
    + unfold Chat.online_rows. by rewrite Hsame.
    + unfold Chat.getOnlineCount. by rewrite Hsame.
  - intros client s (Hopen & Hlt & _ & _). unfold ChatWS.getOnlineCount. simpl.
    rewrite size_union, size_singleton; [done|].
    intros a ->%elem_of_singleton Hin.
    destruct (Hopen _ Hin) as (c & Hc & _).
    assert (ChatWS.next_client s < ChatWS.next_client s) by (apply Hlt; eauto). lia.
Qed.

Lemma second_connect_of_an_identity_witness :
  ∃ s' ev,
    Chat.sseStreamHandler_open "alice@x" "Alice" "" three_users_state
      = Some (s', Some (Chat.next_client three_users_state, ev)) ∧
    size (Chat.clients s') = size (Chat.clients three_users_state) ∧
    Chat.getOnlineCount s' = Chat.getOnlineCount three_users_state.
Proof.
  destruct (proj1 second_connect_of_an_identity "alice@x" "Alice" "" three_users_state)
    as (s' & ev & Hopen & _ & Hsize & _ & Hcount & _).
  - apply (bool_decide_unpack _). vm_compute. exact I.
  - discriminate.
  - apply (bool_decide_unpack _). vm_compute. exact I.
  - intros r Hr. vm_compute in Hr. by injection Hr as <-.
  - exists s', ev. exact (conj Hopen (conj Hsize Hcount)).
Defined.

(** *** C8: placeholders for empty fields *)

(** C8, as stated, fails: an update whose fields are all empty is accepted,
    and the snapshot then stored has an empty [draw_date], [service_status]
    and [last_update], none of them a placeholder. *)
Lemma update_stores_empty_date :
  ∃ s' d,
    Live.UpdateLotteryData Samples.json_Marshal (Some empty_input) (Live.Init "boot")
      = Some (s', Live.Resp200 d) ∧
    Live.currentData s' = d ∧
    Live.Date d = "" ∧ Live.Status d = "" ∧ Live.UpdateTime d = "" ∧
    Live.Date d ≠ "--" ∧ Live.Date d ≠ "---".
Proof.
  eexists _, _. split; [vm_compute; reflexivity|]. by vm_compute.
Qed.

(** C8, amended: for every update accepted at ingress, each of the eleven
    fields live, the set, value, modern and internet fields and the two
    result fields is stored unchanged when it is not empty and replaced
    before storage when it is empty, by the placeholder of two dashes for
    live, set, value, modern and internet and of three dashes for the two
    results; the date, the status and the update time are stored as they
    came, also when empty. *)
Theorem update_defaults_eleven_fields
    (json_Marshal : Live.LotteryData → option string) input s s' r :
  Live.UpdateLotteryData json_Marshal (Some input) s = Some (s', r) →
  let d := Live.currentData s' in
  r = Live.Resp200 d ∧
  defaulted "--" (Live.Input.Live input) (Live.Live d) ∧
  defaulted "--" (Live.Input.Set1200 input) (Live.Set1200 d) ∧
  defaulted "--" (Live.Input.Value1200 input) (Live.Value1200 d) ∧
  defaulted "---" (Live.Input.Result1200 input) (Live.Result1200 d) ∧
  defaulted "--" (Live.Input.Set430 input) (Live.Set430 d) ∧
  defaulted "--" (Live.Input.Value430 input) (Live.Value430 d) ∧
  defaulted "---" (Live.Input.Result430 input) (Live.Result430 d) ∧
  defaulted "--" (Live.Input.Modern930 input) (Live.Modern930 d) ∧
  defaulted "--" (Live.Input.Internet930 input) (Live.Internet930 d) ∧
  defaulted "--" (Live.Input.Modern200 input) (Live.Modern200 d) ∧
  defaulted "--" (Live.Input.Internet200 input) (Live.Internet200 d) ∧
  Live.Date d = Live.Input.Date input ∧
  Live.Status d = Live.Input.Status input ∧
  Live.UpdateTime d = Live.Input.UpdateTime input.
Proof.
  intros Hup d.
  destruct (LiveFacts.update_currentData json_Marshal input s s' r Hup) as (Hr & _ & Hd).
  subst d. rewrite Hd. split; [by rewrite Hr, Hd|]. simpl.
  unfold defaulted, Live.defaultVal, Live.defaultResult.
  repeat split; intros; case_decide; congruence.
Qed.

Lemma update_defaults_eleven_fields_witness :
  ∃ s' r,
    Live.UpdateLotteryData Samples.json_Marshal (Some sample_input) (Live.Init "boot")
      = Some (s', r) ∧
    defaulted "--" "22" (Live.Live (Live.currentData s')) ∧
    defaulted "--" "" (Live.Value1200 (Live.currentData s')) ∧
    defaulted "---" "" (Live.Result1200 (Live.currentData s')).
Proof.
  destruct (Live.UpdateLotteryData Samples.json_Marshal (Some sample_input)
              (Live.Init "boot")) as [[s' r]|] eqn:Hup; [|by vm_compute in Hup].
  exists s', r. split; [done|].
  destruct (update_defaults_eleven_fields Samples.json_Marshal sample_input
              (Live.Init "boot") s' r Hup)
    as (_ & Hlive & _ & Hvalue & Hresult & _).
  exact (conj Hlive (conj Hvalue Hresult)).
Defined.

(** *** C9: one encoding per broadcast, and the cached message *)

(** C9: a broadcast cycle in a well-formed state returns, whatever the order
    in which Go ranges over the registry, and calls the JSON encoder exactly
    once: the log of the encoder grows by one entry, the snapshot with the
    registry size as view count. The encoder writes into a pooled buffer:
    one buffer leaves the pool, or is made when the pool has none (and only
    then), it is reset, and it is put back holding the encoding and a line
    feed, the rest of the pool untouched. That one string is the cached
    message and is the message offered to every registered channel (a
    channel with room gets it appended, a full one is left alone); when the
    encoder fails nothing is cached or delivered. A stream subscriber that
    connects while the cache is not empty is sent the cached message as its
    first frame, and the log of the encoder does not grow; after a broadcast
    that encoded, the cache is not empty. *)
Theorem broadcast_encodes_once
    (json_Marshal : Live.LotteryData → option string) order s :
  Live.wf s → NoDup order → list_to_set order = Live.clients s →
  ∃ s' sent skipped,
    Live.broadcastUpdate_in json_Marshal order s = Some (s', sent, skipped) ∧
    Live.currentData s'
      = Live.with_ViewCount (size (Live.clients s)) (Live.currentData s) ∧
    Live.encodes s' = (Live.encodes s ++ [Live.currentData s'])%list ∧
    Live.buffers_made s'
      = (if Live.jsonBufferPool s is [] then S (Live.buffers_made s)
         else Live.buffers_made s) ∧
    Live.jsonBufferPool s'
      = default "" (Live.Encode json_Marshal "" (Live.currentData s'))
          :: tail (Live.jsonBufferPool s) ∧
    (∀ message,
       Live.Encode json_Marshal "" (Live.currentData s') = Some message →
       (∃ js, json_Marshal (Live.currentData s') = Some js ∧ message = js +:+ LF) ∧
       Live.cachedJSONMessage s' = message ∧
       head (Live.jsonBufferPool s') = Some message ∧
       (∀ ch c, ch ∈ Live.clients s → Live.chans s !! ch = Some c →
          Live.chans s' !! ch =
            Some (if full c then c else mkChan (buf c ++ [message]) (cap c) false)) ∧
       (sent + skipped)%nat = size (Live.clients s) ∧
       (Live.StreamLotteryData_open json_Marshal s').2 = sse_frame message ∧
       Live.encodes (Live.StreamLotteryData_open json_Marshal s').1.1 = Live.encodes s') ∧
    (Live.Encode json_Marshal "" (Live.currentData s') = None →
     Live.cachedJSONMessage s' = Live.cachedJSONMessage s ∧
     Live.chans s' = Live.chans s) ∧
    (∀ t, Live.cachedJSONMessage t ≠ "" →
       (Live.StreamLotteryData_open json_Marshal t).2 = sse_frame (Live.cachedJSONMessage t) ∧
       Live.encodes (Live.StreamLotteryData_open json_Marshal t).1.1 = Live.encodes t).
Proof.
  intros Hwf Hnd Hset.
  destruct (LiveFacts.broadcastUpdate_in_spec json_Marshal order s Hwf Hnd Hset)
    as (s' & sent & skipped & Hb & Hwf' & Hcl & Hn & Henc & Hd & Hcase).
  destruct (LiveFacts.broadcastUpdate_in_pool json_Marshal order s s' sent skipped Hb)
    as [Hpool Hmade].
  exists s', sent, skipped. split_and!; try done.
  - intros message Hmsg. rewrite Hmsg in Hcase.
    destruct Hcase as (Hcache & Hhead & Hin & _ & Hcount).
    pose proof (LiveFacts.Encode_nonempty _ _ _ Hmsg) as Hne.
    destruct (LiveFacts.open_cached json_Marshal s') as (Hframe & Hencs & _);
      [by rewrite Hcache|].
    split_and!; [|done|done| |done|by rewrite Hframe, Hcache|done].
    + unfold Live.Encode in Hmsg.
      destruct (json_Marshal (Live.currentData s')) as [js|]; [|done].
      injection Hmsg as <-. by exists js.
    + intros ch c Hch Hc. rewrite (Hin ch Hch), Hc. simpl. f_equal.
      destruct (proj1 Hwf ch Hch) as (c0 & Hc0 & Hopen). rewrite Hc in Hc0.
      injection Hc0 as <-.
      destruct (full c) eqn:Hfull.
      * by apply after_send_full.
      * by apply after_send_room.
  - intros Hnone. by rewrite Hnone in Hcase.
  - intros t Ht. destruct (LiveFacts.open_cached json_Marshal t Ht) as (? & ? & _).
    done.
Qed.

Lemma broadcast_encodes_once_witness :
  ∃ s' sent skipped,
    Live.broadcastUpdate_in Samples.json_Marshal [0] one_subscriber
      = Some (s', sent, skipped) ∧
    Live.encodes s' = (Live.encodes one_subscriber ++ [Live.currentData s'])%list ∧
    length (Live.encodes s') = 2 ∧
    Live.buffers_made s' = 1 ∧
    length (Live.jsonBufferPool s') = 1.
Proof.
  destruct (broadcast_encodes_once Samples.json_Marshal [0] one_subscriber)
    as (s' & sent & skipped & Hb & _ & Henc & Hmade & Hpool & _).
  - apply LiveFacts.wf_open, LiveFacts.wf_Init.
  - apply NoDup_singleton.
  - vm_compute. reflexivity.
  - exists s', sent, skipped. split; [exact Hb|]. split; [exact Henc|].
    split; [by rewrite Henc|]. split; [exact Hmade|]. by rewrite Hpool.
Defined.

(** *** C10: the message history and the blocked-user exclusion *)




(* ===================================================================== *)
(** ** Further properties of the three packages *)
(* ===================================================================== *)

Module LiveMoreFacts.
Import Live LiveFacts.

Lemma filter_ext_in {A} (P Q : A → Prop) `{∀ x, Decision (P x)} `{∀ x, Decision (Q x)}
    (l : list A) :
  (∀ x, x ∈ l → P x ↔ Q x) → filter P l = filter Q l.
Proof.
  induction l as [|y l IH]; intros Hall; [done|].
  assert (filter P l = filter Q l) as Hl.
  { apply IH. intros x Hx. apply Hall. by right. }
  destruct (decide (P y)) as [Hy|Hy].
  - rewrite filter_cons_True by done.
    rewrite (filter_cons_True Q) by (apply Hall; [left|done]). by rewrite Hl.
  - rewrite filter_cons_False by done.
    rewrite (filter_cons_False Q); [done|]. intros HQ. apply Hy. apply Hall; [left|done].
Qed.

(** The counters of the loop of [broadcastUpdate]: the channels found full
    are the skipped ones, the others are the ones sent to. *)
Lemma fanout_counts (message : string) (order : list nat) :
  ∀ (h : gmap nat (chan string)) sent skipped h' sent' skipped',
    NoDup order →
    (∀ ch, ch ∈ order → open_in h ch) →
    fanout message order h sent skipped = Some (h', sent', skipped') →
    (skipped' = skipped + length (filter (λ ch, queue_full h ch = true) order))%nat ∧
    (sent' = sent + length (filter (λ ch, queue_full h ch = false) order))%nat.
Proof.
  induction order as [|a order IH]; intros h sent skipped h' sent' skipped' Hnd Hopen Hf.
  - simpl in Hf. injection Hf as <- <- <-. simpl. lia.
  - apply NoDup_cons in Hnd as [Hna Hnd].
    destruct (Hopen a) as (c & Hc & Hcl); [left|].
    simpl in Hf. rewrite Hc, (try_send_open message c Hcl) in Hf.
    assert (queue_full h a = full c) as Hq by (unfold queue_full; by rewrite Hc).
    destruct (full c) eqn:Hfull.
    + destruct (IH h sent (S skipped) h' sent' skipped' Hnd) as [Hsk Hse]; [|done|].
      { intros ch Hch. apply Hopen. by right. }
      rewrite filter_cons_True by done.
      rewrite (filter_cons_False (λ ch, queue_full h ch = false)) by (by rewrite Hq).
      simpl. lia.
    + set (h1 := <[a := mkChan (buf c ++ [message]) (cap c) false]> h) in Hf.
      destruct (IH h1 (S sent) skipped h' sent' skipped' Hnd) as [Hsk Hse]; [|done|].
      { intros ch Hch. destruct (decide (ch = a)) as [->|Hne]; [done|].
        destruct (Hopen ch) as (c' & Hc' & Hcl'); [by right|].
        exists c'. subst h1. by rewrite lookup_insert_ne. }
      assert (∀ b ch, ch ∈ order → queue_full h1 ch = b ↔ queue_full h ch = b) as Hsame.
      { intros b ch Hch. unfold queue_full. subst h1.
        rewrite lookup_insert_ne; [done|]. by intros ->. }
      rewrite (filter_ext_in _ (λ ch, queue_full h ch = true) order) in Hsk
        by (intros; by apply Hsame).
      rewrite (filter_ext_in _ (λ ch, queue_full h ch = false) order) in Hse
        by (intros; by apply Hsame).
      rewrite filter_cons_False by (by rewrite Hq).
      rewrite (filter_cons_True (λ ch, queue_full h ch = false)) by done.
      simpl. lia.
Qed.

Section update.

Variable json_Marshal : LotteryData → option string.

(** An accepted update in a well-formed state whose snapshot encodes. *)
Lemma update_spec input s js :
  wf s →
  let data := with_ViewCount (size (clients s)) (ToLotteryData input) in
  json_Marshal data = Some js →
  ∃ s1,
    UpdateLotteryData json_Marshal (Some input) s = Some (s1, Resp200 data) ∧
    wf s1 ∧ clients s1 = clients s ∧
    currentData s1 = data ∧
    cachedJSONMessage s1 = js +:+ LF ∧
    (∀ ch, ch ∈ clients s → chans s1 !! ch = after_send (js +:+ LF) <$> chans s !! ch).
Proof.
  intros Hwf data Hjs.
  set (s0 := {| currentData := ToLotteryData input;
                clients := clients s; chans := chans s;
                next_chan := next_chan s;
                cachedJSONMessage := cachedJSONMessage s;
                jsonBufferPool := jsonBufferPool s;
                encodes := encodes s;
                buffers_made := buffers_made s |}).
  assert (wf s0) as Hwf0 by exact Hwf.
  destruct (broadcastUpdate_in_spec json_Marshal (elements (clients s0)) s0 Hwf0)
    as (s1 & sent & skipped & Hb & Hwf1 & Hcl & _ & _ & Hdata & Hmsg).
  { apply NoDup_elements. }
  { apply list_to_set_elements_L. }
  simpl in Hdata. fold data in Hdata.
  assert (Encode json_Marshal "" (currentData s1) = Some (js +:+ LF)) as Henc.
  { rewrite Hdata. unfold Encode. by rewrite Hjs. }
  rewrite Henc in Hmsg. destruct Hmsg as (Hcache & _ & Hin & _ & _).
  exists s1. split_and!; try done.
  unfold UpdateLotteryData. fold s0. unfold broadcastUpdate.
  rewrite Hb. by rewrite Hdata.
Qed.

End update.

End LiveMoreFacts.

(** X1: an accepted update reaches a subscriber. In a well-formed state
    whose snapshot encodes, [UpdateLotteryData] answers 200 with the
    converted input carrying the registry size as view count; the same data
    is what [GetCurrentData] then returns; the encoding followed by a line
    feed is cached and appended to the channel of a subscriber with room;
    and when that channel was empty, the next receive of the stream handler
    writes exactly that message as an SSE frame and leaves the channel
    empty. *)
Theorem update_reaches_subscriber
    (json_Marshal : Live.LotteryData → option string) input s ch c js :
  Live.wf s → ch ∈ Live.clients s → Live.chans s !! ch = Some c → full c = false →
  let data := Live.with_ViewCount (size (Live.clients s)) (Live.ToLotteryData input) in
  json_Marshal data = Some js →
  ∃ s1,
    Live.UpdateLotteryData json_Marshal (Some input) s = Some (s1, Live.Resp200 data) ∧
    Live.GetCurrentData s1 = Live.Resp200 data ∧
    Live.cachedJSONMessage s1 = js +:+ LF ∧
    Live.chans s1 !! ch = Some (mkChan (buf c ++ [js +:+ LF]) (cap c) false) ∧
    (buf c = [] →
     ∃ s2, Live.stream_recv ch s1 = Some (s2, sse_frame (js +:+ LF)) ∧
           Live.chans s2 !! ch = Some (mkChan [] (cap c) false)).
Proof.
  intros Hwf Hch Hc Hfull data Hjs.
  destruct (LiveMoreFacts.update_spec json_Marshal input s js Hwf Hjs)
    as (s1 & Hup & _ & _ & Hdata & Hcache & Hin).
  assert (closed c = false) as Hopen.
  { destruct Hwf as [Hreg _]. destruct (Hreg ch Hch) as (c' & Hc' & Hcl').
    rewrite Hc in Hc'. by injection Hc' as ->. }
  assert (Live.chans s1 !! ch = Some (mkChan (buf c ++ [js +:+ LF]) (cap c) false)) as Hq.
  { rewrite (Hin ch Hch), Hc. simpl. by rewrite (after_send_room _ c Hopen Hfull). }
  exists s1. split_and!; try done.
  - unfold Live.GetCurrentData. by rewrite Hdata.
  - intros Hempty. unfold Live.stream_recv. rewrite Hq. rewrite Hempty. simpl.
    eexists. split; [reflexivity|]. simpl. by rewrite lookup_insert_eq.
Qed.

Lemma update_reaches_subscriber_witness :
  ∃ s1 js,
    Live.UpdateLotteryData Samples.json_Marshal (Some sample_input) one_subscriber
      = Some (s1, Live.Resp200 (Live.with_ViewCount 1 (Live.ToLotteryData sample_input))) ∧
    Live.chans s1 !! 0 = Some (mkChan [js +:+ LF] 50 false).
Proof.
  destruct (update_reaches_subscriber Samples.json_Marshal sample_input one_subscriber 0
              (make 50)
              (default "" (Samples.json_Marshal
                 (Live.with_ViewCount 1 (Live.ToLotteryData sample_input)))))
    as (s1 & Hup & _ & _ & Hq & _).
  - apply LiveFacts.wf_open, LiveFacts.wf_Init.
  - apply (bool_decide_unpack _). vm_compute. exact I.
  - vm_compute. reflexivity.
  - vm_compute. reflexivity.
  - vm_compute. reflexivity.
  - eexists s1, _. split; [exact Hup|exact Hq].
Defined.

(** X2: two updates in a row reach a subscriber in the order in which they
    were accepted: with an empty channel of capacity at least two, the
    stream handler writes the frame of the first, then the frame of the
    second, and then finds nothing more to receive. *)
Theorem updates_arrive_in_order
    (json_Marshal : Live.LotteryData → option string) input1 input2 s ch c js1 js2 :
  Live.wf s → ch ∈ Live.clients s → Live.chans s !! ch = Some c →
  buf c = [] → (2 ≤ cap c)%nat →
  json_Marshal (Live.with_ViewCount (size (Live.clients s)) (Live.ToLotteryData input1))
    = Some js1 →
  json_Marshal (Live.with_ViewCount (size (Live.clients s)) (Live.ToLotteryData input2))
    = Some js2 →
  ∃ s1 r1 s2 r2 s3 s4,
    Live.UpdateLotteryData json_Marshal (Some input1) s = Some (s1, r1) ∧
    Live.UpdateLotteryData json_Marshal (Some input2) s1 = Some (s2, r2) ∧
    Live.stream_recv ch s2 = Some (s3, sse_frame (js1 +:+ LF)) ∧
    Live.stream_recv ch s3 = Some (s4, sse_frame (js2 +:+ LF)) ∧
    Live.stream_recv ch s4 = None.
Proof.
  intros Hwf Hch Hc Hbuf Hcap Hjs1 Hjs2.
  assert (closed c = false) as Hopen.
  { destruct Hwf as [Hreg _]. destruct (Hreg ch Hch) as (c' & Hc' & Hcl').
    rewrite Hc in Hc'. by injection Hc' as ->. }
  destruct (LiveMoreFacts.update_spec json_Marshal input1 s js1 Hwf Hjs1)
    as (s1 & Hup1 & Hwf1 & Hcl1 & _ & _ & Hin1).
  rewrite <- Hcl1 in Hjs2, Hch.
  destruct (LiveMoreFacts.update_spec json_Marshal input2 s1 js2 Hwf1 Hjs2)
    as (s2 & Hup2 & _ & _ & _ & _ & Hin2).
  assert (Live.chans s1 !! ch = Some (mkChan [js1 +:+ LF] (cap c) false)) as Hq1.
  { rewrite Hin1 by (by rewrite <- Hcl1). rewrite Hc. simpl.
    rewrite (after_send_room _ c Hopen); [by rewrite Hbuf|].
    unfold full. rewrite Hbuf. simpl. apply negb_false_iff, Nat.ltb_lt. lia. }
  assert (Live.chans s2 !! ch
          = Some (mkChan [js1 +:+ LF; js2 +:+ LF] (cap c) false)) as Hq2.
  { rewrite (Hin2 ch Hch), Hq1. simpl. rewrite after_send_room; [done|done|].
    unfold full. simpl. apply negb_false_iff, Nat.ltb_lt. lia. }
  eexists s1, _, s2, _, _, _. split; [exact Hup1|]. split; [exact Hup2|].
  unfold Live.stream_recv at 1. rewrite Hq2. simpl. split; [reflexivity|].
  unfold Live.stream_recv at 1. simpl. rewrite lookup_insert_eq. simpl.
  split; [reflexivity|].
  unfold Live.stream_recv. simpl. rewrite lookup_insert_eq. simpl. done.
Qed.

Lemma updates_arrive_in_order_witness :
  ∃ s1 r1 s2 r2 s3 s4 js1 js2,
    Live.UpdateLotteryData Samples.json_Marshal (Some sample_input) one_subscriber
      = Some (s1, r1) ∧
    Live.UpdateLotteryData Samples.json_Marshal (Some empty_input) s1 = Some (s2, r2) ∧
    Live.stream_recv 0 s2 = Some (s3, sse_frame (js1 +:+ LF)) ∧
    Live.stream_recv 0 s3 = Some (s4, sse_frame (js2 +:+ LF)) ∧
    js1 ≠ js2.
Proof.
  destruct (updates_arrive_in_order Samples.json_Marshal sample_input empty_input
              one_subscriber 0 (make 50)
              (default "" (Samples.json_Marshal
                 (Live.with_ViewCount 1 (Live.ToLotteryData sample_input))))
              (default "" (Samples.json_Marshal
                 (Live.with_ViewCount 1 (Live.ToLotteryData empty_input)))))
    as (s1 & r1 & s2 & r2 & s3 & s4 & Hup1 & Hup2 & Hr1 & Hr2 & _).
  - apply LiveFacts.wf_open, LiveFacts.wf_Init.
  - apply (bool_decide_unpack _). vm_compute. exact I.
  - vm_compute. reflexivity.
  - reflexivity.
  - simpl. lia.
  - vm_compute. reflexivity.
  - vm_compute. reflexivity.
  - eexists s1, r1, s2, r2, s3, s4, _, _.
    split; [exact Hup1|]. split; [exact Hup2|]. split; [exact Hr1|]. split; [exact Hr2|].
    vm_compute. discriminate.
Defined.

(** X3: a stream connection followed by its disconnection restores the
    registry. The channel made for the connection was not registered
    before, the registry grows by one, the count logged at the removal is
    the old size, and after [StreamLotteryData] returns the registry is the
    one before the connection, the channel is closed and empty, every other
    channel is as it was, and the state is well-formed. *)
Theorem stream_connect_then_disconnect
    (json_Marshal : Live.LotteryData → option string) s :
  Live.wf s →
  ∃ s1 ch frame s2,
    Live.StreamLotteryData_open json_Marshal s = (s1, ch, frame) ∧
    (ch ∉ Live.clients s) ∧
    size (Live.clients s1) = S (size (Live.clients s)) ∧
    Live.StreamLotteryData_done ch s1 = Some s2 ∧
    (Live.stream_remove ch s1).2 = size (Live.clients s) ∧
    Live.clients s2 = Live.clients s ∧
    Live.chans s2 !! ch = Some (mkChan [] 50 true) ∧
    (∀ ch', ch' ≠ ch → Live.chans s2 !! ch' = Live.chans s !! ch') ∧
    Live.wf s2.
Proof.
  intros Hwf.
  destruct (Live.StreamLotteryData_open json_Marshal s) as [[s1 ch] frame] eqn:Hopen.
  pose proof (LiveFacts.open_registry json_Marshal s) as Hreg.
  pose proof (LiveFacts.wf_open json_Marshal s Hwf) as Hwf1.
  rewrite Hopen in Hreg, Hwf1. simpl in Hreg, Hwf1.
  destruct Hreg as (Hcl & Hch & Hnext & _).
  assert (ch = Live.next_chan s) as ->.
  { unfold Live.StreamLotteryData_open, Live.stream_register in Hopen.
    destruct (Live.stream_initial _ _ _) in Hopen. by injection Hopen as _ <- _. }
  assert (Live.next_chan s ∉ Live.clients s) as Hfresh.
  { intros Hin. pose proof (LiveFacts.wf_registered_lt s _ Hwf Hin). lia. }
  assert ((Live.clients s1 ∖ {[Live.next_chan s]}) = Live.clients s) as Hback.
  { rewrite Hcl. apply set_eq. intros x.
    rewrite elem_of_difference, elem_of_union, !elem_of_singleton.
    split; [by intros [[->|?] ?]|]. intros Hx. split; [by right|]. by intros ->. }
  exists s1, (Live.next_chan s), frame.
  unfold Live.StreamLotteryData_done, Live.stream_close, Live.stream_remove. simpl.
  rewrite Hch, lookup_insert_eq. simpl.
  eexists. split_and!; try done.
  - rewrite Hcl. rewrite size_union by (by apply disjoint_singleton_l).
    by rewrite size_singleton.
  - simpl. by rewrite Hback.
  - simpl. by rewrite lookup_insert_eq.
  - intros ch' Hne. simpl. by rewrite !lookup_insert_ne.
  - destruct Hwf as [Hopen' Hlt]. split; simpl.
    + rewrite Hback. intros ch' Hin. destruct (Hopen' ch' Hin) as (q & Hq & Hqc).
      exists q. split; [|done].
      rewrite !lookup_insert_ne; [done|..]; intros <-; by apply Hfresh.
    + intros ch' [q Hq]. rewrite Hnext.
      destruct (decide (ch' = Live.next_chan s)) as [->|Hne]; [lia|].
      rewrite !lookup_insert_ne in Hq by done.
      assert (ch' < Live.next_chan s) by (apply Hlt; eauto). lia.
Qed.

Lemma stream_connect_then_disconnect_witness :
  ∃ s1 ch frame s2,
    Live.StreamLotteryData_open Samples.json_Marshal (Live.Init "boot") = (s1, ch, frame) ∧
    Live.StreamLotteryData_done ch s1 = Some s2 ∧
    Live.clients s2 = Live.clients (Live.Init "boot").
Proof.
  destruct (stream_connect_then_disconnect Samples.json_Marshal (Live.Init "boot"))
    as (s1 & ch & frame & s2 & Ho & _ & _ & Hd & _ & Hcl & _).
  - apply LiveFacts.wf_Init.
  - by exists s1, ch, frame, s2.
Defined.

(** X4: the counters of [broadcastUpdate]. When the snapshot encodes, the
    broadcast returns, [sentCount] and [skippedCount] add up to the number
    of registered channels, [skippedCount] is the number of channels found
    full and [sentCount] the number of the others, and a registered channel
    is unchanged exactly when it was full. *)
Theorem broadcast_counters_add_up
    (json_Marshal : Live.LotteryData → option string) order s :
  Live.wf s → NoDup order → list_to_set order = Live.clients s →
  is_Some (json_Marshal (Live.with_ViewCount (size (Live.clients s)) (Live.currentData s))) →
  ∃ s' sent skipped,
    Live.broadcastUpdate_in json_Marshal order s = Some (s', sent, skipped) ∧
    (sent + skipped)%nat = size (Live.clients s) ∧
    skipped = length (filter (λ ch, queue_full (Live.chans s) ch = true) order) ∧
    sent = length (filter (λ ch, queue_full (Live.chans s) ch = false) order) ∧
    (∀ ch, ch ∈ Live.clients s →
           Live.chans s' !! ch = Live.chans s !! ch ↔ queue_full (Live.chans s) ch = true).
Proof.
  intros Hwf Hnd Hset [js Hjs].
  destruct (LiveFacts.broadcastUpdate_in_spec json_Marshal order s Hwf Hnd Hset)
    as (s' & sent & skipped & Hb & _).
  exists s', sent, skipped. split; [exact Hb|].
  assert (∀ ch, ch ∈ order → Live.open_in (Live.chans s) ch) as Hopen.
  { intros ch Hch. apply Hwf. rewrite <- Hset. by apply elem_of_list_to_set. }
  unfold Live.broadcastUpdate_in, Live.broadcast_prepare, Live.Encoder_Encode,
    Live.json_call in Hb.
  destruct (Live.pool_Get s) as [pool made].
  simpl in Hb. rewrite Hjs in Hb. simpl in Hb.
  destruct (Live.fanout _ order (Live.chans s) 0 0) as [[[h a] b]|] eqn:Hf; [|done].
  injection Hb as <- <- <-.
  destruct (LiveMoreFacts.fanout_counts _ order _ 0 0 _ _ _ Hnd Hopen Hf) as [Hsk Hse].
  destruct (LiveFacts.fanout_spec ("" +:+ js +:+ LF) order (Live.chans s) 0 0 Hnd Hopen)
    as (h' & sent' & skipped' & Hf' & Hin & _ & Hcount).
  rewrite Hf in Hf'. injection Hf' as <- <- <-.
  split_and!.
  - rewrite <- Hset, size_list_to_set by done. lia.
  - by rewrite Hsk.
  - by rewrite Hse.
  - intros ch Hch.
    assert (ch ∈ order) as Hord by (rewrite <- Hset in Hch; by apply elem_of_list_to_set in Hch).
    simpl. rewrite (Hin ch Hord).
    destruct (Hopen ch Hord) as (c & Hc & Hcl).
    unfold queue_full. rewrite Hc. simpl. destruct (full c) eqn:Hfull.
    + by rewrite after_send_full.
    + rewrite (after_send_room _ c Hcl Hfull). split; [|done].
      intros [= Heq]. destruct c as [b0 ? ?]. simpl in *.
      injection Heq as Heq. apply (f_equal length) in Heq.
      rewrite length_app in Heq. simpl in Heq. lia.
Qed.

Lemma broadcast_counters_add_up_witness :
  ∃ s',
    Live.broadcastUpdate_in Samples.json_Marshal [0] one_subscriber = Some (s', 1, 0) ∧
    size (Live.clients one_subscriber) = 1.
Proof.
  destruct (broadcast_counters_add_up Samples.json_Marshal [0] one_subscriber)
    as (s' & sent & skipped & Hb & Hsum & Hsk & Hse & _).
  - apply LiveFacts.wf_open, LiveFacts.wf_Init.
  - apply NoDup_singleton.
  - apply (bool_decide_unpack _). vm_compute. exact I.
  - vm_compute. eauto.
  - exists s'. rewrite Hb, Hsk, Hse. split; [|by rewrite <- Hsum, Hsk, Hse].
    vm_compute. reflexivity.
Defined.

Module LiveHistoryFacts.
Import Live LiveFacts.

Lemma Result430_defaulted input :
  Result430 (ToLotteryData input) ≠ "" ∧
  (Result430 (ToLotteryData input) = "--" ↔ Input.Result430 input = "--").
Proof.
  simpl. unfold defaultResult. case_decide as He.
  - rewrite He. split; [done|]. split; discriminate.
  - done.
Qed.

Section update.

Variable json_Marshal : LotteryData → option string.

(** In a well-formed state a request to [UpdateLotteryData] is answered. *)
Lemma update_returns body s :
  wf s → ∃ s' r, UpdateLotteryData json_Marshal body s = Some (s', r).
Proof.
  intros Hwf. unfold UpdateLotteryData. destruct body as [input|]; [|by eexists _, _].
  unfold broadcastUpdate.
  set (s1 := {| currentData := ToLotteryData input; clients := clients s;
                chans := chans s; next_chan := next_chan s;
                cachedJSONMessage := cachedJSONMessage s;
                jsonBufferPool := jsonBufferPool s;
                encodes := encodes s; buffers_made := buffers_made s |}).
  destruct (broadcastUpdate_in_spec json_Marshal (elements (clients s1)) s1)
    as (s2 & sent & skipped & Hb & _);
    [done|apply NoDup_elements|apply list_to_set_elements_L|].
  rewrite Hb. by eexists _, _.
Qed.

(** The history check changes nothing that the broadcast reads. *)
Lemma check_keeps_live {H} LoadLocation now later data (s : LiveHistory.state H) :
  LiveHistory.live (LiveHistory.checkAndInsertHistory LoadLocation now later data s)
    = LiveHistory.live s ∧
  LiveHistory.historyInserter
    (LiveHistory.checkAndInsertHistory LoadLocation now later data s)
    = LiveHistory.historyInserter s.
Proof.
  unfold LiveHistory.checkAndInsertHistory.
  destruct (LiveHistory.historyInserter s) eqn:Hi; [|by rewrite Hi].
  destruct LoadLocation; [|by rewrite Hi].
  by repeat case_decide.
Qed.

(** An update with its history check does to the live state what the update
    alone does. *)
Lemma update_with_check {H} LoadLocation now later body (s : LiveHistory.state H) :
  wf (LiveHistory.live s) →
  ∃ s' r,
    LiveHistory.UpdateLotteryData json_Marshal LoadLocation now later body s
      = Some (s', r) ∧
    UpdateLotteryData json_Marshal body (LiveHistory.live s)
      = Some (LiveHistory.live s', r) ∧
    (∀ input, body = Some input →
       LiveHistory.history s'
         = LiveHistory.history
             (LiveHistory.checkAndInsertHistory LoadLocation now later
                (ToLotteryData input) s) ∧
       LiveHistory.lastCheckTime s'
         = LiveHistory.lastCheckTime
             (LiveHistory.checkAndInsertHistory LoadLocation now later
                (ToLotteryData input) s) ∧
       LiveHistory.historyInserter s' = LiveHistory.historyInserter s) ∧
    (body = None → s' = s).
Proof.
  intros Hwf. destruct (update_returns body (LiveHistory.live s) Hwf) as (l' & r & Hup).
  unfold LiveHistory.UpdateLotteryData. destruct body as [input|].
  - unfold UpdateLotteryData in Hup.
    set (l1 := {| currentData := ToLotteryData input;
                  clients := clients (LiveHistory.live s);
                  chans := chans (LiveHistory.live s);
                  next_chan := next_chan (LiveHistory.live s);
                  cachedJSONMessage := cachedJSONMessage (LiveHistory.live s);
                  jsonBufferPool := jsonBufferPool (LiveHistory.live s);
                  encodes := encodes (LiveHistory.live s);
                  buffers_made := buffers_made (LiveHistory.live s) |}) in *.
    set (s1 := @LiveHistory.mkState H l1 (LiveHistory.historyInserter s)
                 (LiveHistory.lastCheckTime s) (LiveHistory.history s)).
    destruct (check_keeps_live LoadLocation now later (ToLotteryData input) s1)
      as [Hlive Hins].
    rewrite Hlive. simpl.
    destruct (broadcastUpdate json_Marshal l1) as [[[l2 ?] ?]|] eqn:Hb; [|done].
    injection Hup as <- <-.
    eexists _, _. split; [reflexivity|]. simpl. split.
    { unfold UpdateLotteryData. fold l1. by rewrite Hb. }
    split; [|done]. intros input' [= <-].
    assert (∀ l (t : LiveHistory.state H),
              LiveHistory.history
                (LiveHistory.checkAndInsertHistory LoadLocation now later
                   (ToLotteryData input)
                   (@LiveHistory.mkState H l (LiveHistory.historyInserter t)
                      (LiveHistory.lastCheckTime t) (LiveHistory.history t)))
              = LiveHistory.history
                  (LiveHistory.checkAndInsertHistory LoadLocation now later
                     (ToLotteryData input) t) ∧
              LiveHistory.lastCheckTime
                (LiveHistory.checkAndInsertHistory LoadLocation now later
                   (ToLotteryData input)
                   (@LiveHistory.mkState H l (LiveHistory.historyInserter t)
                      (LiveHistory.lastCheckTime t) (LiveHistory.history t)))
              = LiveHistory.lastCheckTime
                  (LiveHistory.checkAndInsertHistory LoadLocation now later
                     (ToLotteryData input) t)) as Hsame.
    { intros l t. unfold LiveHistory.checkAndInsertHistory. simpl.
      destruct (LiveHistory.historyInserter t); [|done].
      destruct LoadLocation; [|done]. by repeat case_decide. }
    destruct (Hsame l1 s) as [Hh Ht]. fold s1 in Hh, Ht. by rewrite Hh, Ht, Hins.
  - injection Hup as <- <-. eexists _, _. split; [reflexivity|]. split; [done|].
    split; [done|]. done.
Qed.

End update.

End LiveHistoryFacts.

(** X5: when an update is handed to the history. With an inserter
    registered and the time zone loaded, an update in a well-formed state
    is answered as without the check, and it calls the inserter exactly
    when the Yangon wall clock reads 16:30 to 16:34, at least a minute has
    passed since the last insertion, and the evening result of the input is
    not the two-dash string; [lastCheckTime] is then set to the clock
    reading. An input whose evening result is empty has been defaulted to
    three dashes before the check, which therefore lets it through. With no
    inserter, no time zone or no body the history is left alone. *)
Theorem update_history_check {H : Type}
    (json_Marshal : Live.LotteryData → option string) :
  (∀ (inserter : LiveHistory.HistoryInserter H) loc now later input
     (s : LiveHistory.state H),
     Live.wf (LiveHistory.live s) →
     LiveHistory.historyInserter s = Some inserter →
     let data := Live.ToLotteryData input in
     let due :=
       (LiveHistory.Hour (loc now) now = 16 ∧
        30 ≤ LiveHistory.Minute (loc now) now < 35 ∧
        LiveHistory.time_Minute
          ≤ LiveHistory.time_Sub later (LiveHistory.lastCheckTime s))%Z in
     ∃ s' r,
       LiveHistory.UpdateLotteryData json_Marshal (Some loc) now later (Some input) s
         = Some (s', r) ∧
       Live.UpdateLotteryData json_Marshal (Some input) (LiveHistory.live s)
         = Some (LiveHistory.live s', r) ∧
       LiveHistory.historyInserter s' = Some inserter ∧
       (due ∧ Live.Input.Result430 input ≠ "--" →
        LiveHistory.history s' = (inserter data (LiveHistory.history s)).1 ∧
        LiveHistory.lastCheckTime s' = now) ∧
       (¬ (due ∧ Live.Input.Result430 input ≠ "--") →
        LiveHistory.history s' = LiveHistory.history s ∧
        LiveHistory.lastCheckTime s' = LiveHistory.lastCheckTime s) ∧
       (Live.Input.Result430 input = "" → Live.Result430 data = "---")) ∧
  (∀ LoadLocation now later body (s : LiveHistory.state H),
     Live.wf (LiveHistory.live s) →
     LiveHistory.historyInserter s = None ∨ LoadLocation = None ∨ body = None →
     ∃ s' r,
       LiveHistory.UpdateLotteryData json_Marshal LoadLocation now later body s
         = Some (s', r) ∧
       Live.UpdateLotteryData json_Marshal body (LiveHistory.live s)
         = Some (LiveHistory.live s', r) ∧
       LiveHistory.history s' = LiveHistory.history s ∧
       LiveHistory.lastCheckTime s' = LiveHistory.lastCheckTime s).
Proof.
  split.
  - intros inserter loc now later input s Hwf Hins data due.
    destruct (LiveHistoryFacts.update_with_check json_Marshal (Some loc) now later
                (Some input) s Hwf) as (s' & r & Hup & Hlive & Hcheck & _).
    destruct (Hcheck input eq_refl) as (Hh & Ht & Hi).
    destruct (LiveHistoryFacts.Result430_defaulted input) as [Hne Hdash].
    fold data in Hne, Hdash, Hh, Ht.
    exists s', r. split; [done|]. split; [done|]. split; [by rewrite Hi|].
    rewrite Hh, Ht. unfold LiveHistory.checkAndInsertHistory. rewrite Hins.
    split_and!.
    + intros [(Hhour & Hmin & Hlast) Hready].
      rewrite decide_True by (split; [done|lia]).
      rewrite decide_False by (intros [?|?]; [by apply Hready, Hdash|done]).
      rewrite decide_False by lia. done.
    + intros Hnot. repeat case_decide; try done.
      exfalso. apply Hnot. split; [split_and!; lia|].
      intros Hd. apply Hdash in Hd. tauto.
    + intros He. subst data. simpl. by rewrite He.
  - intros LoadLocation now later body s Hwf Hcase.
    destruct (LiveHistoryFacts.update_with_check json_Marshal LoadLocation now later
                body s Hwf) as (s' & r & Hup & Hlive & Hcheck & Hnone).
    exists s', r. split; [done|]. split; [done|].
    destruct body as [input|]; [|by rewrite (Hnone eq_refl)].
    destruct (Hcheck input eq_refl) as (Hh & Ht & _). rewrite Hh, Ht.
    unfold LiveHistory.checkAndInsertHistory.
    destruct (LiveHistory.historyInserter s) as [ins|]; [|done].
    destruct LoadLocation as [loc|]; [|done].
    by destruct Hcase as [?|[?|?]].
Qed.

Lemma update_history_check_witness :
  ∃ s' r,
    LiveHistory.UpdateLotteryData Samples.json_Marshal (Some yangon)
      half_past_four (half_past_four + 5) (Some empty_input) history_ready = Some (s', r) ∧
    LiveHistory.history s' = [Live.ToLotteryData empty_input] ∧
    LiveHistory.lastCheckTime s' = half_past_four ∧
    Live.Result430 (Live.ToLotteryData empty_input) = "---".
Proof.
  destruct (proj1 (update_history_check (H:=list Live.LotteryData) Samples.json_Marshal)
              history_log yangon half_past_four (half_past_four + 5)%Z empty_input
              history_ready)
    as (s' & r & Hup & _ & _ & Hdue & _ & Hempty).
  - apply LiveFacts.wf_Init.
  - reflexivity.
  - destruct Hdue as [Hh Ht].
    + split; [|discriminate].
      split; [vm_compute; reflexivity|]. split; [split; by vm_compute|]. by vm_compute.
    + exists s', r. split; [done|]. split; [exact Hh|]. split; [exact Ht|]. by apply Hempty.
Defined.

Module SqlFacts.
Import Chat.

(** A row newer than all the others comes first, whatever the limit. *)
Lemma newest_row_first order_by (n : Z) (rows : list Message.t) m :
  orders_by_created_at_desc order_by →
  (∀ x, x ∈ rows → (Message.CreatedAt x < Message.CreatedAt m)%Z) →
  n ≠ 0%Z →
  ∃ rest, sql_limit n (order_by (rows ++ [m])%list) = m :: rest.
Proof.
  intros Hord Hnew Hn. destruct (Hord (rows ++ [m])%list) as [Hperm Hss].
  destruct (order_by (rows ++ [m])%list) as [|h rest] eqn:Hs.
  { apply Permutation_nil_l in Hperm. by destruct rows. }
  assert (h = m) as ->.
  { assert (h ∈ (rows ++ [m])%list) as Hh by (rewrite <- Hperm; left).
    apply elem_of_app in Hh as [Hh|Hh]; [|by apply list_elem_of_singleton in Hh].
    assert (m ∈ h :: rest) as Hm.
    { rewrite Hperm. apply elem_of_app. right. by left. }
    apply elem_of_cons in Hm as [Hm|Hm]; [done|].
    apply StronglySorted_inv in Hss as [_ Hall].
    rewrite Forall_forall in Hall. specialize (Hall m Hm).
    specialize (Hnew h Hh). unfold not_older in Hall. lia. }
  unfold sql_limit. case_decide; [by eexists|].
  destruct (Z.to_nat n) as [|k] eqn:Hk; [lia|]. simpl. by eexists.
Qed.

Lemma not_in_empty {A} (l : list A) x : x ∈ l → l = [] → False.
Proof. intros Hx ->. by apply elem_of_nil in Hx. Qed.

End SqlFacts.

(** X6: the two message listings. [GetRecentMessagesHandler] of the
    WebSocket chat answers with the [n] newest rows of [chatws_messages],
    oldest first, and [getAllMessagesHandler] of the SSE chat with the [n]
    newest rows of [chat_messages], newest first, together with their
    number; [n] is what SQLite reads from the limit text (50 and 100 when
    absent), a negative [n] is no limit, and a limit that is no integer
    gives no messages. No row left out is newer than a row listed. *)
Theorem recent_messages_are_the_newest
    (sqlite_integer : string → option Z)
    (order_by : list Message.t → list Message.t) :
  Chat.orders_by_created_at_desc order_by →
  (∀ limit s,
     ∃ messages,
       ChatWSHttp.GetRecentMessagesHandler sqlite_integer order_by limit s
         = ChatWSHttp.Recent200 messages ∧
       match sqlite_integer (default "50" limit) with
       | None => messages = []
       | Some n =>
           length messages
             = (if decide (n < 0)%Z then length (ChatWS.chatws_messages s)
                else Nat.min (Z.to_nat n) (length (ChatWS.chatws_messages s))) ∧
           StronglySorted (λ a b, (Message.CreatedAt a ≤ Message.CreatedAt b)%Z)
                          messages ∧
           messages ⊆+ ChatWS.chatws_messages s ∧
           (∀ m m', m ∈ messages → m' ∈ ChatWS.chatws_messages s → m' ∉ messages →
                    (Message.CreatedAt m' ≤ Message.CreatedAt m)%Z)
       end) ∧
  (∀ limit s,
     ∃ messages,
       ChatHttp.getAllMessagesHandler sqlite_integer order_by limit s
         = ChatHttp.All200 messages (length messages) ∧
       match sqlite_integer (default "100" limit) with
       | None => messages = []
       | Some n =>
           length messages
             = (if decide (n < 0)%Z then length (Chat.chat_messages s)
                else Nat.min (Z.to_nat n) (length (Chat.chat_messages s))) ∧
           StronglySorted (λ a b, (Message.CreatedAt b ≤ Message.CreatedAt a)%Z)
                          messages ∧
           messages ⊆+ Chat.chat_messages s ∧
           (∀ m m', m ∈ messages → m' ∈ Chat.chat_messages s → m' ∉ messages →
                    (Message.CreatedAt m' ≤ Message.CreatedAt m)%Z)
       end).
Proof.
  intros Hord. split.
  - intros limit s. eexists. split; [reflexivity|].
    destruct (sqlite_integer (default "50" limit)) as [n|]; [|done].
    destruct (ChatFacts.limit_takes_the_newest order_by n (ChatWS.chatws_messages s) Hord)
      as (Hlen & Hss & Hsub & Hnew).
    split_and!.
    + by rewrite length_reverse.
    + apply (ChatFacts.StronglySorted_reverse Chat.not_older), Hss.
    + by rewrite reverse_Permutation.
    + intros m m' Hm Hm' Hnot. rewrite elem_of_reverse in Hm, Hnot. by apply (Hnew m m').
  - intros limit s. eexists. split; [reflexivity|].
    destruct (sqlite_integer (default "100" limit)) as [n|]; [|done].
    destruct (ChatFacts.limit_takes_the_newest order_by n (Chat.chat_messages s) Hord)
      as (Hlen & Hss & Hsub & Hnew).
    split_and!; done.
Qed.

Lemma recent_messages_are_the_newest_witness :
  ∃ messages,
    ChatHttp.getAllMessagesHandler Samples.sqlite_integer
      Samples.order_by_created_at_desc (Some "3") history_state
      = ChatHttp.All200 messages 3 ∧
    messages ⊆+ Chat.chat_messages history_state.
Proof.
  destruct (proj2 (recent_messages_are_the_newest Samples.sqlite_integer
                     Samples.order_by_created_at_desc ChatFacts.merge_sort_orders)
              (Some "3") history_state)
    as (messages & Hget & Hcase).
  assert (Samples.sqlite_integer (default "100" (Some "3")) = Some 3%Z) as Hn
    by (vm_compute; reflexivity).
  rewrite Hn in Hcase. destruct Hcase as (Hlen & _ & Hsub & _).
  exists messages. split; [|exact Hsub].
  rewrite Hget. f_equal. rewrite Hlen. vm_compute. reflexivity.
Defined.

(** X7: a chat message of the WebSocket chat shows up in the recent
    messages. When the broadcast channel has room, [handleChatMessage]
    returns, and if the time of the insertion is later than that of every
    stored row, the list of [GetRecentMessagesHandler] (for a limit other
    than 0) ends with the new row, with the next id, the identity of the
    connection and the text; the rows before it are rows stored before. *)
Theorem chatws_message_is_last_of_recent
    (sqlite_integer : string → option Z)
    (order_by : list Message.t → list Message.t)
    inserted_at now a msg text s c limit n :
  Chat.orders_by_created_at_desc order_by →
  ChatWS.heap s !! a = Some c →
  msg !! "message" = Some (JString text) → text ≠ "" →
  closed (ChatWS.broadcast s) = false → full (ChatWS.broadcast s) = false →
  (∀ m, m ∈ ChatWS.chatws_messages s → (Message.CreatedAt m < inserted_at)%Z) →
  sqlite_integer (default "50" limit) = Some n → n ≠ 0%Z →
  ∃ s' earlier,
    ChatWS.handleChatMessage inserted_at now a msg s = Done s' ∧
    ChatWSHttp.GetRecentMessagesHandler sqlite_integer order_by limit s'
      = ChatWSHttp.Recent200
          (earlier ++ [Message.mk (Z.of_nat (S (length (ChatWS.chatws_messages s))))
                         (ChatWS.UserID c) (ChatWS.Username c) (ChatWS.PhotoURL c)
                         text inserted_at]) ∧
    earlier ⊆+ ChatWS.chatws_messages s.
Proof.
  intros Hord Hc Hmsg Htext Hopen Hroom Hnew Hlimit Hn.
  set (row := Message.mk (Z.of_nat (S (length (ChatWS.chatws_messages s))))
                (ChatWS.UserID c) (ChatWS.Username c) (ChatWS.PhotoURL c)
                text inserted_at).
  destruct (SqlFacts.newest_row_first order_by n (ChatWS.chatws_messages s) row Hord)
    as [rest Hrest]; [exact Hnew|exact Hn|].
  unfold ChatWS.handleChatMessage, ChatWS.broadcast_send.
  rewrite Hc, Hmsg. rewrite decide_False by done. simpl.
  rewrite try_send_open by done. rewrite Hroom.
  eexists _, (reverse rest). split; [reflexivity|].
  unfold ChatWSHttp.GetRecentMessagesHandler. rewrite Hlimit. simpl. fold row.
  rewrite Hrest. split; [by rewrite reverse_cons|].
  rewrite reverse_Permutation.
  destruct (ChatFacts.limit_takes_the_newest order_by n
              (ChatWS.chatws_messages s ++ [row])%list Hord) as (_ & _ & Hsub & _).
  rewrite Hrest in Hsub.
  assert (row :: rest ⊆+ row :: ChatWS.chatws_messages s) as Hsub'.
  { etrans; [exact Hsub|]. apply Permutation_submseteq.
    by rewrite Permutation_app_comm. }
  by apply submseteq_app_inv_l with (k := [row]) in Hsub'.
Qed.

Lemma chatws_message_is_last_of_recent_witness :
  ∃ s' earlier,
    ChatWS.handleChatMessage 100 101 0 chat_frame (ChatWS.shared ws_joined) = Done s' ∧
    ChatWSHttp.GetRecentMessagesHandler Samples.sqlite_integer
      Samples.order_by_created_at_desc None s'
      = ChatWSHttp.Recent200 (earlier ++ [Message.mk 1 "u1" "Mallory" "" "hi" 100]).
Proof.
  destruct (chatws_message_is_last_of_recent Samples.sqlite_integer
              Samples.order_by_created_at_desc 100 101 0 chat_frame "hi"
              (ChatWS.shared ws_joined)
              (ChatWS.mkWSClient "u1" "Mallory" ""
                 (mkChan [ChatWS.EvOnline [] 1] 256 false)) None 50)
    as (s' & earlier & Hsend & Hget & _).
  - apply ChatFacts.merge_sort_orders.
  - vm_compute. reflexivity.
  - vm_compute. reflexivity.
  - discriminate.
  - vm_compute. reflexivity.
  - vm_compute. reflexivity.
  - intros m Hm. exfalso.
    apply (SqlFacts.not_in_empty _ m Hm). vm_compute. reflexivity.
  - vm_compute. reflexivity.
  - discriminate.
  - exists s', earlier. split; [exact Hsend|exact Hget].
Defined.

(** X8: a message sent in the SSE chat shows up in the admin listing. For
    a sender with a user row who is not banned, [sendMessageHandler]
    answers 200 with the next id, and if the database time is later than
    that of every stored row, the list of [getAllMessagesHandler] (for a
    limit other than 0) starts with the new row; the rows after it are rows
    stored before. *)
Theorem sent_message_is_first_of_all_messages
    (sqlite_integer : string → option Z)
    (order_by : list Message.t → list Message.t)
    current_timestamp now userID text s u limit n :
  Chat.orders_by_created_at_desc order_by →
  Chat.wf s → userID ≠ "" → text ≠ "" →
  Chat.isUserBanned userID s = false → Chat.chat_users s !! userID = Some u →
  (∀ m, m ∈ Chat.chat_messages s → (Message.CreatedAt m < current_timestamp)%Z) →
  sqlite_integer (default "100" limit) = Some n → n ≠ 0%Z →
  ∃ s' rest,
    Chat.sendMessageHandler current_timestamp now userID text s
      = Some (s', Chat.Send200 (Chat.next_message_id s) text) ∧
    ChatHttp.getAllMessagesHandler sqlite_integer order_by limit s'
      = ChatHttp.All200
          (Message.mk (Chat.next_message_id s) userID (Chat.username u)
                      (Chat.photo_url u) text current_timestamp :: rest)
          (S (length rest)) ∧
    rest ⊆+ Chat.chat_messages s.
Proof.
  intros Hord Hwf HU Htext Hban Hu Hnew Hlimit Hn.
  set (row := Message.mk (Chat.next_message_id s) userID (Chat.username u)
                (Chat.photo_url u) text current_timestamp).
  set (message := Message.mk (Chat.next_message_id s) userID (Chat.username u)
                    (Chat.photo_url u) text now).
  set (s1 := Chat.set_messages (Chat.chat_messages s ++ [row])%list
               (Chat.next_message_id s + 1) s).
  destruct (ChatFacts.broadcastMessage_in_spec (map_to_list (Chat.clients s1))
              message userID s1) as (s' & sent & blocked & Hb & _ & Hs' & _);
    [by apply ChatFacts.wf_set_messages|done|].
  destruct (SqlFacts.newest_row_first order_by n (Chat.chat_messages s) row Hord)
    as [rest Hrest]; [exact Hnew|exact Hn|].
  exists s', rest. split_and!.
  - unfold Chat.sendMessageHandler.
    rewrite decide_False by (by intros [?|?]). rewrite Hban, Hu.
    fold row. fold message. fold s1. unfold Chat.broadcastMessage. by rewrite Hb.
  - unfold ChatHttp.getAllMessagesHandler. rewrite Hlimit.
    assert (Chat.chat_messages s' = (Chat.chat_messages s ++ [row])%list) as ->
      by (by rewrite Hs').
    by rewrite Hrest.
  - destruct (ChatFacts.limit_takes_the_newest order_by n
                (Chat.chat_messages s ++ [row])%list Hord) as (_ & _ & Hsub & _).
    rewrite Hrest in Hsub.
    assert (row :: rest ⊆+ row :: Chat.chat_messages s) as Hsub'.
    { etrans; [exact Hsub|]. apply Permutation_submseteq.
      by rewrite Permutation_app_comm. }
    by apply submseteq_app_inv_l with (k := [row]) in Hsub'.
Qed.

Lemma sent_message_is_first_of_all_messages_witness :
  ∃ s' rest,
    Chat.sendMessageHandler 100 101 "bob@x" "hi" three_users_state
      = Some (s', Chat.Send200 (Chat.next_message_id three_users_state) "hi") ∧
    ChatHttp.getAllMessagesHandler Samples.sqlite_integer
      Samples.order_by_created_at_desc None s'
      = ChatHttp.All200
          (Message.mk (Chat.next_message_id three_users_state) "bob@x" "Bob" "" "hi" 100
             :: rest) (S (length rest)).
Proof.
  destruct (sent_message_is_first_of_all_messages Samples.sqlite_integer
              Samples.order_by_created_at_desc 100 101 "bob@x" "hi"
              three_users_state (Chat.mkUserRow "bob@x" "Bob" "" true) None 100)
    as (s' & rest & Hsend & Hget & _).
  - apply ChatFacts.merge_sort_orders.
  - apply (bool_decide_unpack _). vm_compute. exact I.
  - discriminate.
  - discriminate.
  - vm_compute. reflexivity.
  - vm_compute. reflexivity.
  - intros m Hm. exfalso.
    apply (SqlFacts.not_in_empty _ m Hm). vm_compute. reflexivity.
  - vm_compute. reflexivity.
  - discriminate.
  - exists s', rest. split; [exact Hsend|exact Hget].
Defined.

Module ChatWSMoreFacts.
Import ChatWS ChatWSFacts.

Lemma omap_length_lt {A B} (f : A → option B) (l : list A) :
  (length (omap f l) ≤ length l)%nat ∧
  (∀ x, x ∈ l → f x = None → (length (omap f l) < length l)%nat).
Proof.
  induction l as [|y l [IHle IHlt]]; simpl.
  - split; [done|]. by intros x Hx%elem_of_nil.
  - destruct (f y) eqn:Hy; simpl; change (list_omap A B f l) with (omap f l).
    + split; [lia|]. intros x Hx Hnone.
      apply elem_of_cons in Hx as [->|Hx]; [congruence|].
      specialize (IHlt x Hx Hnone). lia.
    + split; [lia|]. intros _ _ _. lia.
Qed.

Lemma with_Send_closed c :
  closed (Send c) = true →
  with_Send (mkChan (buf (Send c)) (cap (Send c)) true) c = c.
Proof. destruct c as [? ? ? [? ? ?]]. simpl. by intros ->. Qed.

(** [disconnect] in a well-formed state whose broadcast queue has room. *)
Lemma disconnect_spec a s c :
  wf s → heap s !! a = Some c → full (broadcast s) = false →
  ∃ s',
    disconnect a s = Done s' ∧
    wf s' ∧
    clients s' = clients s ∖ {[a]} ∧
    heap s' !! a = Some (with_Send (mkChan (buf (Send c)) (cap (Send c)) true) c) ∧
    (∀ b, b ≠ a → heap s' !! b = heap s !! b) ∧
    next_client s' = next_client s ∧
    broadcast s'
      = mkChan (buf (broadcast s)
                  ++ [EvUserLeft (UserID c) (Username c) (size (clients s ∖ {[a]}))])
               (cap (broadcast s)) false ∧
    chatws_users s'
      = alter (λ r, mkUserRow (email r) (username r) (photo_url r) false)
              (UserID c) (chatws_users s) ∧
    chatws_messages s' = chatws_messages s.
Proof.
  intros Hwf Hc Hroom.
  assert (closed (broadcast s) = false) as Hbopen by apply Hwf.
  assert (∃ s1, disconnect_locked a s = Some s1 ∧ wf s1 ∧
                clients s1 = clients s ∖ {[a]} ∧
                heap s1 !! a
                  = Some (with_Send (mkChan (buf (Send c)) (cap (Send c)) true) c) ∧
                (∀ b, b ≠ a → heap s1 !! b = heap s !! b) ∧
                next_client s1 = next_client s ∧
                broadcast s1 = broadcast s ∧ chatws_users s1 = chatws_users s ∧
                chatws_messages s1 = chatws_messages s) as (s1 & Hlock & Hwf1 & Hcl1 & Ha1 & Hb1 & Hn1 & Hbr1 & Hu1 & Hm1).
  { unfold disconnect_locked. case_decide as Hin.
    - pose proof Hwf as (Hreg & _). destruct (Hreg a Hin) as (c' & Hc' & Hopen).
      rewrite Hc in Hc'. injection Hc' as <-.
      rewrite Hc. simpl. rewrite (close_open _ Hopen). simpl.
      eexists. split; [done|]. split_and!; try done.
      + by apply (wf_drop s a c).
      + simpl. by rewrite lookup_insert_eq.
      + intros b Hb. simpl. by rewrite lookup_insert_ne.
    - exists s. split; [done|]. split_and!; try done.
      + apply set_eq. intros x. rewrite elem_of_difference, elem_of_singleton.
        split; [|by intros [? _]]. intros Hx. split; [done|]. by intros ->.
      + rewrite Hc. f_equal. symmetry. apply with_Send_closed.
        pose proof Hwf as (_ & _ & _ & Hgone). by apply (Hgone a c). }
  unfold disconnect. rewrite Hlock. unfold disconnect_notify. rewrite Ha1. simpl.
  unfold broadcastUserLeft. simpl. rewrite Ha1. simpl.
  unfold broadcast_send. simpl. rewrite Hbr1.
  rewrite (try_send_open _ _ Hbopen), Hroom.
  eexists. split; [done|]. split_and!; simpl; try done.
  - apply wf_set_broadcast; [|done]. by apply wf_set_users.
  - unfold getOnlineCount. simpl. by rewrite Hcl1.
  - by rewrite Hu1.
Qed.

End ChatWSMoreFacts.

(** X9: the online list sent to a new connection. When the connection's
    queue has room, [sendOnlineUsersToClient] appends one event to it, with
    the registry size as count and a list that holds every registered
    client of another user id, none of the connection's own user id, and
    therefore fewer entries than the registry. *)
Theorem online_list_leaves_out_own_identity a s client :
  ChatWS.wf s → a ∈ ChatWS.clients s → ChatWS.heap s !! a = Some client →
  full (ChatWS.Send client) = false →
  let users := ChatWS.online_users_except (ChatWS.UserID client) s in
  ∃ s' c',
    ChatWS.sendOnlineUsersToClient a s = Done s' ∧
    ChatWS.heap s' !! a = Some c' ∧
    buf (ChatWS.Send c')
      = (buf (ChatWS.Send client)
           ++ [ChatWS.EvOnline users (size (ChatWS.clients s))])%list ∧
    Forall (λ u, ChatWS.ou_user_id u ≠ ChatWS.UserID client) users ∧
    (∀ b c, b ∈ ChatWS.clients s → ChatWS.heap s !! b = Some c →
            ChatWS.UserID c ≠ ChatWS.UserID client →
            ChatWS.mkOnlineUser (ChatWS.UserID c) (ChatWS.Username c) (ChatWS.PhotoURL c)
              ∈ users) ∧
    (length users < size (ChatWS.clients s))%nat.
Proof.
  intros Hwf Hin Hc Hroom users.
  assert (closed (ChatWS.Send client) = false) as Hopen.
  { destruct Hwf as (Hreg & _). destruct (Hreg a Hin) as (c' & Hc' & Ho).
    rewrite Hc in Hc'. by injection Hc' as <-. }
  unfold ChatWS.sendOnlineUsersToClient. rewrite Hc. fold users.
  rewrite (try_send_open _ _ Hopen), Hroom.
  eexists _, _. split; [reflexivity|]. split.
  { simpl. by rewrite lookup_insert_eq. }
  split; [done|]. split_and!.
  - apply Forall_forall. intros u Hu. subst users.
    unfold ChatWS.online_users_except in Hu.
    apply list_elem_of_omap in Hu as (b & _ & Hb).
    destruct (ChatWS.heap s !! b) as [c|]; [|done]. simpl in Hb.
    case_decide; [|done]. by injection Hb as <-.
  - intros b c Hb Hcb Hne. subst users. unfold ChatWS.online_users_except.
    apply list_elem_of_omap. exists b. split; [by apply elem_of_elements|].
    rewrite Hcb. simpl. by rewrite decide_True.
  - subst users. unfold ChatWS.online_users_except.
    apply (proj2 (ChatWSMoreFacts.omap_length_lt _ (elements (ChatWS.clients s))) a).
    + by apply elem_of_elements.
    + rewrite Hc. simpl. by rewrite decide_False by (by intros ?).
Qed.

Lemma online_list_leaves_out_own_identity_witness :
  ∃ s' c',
    ChatWS.sendOnlineUsersToClient 0 (ChatWS.shared ws_joined) = Done s' ∧
    ChatWS.heap s' !! 0 = Some c' ∧
    length (buf (ChatWS.Send c')) = 2.
Proof.
  destruct (online_list_leaves_out_own_identity 0 (ChatWS.shared ws_joined)
              (default (ChatWS.mkWSClient "" "" "" (make 0))
                       (ChatWS.heap (ChatWS.shared ws_joined) !! 0)))
    as (s' & c' & Hsend & Hc' & Hbuf & _).
  - apply (ChatWSFacts.ws_reachable_inv Samples.base64_DecodeString Samples.json_Unmarshal).
    exists sched_join. vm_compute. reflexivity.
  - apply (bool_decide_unpack _). vm_compute. exact I.
  - vm_compute. reflexivity.
  - vm_compute. reflexivity.
  - exists s', c'. split; [exact Hsend|]. split; [exact Hc'|].
    rewrite Hbuf. vm_compute. reflexivity.
Defined.

(** X10: [disconnect] of the WebSocket chat. When the broadcast channel
    has room, it returns in a well-formed state, the client is removed from
    the registry, its channel is closed with its content kept, a user-left
    event with the new registry size is queued, and the user row is marked
    offline; a second [disconnect] of the same client (both pumps defer it)
    closes nothing and changes neither the registry nor the client. *)
Theorem disconnect_unregisters_once a s c :
  ChatWS.wf s → ChatWS.heap s !! a = Some c → full (ChatWS.broadcast s) = false →
  ∃ s' c',
    ChatWS.disconnect a s = Done s' ∧
    ChatWS.wf s' ∧
    ChatWS.clients s' = ChatWS.clients s ∖ {[a]} ∧
    ChatWS.heap s' !! a = Some c' ∧
    ChatWS.Send c' = mkChan (buf (ChatWS.Send c)) (cap (ChatWS.Send c)) true ∧
    buf (ChatWS.broadcast s')
      = (buf (ChatWS.broadcast s)
           ++ [ChatWS.EvUserLeft (ChatWS.UserID c) (ChatWS.Username c)
                 (size (ChatWS.clients s ∖ {[a]}))])%list ∧
    (∀ r, ChatWS.chatws_users s !! ChatWS.UserID c = Some r →
          ChatWS.is_online <$> ChatWS.chatws_users s' !! ChatWS.UserID c = Some false) ∧
    (full (ChatWS.broadcast s') = false →
     ∃ s'', ChatWS.disconnect a s' = Done s'' ∧
            ChatWS.clients s'' = ChatWS.clients s' ∧
            ChatWS.heap s'' !! a = Some c').
Proof.
  intros Hwf Hc Hroom.
  destruct (ChatWSMoreFacts.disconnect_spec a s c Hwf Hc Hroom)
    as (s' & Hd & Hwf' & Hcl & Ha & _ & _ & Hbr & Hu & _).
  exists s', (ChatWS.with_Send (mkChan (buf (ChatWS.Send c)) (cap (ChatWS.Send c)) true) c).
  split_and!; try done.
  - by rewrite Hbr.
  - intros r Hr. rewrite Hu, lookup_alter_eq, Hr. done.
  - intros Hroom'.
    destruct (ChatWSMoreFacts.disconnect_spec a s' _ Hwf' Ha Hroom')
      as (s'' & Hd' & _ & Hcl' & Ha' & _).
    exists s''. split; [done|]. split.
    + rewrite Hcl', Hcl. apply set_eq. intros x.
      rewrite !elem_of_difference. tauto.
    + by rewrite Ha'.
Qed.

Lemma disconnect_unregisters_once_witness :
  ∃ s' c',
    ChatWS.disconnect 0 (ChatWS.shared ws_joined) = Done s' ∧
    ChatWS.clients s' = ChatWS.clients (ChatWS.shared ws_joined) ∖ {[0]} ∧
    ChatWS.heap s' !! 0 = Some c' ∧
    closed (ChatWS.Send c') = true.
Proof.
  destruct (disconnect_unregisters_once 0 (ChatWS.shared ws_joined)
              (ChatWS.mkWSClient "u1" "Mallory" ""
                 (mkChan [ChatWS.EvOnline [] 1] 256 false)))
    as (s' & c' & Hd & _ & Hcl & Hc' & Hsend & _).
  - exact (proj1 (ChatWSFacts.ws_reachable_inv _ _ _ ws_joined_reachable)).
  - vm_compute. reflexivity.
  - vm_compute. reflexivity.
  - exists s', c'. split; [exact Hd|]. split; [exact Hcl|]. split; [exact Hc'|].
    rewrite Hsend. reflexivity.
Defined.

Module ChatMoreFacts.
Import Chat ChatFacts.

Lemma set_blocks_id s : set_blocks (chat_blocks s) s = s.
Proof. by destruct s. Qed.

Lemma set_blocks_twice b b' s : set_blocks b (set_blocks b' s) = set_blocks b s.
Proof. done. Qed.

Lemma filter_none {A} (P : A → Prop) `{∀ x, Decision (P x)} (l : list A) :
  (∀ x, x ∈ l → ¬ P x) → filter P l = [].
Proof.
  induction l as [|y l IH]; intros Hall; [done|].
  rewrite filter_cons_False by (apply Hall; left).
  apply IH. intros x Hx. apply Hall. by right.
Qed.

Lemma count_in_NoDup {A} `{EqDecision A} (x : A) (l : list A) :
  NoDup l → x ∈ l → length (filter (λ y, y = x) l) = 1.
Proof.
  induction 1 as [|y l Hy Hnd IH]; intros Hx; [by apply elem_of_nil in Hx|].
  destruct (decide (y = x)) as [->|Hne].
  - rewrite filter_cons_True by done. simpl. f_equal.
    rewrite (filter_none _ l); [done|]. by intros z Hz ->.
  - rewrite filter_cons_False by done. apply IH.
    apply elem_of_cons in Hx as [->|Hx]; done.
Qed.

Lemma blocks_after_block A B s :
  A ≠ "" → B ≠ "" →
  chat_blocks (blockUserHandler A B s)
    = if decide ((A, B) ∈ chat_blocks s) then chat_blocks s
      else (chat_blocks s ++ [(A, B)])%list.
Proof.
  intros HA HB. unfold blockUserHandler.
  rewrite decide_False by (by intros [?|?]). by case_decide.
Qed.

Lemma blocks_after_unblock A B s :
  A ≠ "" → B ≠ "" →
  chat_blocks (unblockUserHandler A B s)
    = filter (λ p, p ≠ (A, B)) (chat_blocks s).
Proof.
  intros HA HB. unfold unblockUserHandler.
  by rewrite decide_False by (by intros [?|?]).
Qed.

End ChatMoreFacts.

(** X11: blocking and unblocking. After [blockUserHandler] the pair is
    stored exactly once, and blocking again changes nothing; after
    [unblockUserHandler] it is gone; no other pair is added or removed; and
    blocking a pair that was not stored and then unblocking it gives back
    the state before. *)
Theorem block_then_unblock A B s :
  A ≠ "" → B ≠ "" → NoDup (Chat.chat_blocks s) →
  let s1 := Chat.blockUserHandler A B s in
  let s2 := Chat.unblockUserHandler A B s1 in
  NoDup (Chat.chat_blocks s1) ∧
  Chat.block_count A B s1 = 1 ∧
  Chat.blockUserHandler A B s1 = s1 ∧
  NoDup (Chat.chat_blocks s2) ∧
  Chat.block_count A B s2 = 0 ∧
  (∀ p, p ≠ (A, B) →
        (p ∈ Chat.chat_blocks s1 ↔ p ∈ Chat.chat_blocks s) ∧
        (p ∈ Chat.chat_blocks s2 ↔ p ∈ Chat.chat_blocks s)) ∧
  ((A, B) ∉ Chat.chat_blocks s → s2 = s).
Proof.
  intros HA HB Hnd s1 s2.
  pose proof (ChatMoreFacts.blocks_after_block A B s HA HB) as H1. fold s1 in H1.
  pose proof (ChatMoreFacts.blocks_after_unblock A B s1 HA HB) as H2. fold s2 in H2.
  assert ((A, B) ∈ Chat.chat_blocks s1) as Hin1.
  { rewrite H1. case_decide; [done|]. apply elem_of_app. right. by left. }
  assert (NoDup (Chat.chat_blocks s1)) as Hnd1.
  { rewrite H1. case_decide as Hin; [done|]. apply NoDup_app. split; [done|].
    split; [|apply NoDup_singleton].
    intros p Hp Hp'%list_elem_of_singleton. by subst. }
  assert (∀ p, p ≠ (A, B) → (p ∈ Chat.chat_blocks s1 ↔ p ∈ Chat.chat_blocks s)) as Hs1.
  { intros p Hp. rewrite H1. case_decide; [done|].
    rewrite elem_of_app, list_elem_of_singleton. tauto. }
  split_and!.
  - done.
  - unfold Chat.block_count. by apply ChatMoreFacts.count_in_NoDup.
  - unfold Chat.blockUserHandler at 1.
    rewrite decide_False by (by intros [?|?]). by rewrite decide_True.
  - rewrite H2. by apply NoDup_filter.
  - apply ChatFacts.block_count_zero. rewrite H2.
    intros [Hne _]%list_elem_of_filter. done.
  - intros p Hp. split; [by apply Hs1|].
    rewrite H2, list_elem_of_filter. rewrite (Hs1 p Hp). tauto.
  - intros Hnot. subst s2 s1.
    unfold Chat.unblockUserHandler, Chat.blockUserHandler.
    rewrite !decide_False by (done || by intros [?|?]). simpl.
    rewrite filter_app.
    rewrite (ChatFacts.filter_all _ (Chat.chat_blocks s)) by (by intros p Hp ->).
    rewrite filter_cons_False by (by intros ?). rewrite filter_nil, app_nil_r.
    rewrite ChatMoreFacts.set_blocks_twice. apply ChatMoreFacts.set_blocks_id.
Qed.

Lemma block_then_unblock_witness :
  Chat.block_count "carol@x" "bob@x" (Chat.blockUserHandler "carol@x" "bob@x" three_users_state)
    = 1 ∧
  Chat.unblockUserHandler "carol@x" "bob@x"
    (Chat.blockUserHandler "carol@x" "bob@x" three_users_state) = three_users_state.
Proof.
  destruct (block_then_unblock "carol@x" "bob@x" three_users_state)
    as (_ & Hcount & _ & _ & _ & _ & Hback).
  - discriminate.
  - discriminate.
  - apply (bool_decide_unpack _). vm_compute. exact I.
  - split; [exact Hcount|]. apply Hback.
    apply (bool_decide_unpack _). vm_compute. exact I.
Defined.

(** X12: [getBlockedUsersHandler] lists exactly the users that the
    requester blocked and that have a user row, with the name and photo of
    that row, in whatever order the database returns them; a user appears
    in the list after being blocked and no longer after being unblocked. *)
Theorem blocked_users_are_listed
    (scan_order : list Chat.OnlineUser → list Chat.OnlineUser) userID s :
  ChatHttp.rearranges scan_order → userID ≠ "" →
  ∃ blocked,
    ChatHttp.getBlockedUsersHandler scan_order userID s = ChatHttp.Blocked200 blocked ∧
    (∀ u, u ∈ blocked ↔
          ∃ r, (userID, Chat.ou_user_id u) ∈ Chat.chat_blocks s ∧
               Chat.chat_users s !! Chat.ou_user_id u = Some r ∧
               u = Chat.mkOnlineUser (Chat.ou_user_id u) (Chat.username r)
                                     (Chat.photo_url r)) ∧
    (∀ B r, B ≠ "" → Chat.chat_users s !! B = Some r →
       ∃ l1 l2,
         ChatHttp.getBlockedUsersHandler scan_order userID
           (Chat.blockUserHandler userID B s) = ChatHttp.Blocked200 l1 ∧
         Chat.mkOnlineUser B (Chat.username r) (Chat.photo_url r) ∈ l1 ∧
         ChatHttp.getBlockedUsersHandler scan_order userID
           (Chat.unblockUserHandler userID B s) = ChatHttp.Blocked200 l2 ∧
         ∀ u, u ∈ l2 → Chat.ou_user_id u ≠ B).
Proof.
  intros Hscan HU.
  assert (∀ t, ∃ blocked,
            ChatHttp.getBlockedUsersHandler scan_order userID t
              = ChatHttp.Blocked200 blocked ∧
            (∀ u, u ∈ blocked ↔
               ∃ r, (userID, Chat.ou_user_id u) ∈ Chat.chat_blocks t ∧
                    Chat.chat_users t !! Chat.ou_user_id u = Some r ∧
                    u = Chat.mkOnlineUser (Chat.ou_user_id u) (Chat.username r)
                                          (Chat.photo_url r))) as Hlist.
  { intros t. unfold ChatHttp.getBlockedUsersHandler.
    rewrite decide_False by done. eexists. split; [reflexivity|].
    intros u. rewrite (Hscan _), list_elem_of_omap. split.
    - intros ([a b] & Hp & Hf). simpl in Hf. case_decide as Ha; [|done]. subst a.
      destruct (Chat.chat_users t !! b) as [r|] eqn:Hr; [|done].
      simpl in Hf. injection Hf as <-. simpl. eauto.
    - intros (r & Hp & Hr & Hu). exists (userID, Chat.ou_user_id u).
      split; [done|]. simpl. rewrite decide_True by done. rewrite Hr. simpl.
      by rewrite <- Hu. }
  destruct (Hlist s) as (blocked & Hget & Hiff).
  exists blocked. split; [done|]. split; [done|].
  intros B r HB Hr.
  destruct (Hlist (Chat.blockUserHandler userID B s)) as (l1 & Hget1 & Hiff1).
  destruct (Hlist (Chat.unblockUserHandler userID B s)) as (l2 & Hget2 & Hiff2).
  exists l1, l2. split; [done|]. split; [|split; [done|]].
  - apply Hiff1. exists r. simpl.
    rewrite (ChatMoreFacts.blocks_after_block userID B s HU HB).
    split; [|split; [|done]].
    + case_decide; [done|]. apply elem_of_app. right. by left.
    + unfold Chat.blockUserHandler. rewrite decide_False by (by intros [?|?]).
      by case_decide.
  - intros u Hu%Hiff2. destruct Hu as (r' & Hin & _).
    rewrite (ChatMoreFacts.blocks_after_unblock userID B s HU HB) in Hin.
    apply list_elem_of_filter in Hin as [Hne _]. intros Heq. apply Hne. by rewrite Heq.
Qed.

Lemma blocked_users_are_listed_witness :
  ∃ blocked,
    ChatHttp.getBlockedUsersHandler id "alice@x" three_users_state
      = ChatHttp.Blocked200 blocked ∧
    Chat.mkOnlineUser "bob@x" "Bob" "" ∈ blocked.
Proof.
  destruct (blocked_users_are_listed id "alice@x" three_users_state)
    as (blocked & Hget & Hiff & _).
  - intros rows. reflexivity.
  - discriminate.
  - exists blocked. split; [exact Hget|]. apply Hiff.
    exists (Chat.mkUserRow "bob@x" "Bob" "" true). split_and!.
    + apply (bool_decide_unpack _). vm_compute. exact I.
    + vm_compute. reflexivity.
    + reflexivity.
Defined.

Module ChatHttpFacts.
Import Chat ChatFacts.



Lemma wf_set_banned b s : wf s → wf (set_banned b s).
Proof. by intros (? & ? & ? & ?). Qed.

Lemma wf_set_blocks b s : wf s → wf (set_blocks b s).
Proof. by intros (? & ? & ? & ?). Qed.

Lemma isUserBanned_spec userID s :
  isUserBanned userID s = true ↔ is_Some (chat_banned_users s !! userID).
Proof.
  unfold isUserBanned. split.
  - intros Hb. by apply bool_decide_eq_true in Hb.
  - intros Hs. by apply bool_decide_eq_true.
Qed.

Lemma ban_upsert_lookup userID username bannedBy reason t other :
  is_Some (ChatHttp.ban_upsert userID username bannedBy reason t !! userID) ∧
  (other ≠ userID →
   ChatHttp.ban_upsert userID username bannedBy reason t !! other = t !! other).
Proof.
  unfold ChatHttp.ban_upsert. destruct (t !! userID) as [row|].
  - rewrite lookup_insert_eq. split; [eauto|]. intros Hne. by rewrite lookup_insert_ne.
  - rewrite lookup_insert_eq. split; [eauto|]. intros Hne. by rewrite lookup_insert_ne.
Qed.

(** The ban of a user that has a row. *)
Lemma ban_spec userID reason bannedBy s u :
  userID ≠ "" → chat_users s !! userID = Some u →
  ∃ s',
    ChatHttp.banUserHandler userID reason bannedBy s
      = (s', ChatHttp.Ban200 userID (username u)
               (length (filter (λ m, Message.UserID m = userID) (chat_messages s)))
               (if decide (reason = "") then "Violation of community guidelines"
                else reason)) ∧
    s' = set_messages (filter (λ m, Message.UserID m ≠ userID) (chat_messages s))
           (next_message_id s)
           (set_banned (chat_banned_users s') s) ∧
    isUserBanned userID s' = true ∧
    (∀ other, other ≠ userID → isUserBanned other s' = isUserBanned other s).
Proof.
  intros HU Hu. unfold ChatHttp.banUserHandler.
  rewrite decide_False by done. rewrite Hu.
  eexists. split; [reflexivity|]. split; [done|]. split.
  - apply isUserBanned_spec. simpl. apply ban_upsert_lookup. exact userID.
  - intros other Hne. unfold isUserBanned. simpl.
    by rewrite (proj2 (ban_upsert_lookup userID _ _ _ _ other) Hne).
Qed.

Global Instance username_le_total : Total username_le.
Proof.
  intros u v. unfold username_le.
  destruct (String.leb_total (ou_username u) (ou_username v)) as [H|H];
    rewrite H; [by left|by right].
Qed.


End ChatHttpFacts.





(** X15: [unbanUserHandler] answers 404 for a user who is not banned, and
    for a banned user removes the ban, and only that one, keeping the
    messages; a second unban answers 404. After a ban and an unban the
    user's earlier messages stay deleted, and the user can send again: the
    next message gets the id the counter had before the ban. *)
Theorem unban_restores_sending userID s :
  userID ≠ "" →
  (Chat.isUserBanned userID s = false →
   ChatHttp.unbanUserHandler userID s = (s, ChatHttp.Unban404)) ∧
  (Chat.isUserBanned userID s = true →
   ∃ s', ChatHttp.unbanUserHandler userID s = (s', ChatHttp.Unban200 userID) ∧
         Chat.isUserBanned userID s' = false ∧
         (∀ other, other ≠ userID →
                   Chat.isUserBanned other s' = Chat.isUserBanned other s) ∧
         Chat.chat_messages s' = Chat.chat_messages s ∧
         ChatHttp.unbanUserHandler userID s' = (s', ChatHttp.Unban404)) ∧
  (∀ u reason bannedBy current_timestamp now text,
     Chat.wf s → Chat.chat_users s !! userID = Some u → text ≠ "" →
     let s1 := (ChatHttp.banUserHandler userID reason bannedBy s).1 in
     let s2 := (ChatHttp.unbanUserHandler userID s1).1 in
     Chat.chat_messages s2
       = filter (λ m, Message.UserID m ≠ userID) (Chat.chat_messages s) ∧
     ∃ s3, Chat.sendMessageHandler current_timestamp now userID text s2
             = Some (s3, Chat.Send200 (Chat.next_message_id s) text)).
Proof.
  intros HU.
  assert (∀ t, Chat.isUserBanned userID t = true →
   ∃ t', ChatHttp.unbanUserHandler userID t = (t', ChatHttp.Unban200 userID) ∧
         t' = Chat.set_banned (delete userID (Chat.chat_banned_users t)) t ∧
         Chat.isUserBanned userID t' = false ∧
         (∀ other, other ≠ userID →
                   Chat.isUserBanned other t' = Chat.isUserBanned other t) ∧
         ChatHttp.unbanUserHandler userID t' = (t', ChatHttp.Unban404)) as Hunban.
  { intros t Hb. apply ChatHttpFacts.isUserBanned_spec in Hb as [row Hrow].
    unfold ChatHttp.unbanUserHandler at 1. rewrite decide_False by done. rewrite Hrow.
    eexists. split; [reflexivity|]. split; [done|]. split_and!.
    - unfold Chat.isUserBanned. simpl. rewrite lookup_delete_eq.
      apply bool_decide_eq_false. by intros [? ?].
    - intros other Hne. unfold Chat.isUserBanned. simpl.
      by rewrite lookup_delete_ne.
    - unfold ChatHttp.unbanUserHandler. rewrite decide_False by done. simpl.
      by rewrite lookup_delete_eq. }
  split_and!.
  - intros Hb. unfold ChatHttp.unbanUserHandler. rewrite decide_False by done.
    destruct (Chat.chat_banned_users s !! userID) as [row|] eqn:Hrow; [|done].
    assert (Chat.isUserBanned userID s = true) as Hb'
      by (apply ChatHttpFacts.isUserBanned_spec; eauto).
    congruence.
  - intros Hb. destruct (Hunban s Hb) as (s' & Hun & Hs' & Hnot & Hother & Hagain).
    exists s'. split_and!; try done. by rewrite Hs'.
  - intros u reason bannedBy ts now text Hwf Hu Htext s1 s2.
    destruct (ChatHttpFacts.ban_spec userID reason bannedBy s u HU Hu)
      as (t & Hban & Ht & Hbanned & _).
    assert (s1 = t) as Hs1 by (subst s1; by rewrite Hban).
    destruct (Hunban t Hbanned) as (t' & Hun & Ht' & Hnot & _).
    assert (s2 = t') as Hs2 by (subst s2; rewrite Hs1; by rewrite Hun).
    rewrite Hs2.
    assert (Chat.chat_messages t'
            = filter (λ m, Message.UserID m ≠ userID) (Chat.chat_messages s)) as Hm.
    { rewrite Ht'. simpl. by rewrite Ht. }
    split; [done|].
    assert (Chat.wf t') as Hwf'.
    { rewrite Ht'. apply ChatHttpFacts.wf_set_banned. rewrite Ht.
      apply ChatFacts.wf_set_messages. by apply ChatHttpFacts.wf_set_banned. }
    assert (Chat.chat_users t' = Chat.chat_users s) as Husers
      by (rewrite Ht'; simpl; by rewrite Ht).
    assert (Chat.next_message_id t' = Chat.next_message_id s) as Hid
      by (rewrite Ht'; simpl; by rewrite Ht).
    unfold Chat.sendMessageHandler.
    rewrite decide_False by (by intros [?|?]). rewrite Hnot, Husers, Hu, Hid.
    set (message := Message.mk _ _ _ _ _ now).
    set (t1 := Chat.set_messages _ _ t').
    destruct (ChatFacts.broadcastMessage_in_spec (map_to_list (Chat.clients t1))
                message userID t1) as (s3 & sent & blocked & Hb & _).
    { by apply ChatFacts.wf_set_messages. }
    { done. }
    unfold Chat.broadcastMessage. rewrite Hb. eauto.
Qed.

Lemma unban_restores_sending_witness :
  ∃ s3,
    Chat.sendMessageHandler 100 101 "bob@x" "hi"
      (ChatHttp.unbanUserHandler "bob@x"
         (ChatHttp.banUserHandler "bob@x" "" "" history_state).1).1
      = Some (s3, Chat.Send200 10 "hi").
Proof.
  destruct (proj2 (proj2 (unban_restores_sending "bob@x" history_state ltac:(discriminate)))
              (Chat.mkUserRow "bob@x" "Bob" "" true) "" "" 100%Z 101%Z "hi")
    as (_ & s3 & Hsend).
  - apply (bool_decide_unpack _). vm_compute. exact I.
  - vm_compute. reflexivity.
  - discriminate.
  - exists s3. exact Hsend.
Defined.

Module ChatRunFacts.
Import Chat ChatFacts.

Lemma not_registered_values (m : gmap string nat) a :
  (∀ uid, m !! uid ≠ Some a) → a ∉ (map_to_list m).*2.
Proof.
  intros Hno Hin. apply list_elem_of_fmap in Hin as ([uid a'] & -> & Hin).
  apply elem_of_map_to_list in Hin. by apply (Hno uid).
Qed.

(** A broadcast of the online status touches registered clients only. *)
Lemma broadcastOnlineStatus_frame s s' a :
  wf s → broadcastOnlineStatus s = Some s' →
  (∀ uid, clients s !! uid ≠ Some a) → heap s' !! a = heap s !! a.
Proof.
  intros Hwf Hb Hno. unfold broadcastOnlineStatus in Hb.
  destruct (status_loop_spec
              (EvOnline (mkOnlineStatus (length (online_rows s)) (online_rows s)))
              (map_to_list (clients s)) (heap s))
    as (h' & Heq & _ & _ & Hout).
  - by destruct Hwf as (_ & _ & ? & _).
  - intros uid a' Ha. apply (wf_registered_open s uid a' Hwf).
    by apply elem_of_map_to_list.
  - rewrite Heq in Hb. simpl in Hb. injection Hb as <-. simpl.
    apply Hout. by apply not_registered_values.
Qed.


(** [sseStreamHandler] up to its first frame, with what it leaves alone. *)
Lemma open_spec userID username photoURL s :
  wf s → userID ≠ "" →
  ∃ s' ev c,
    sseStreamHandler_open userID username photoURL s
      = Some (s', Some (next_client s, ev)) ∧
    wf s' ∧
    clients s' = <[userID := next_client s]> (clients s) ∧
    next_client s' = S (next_client s) ∧
    heap s' !! next_client s = Some c ∧ closed (Channel c) = false ∧
    googleClientID s' = googleClientID s ∧
    chat_users s' =
      alter (λ r, mkUserRow (email r) (Chat.username r) (photo_url r) true)
            userID (chat_users s) ∧
    chat_messages s' = chat_messages s ∧
    next_message_id s' = next_message_id s ∧
    chat_blocks s' = chat_blocks s ∧
    chat_banned_users s' = chat_banned_users s.
Proof.
  intros Hwf Hne. unfold sseStreamHandler_open. rewrite decide_False by done.
  match goal with |- context [broadcastOnlineStatus ?s2] =>
    destruct (broadcastOnlineStatus_spec s2) as (s3 & Hs3 & Hwf3 & Heq & Hin)
  end.
  { apply chat_wf_set_users. by apply chat_wf_register. }
  rewrite Hs3. simpl.
  destruct (Hin userID (next_client s)) as (c & Hc & Hc').
  { simpl. by rewrite lookup_insert_eq. }
  simpl in Hc. rewrite lookup_insert_eq in Hc. injection Hc as <-.
  eexists _, _, _. split; [done|]. split; [done|].
  split_and!; [by rewrite Heq|by rewrite Heq|exact Hc'| |by rewrite Heq..].
  unfold offered. simpl. by rewrite ?after_send_closed.
Qed.

(** The end of a stream. *)
Lemma done_spec userID s :
  wf s →
  ∃ s',
    sseStreamHandler_done userID s = Some s' ∧
    wf s' ∧
    clients s' = delete userID (clients s) ∧
    next_client s' = next_client s ∧
    googleClientID s' = googleClientID s ∧
    chat_users s' =
      alter (λ r, mkUserRow (email r) (Chat.username r) (photo_url r) false)
            userID (chat_users s) ∧
    chat_messages s' = chat_messages s ∧
    next_message_id s' = next_message_id s ∧
    chat_blocks s' = chat_blocks s ∧
    chat_banned_users s' = chat_banned_users s ∧
    (∀ a, (∀ uid, uid ≠ userID → clients s !! uid ≠ Some a) →
          heap s' !! a = heap s !! a).
Proof.
  intros Hwf. unfold sseStreamHandler_done.
  set (s1 := set_online userID false _).
  assert (wf s1) as Hwf1.
  { apply chat_wf_set_users. destruct Hwf as (Hopen & Hreg & Hnd & Hlt).
    split_and!; simpl; [done| | |done].
    - intros uid a Ha. apply lookup_delete_Some in Ha as [_ Ha]. by apply (Hreg uid a).
    - apply distinct_clients. intros u1 u2 a H1 H2.
      apply lookup_delete_Some in H1 as [_ H1]. apply lookup_delete_Some in H2 as [_ H2].
      by apply (proj1 (distinct_clients (clients s)) Hnd u1 u2 a). }
  destruct (broadcastOnlineStatus_spec s1 Hwf1) as (s' & Hs' & Hwf' & Heq & _).
  exists s'. split; [done|]. split; [done|].
  split_and!; try (rewrite Heq; done).
  intros a Hno. rewrite (broadcastOnlineStatus_frame s1 s' a Hwf1 Hs'); [done|].
  intros uid Ha. simpl in Ha. apply lookup_delete_Some in Ha as [Hne Ha].
  by apply (Hno uid).
Qed.

End ChatRunFacts.



Module ChatServeFacts.
Import Chat ChatFacts.

Section serve.

Variable idtoken_Validate : string → string → option (gmap string json).

Lemma set_heap_fields h s :
  clients (set_heap h s) = clients s ∧
  chat_blocks (set_heap h s) = chat_blocks s ∧
  googleClientID (set_heap h s) = googleClientID s.
Proof. done. Qed.

Lemma broadcastOnlineStatus_sound s0 s :
  ChatHttp.sound s0 s → ∃ s', broadcastOnlineStatus s = Some s' ∧ ChatHttp.sound s0 s'.
Proof.
  intros (Hwf & Hnd & Hid).
  destruct (broadcastOnlineStatus_spec s Hwf) as (s' & Hs' & Hwf' & Heq & _).
  exists s'. split; [done|]. split; [done|]. rewrite Heq. by split.
Qed.

Lemma googleAuthHandler_sound s0 req s :
  ChatHttp.sound s0 s →
  googleClientID s = "" ∨ ChatHttp.tokens_carry_email idtoken_Validate (googleClientID s) →
  ∃ s' r, googleAuthHandler idtoken_Validate req s = Done (s', r) ∧ ChatHttp.sound s0 s'.
Proof.
  intros Hs Hmode. unfold googleAuthHandler.
  destruct req as [req|]; [|by eexists _, _].
  case_decide; [by eexists _, _|].
  assert (∃ r, resolve_identity idtoken_Validate req s = Done r) as [r Hr].
  { unfold resolve_identity. case_decide as Hid.
    - destruct Hmode as [Hdev|Hmail]; [done|].
      destruct (idtoken_Validate _ _) as [claims|] eqn:Hv; [|by eexists].
      destruct (Hmail _ _ Hv) as [e He]. rewrite He. simpl. by eexists.
    - case_decide; by eexists. }
  rewrite Hr. destruct r as [r|[[[userID em] name] photoURL]]; [by eexists _, _|].
  destruct (upsert_user userID em name photoURL (chat_users s)) as [users|];
    [|by eexists _, _].
  assert (ChatHttp.sound s0 (set_users users s)) as Hs1.
  { destruct Hs as (Hwf & Hnd & Hid). split; [by apply chat_wf_set_users|]. by split. }
  destruct (chat_users (set_users users s) !! userID) as [user|]; [|by eexists _, _].
  destruct (broadcastOnlineStatus_sound s0 _ Hs1) as (s2 & Hb & Hs2).
  rewrite Hb. by eexists _, _.
Qed.

Lemma sendMessageHandler_sound s0 current_timestamp now userID message s :
  ChatHttp.sound s0 s →
  ∃ s' r, sendMessageHandler current_timestamp now userID message s = Some (s', r) ∧
          ChatHttp.sound s0 s'.
Proof.
  intros Hs. unfold sendMessageHandler.
  case_decide; [by eexists _, _|].
  destruct (isUserBanned userID s); [by eexists _, _|].
  destruct (chat_users s !! userID) as [u|]; [|by eexists _, _].
  set (m := Message.mk _ _ _ _ _ now). set (s1 := set_messages _ _ s).
  destruct Hs as (Hwf & Hnd & Hid).
  destruct (broadcastMessage_in_spec (map_to_list (clients s1)) m userID s1)
    as (s2 & sent & blocked & Hb & Hwf2 & Heq & _).
  { by apply wf_set_messages. }
  { done. }
  unfold broadcastMessage. rewrite Hb. eexists _, _. split; [done|].
  split; [done|]. rewrite Heq. by split.
Qed.

Lemma blockUserHandler_sound s0 blockerID blockedID s :
  ChatHttp.sound s0 s → ChatHttp.sound s0 (blockUserHandler blockerID blockedID s).
Proof.
  intros (Hwf & Hnd & Hid). unfold blockUserHandler.
  case_decide; [done|]. case_decide as Hin; [done|].
  split; [by apply ChatHttpFacts.wf_set_blocks|]. split; [|done]. simpl.
  apply NoDup_app. split; [done|]. split; [|apply NoDup_singleton].
  intros p Hp Hp'%list_elem_of_singleton. by subst.
Qed.

Lemma unblockUserHandler_sound s0 blockerID blockedID s :
  ChatHttp.sound s0 s → ChatHttp.sound s0 (unblockUserHandler blockerID blockedID s).
Proof.
  intros (Hwf & Hnd & Hid). unfold unblockUserHandler.
  case_decide; [done|].
  split; [by apply ChatHttpFacts.wf_set_blocks|]. split; [|done]. simpl.
  by apply NoDup_filter.
Qed.

Lemma banUserHandler_sound s0 userID reason bannedBy s :
  ChatHttp.sound s0 s → ChatHttp.sound s0 (ChatHttp.banUserHandler userID reason bannedBy s).1.
Proof.
  intros (Hwf & Hnd & Hid). unfold ChatHttp.banUserHandler.
  case_decide; [done|]. destruct (chat_users s !! userID); [|done]. simpl.
  split; [|done]. apply wf_set_messages. by apply ChatHttpFacts.wf_set_banned.
Qed.

Lemma unbanUserHandler_sound s0 userID s :
  ChatHttp.sound s0 s → ChatHttp.sound s0 (ChatHttp.unbanUserHandler userID s).1.
Proof.
  intros (Hwf & Hnd & Hid). unfold ChatHttp.unbanUserHandler.
  case_decide; [done|]. destruct (chat_banned_users s !! userID); [|done]. simpl.
  split; [|done]. by apply ChatHttpFacts.wf_set_banned.
Qed.

Lemma sseStreamHandler_open_sound s0 userID username photoURL s :
  ChatHttp.sound s0 s →
  ∃ s' r, sseStreamHandler_open userID username photoURL s = Some (s', r) ∧ ChatHttp.sound s0 s'.
Proof.
  intros (Hwf & Hnd & Hid).
  destruct (decide (userID = "")) as [->|Hne].
  { unfold sseStreamHandler_open. rewrite decide_True by done. by eexists _, _. }
  destruct (ChatRunFacts.open_spec userID username photoURL s Hwf Hne)
    as (s' & ev & c & Ho & Hwf' & _ & _ & _ & _ & Hid' & _ & _ & _ & Hb & _).
  eexists _, _. split; [done|]. split; [done|]. rewrite Hb, Hid'. by split.
Qed.

Lemma sseStreamHandler_recv_sound s0 a s s' ev :
  ChatHttp.sound s0 s → sseStreamHandler_recv a s = Some (s', ev) → ChatHttp.sound s0 s'.
Proof.
  intros (Hwf & Hnd & Hid) Hrecv. unfold sseStreamHandler_recv in Hrecv.
  destruct (heap s !! a) as [c|] eqn:Hc; [|done]. simpl in Hrecv.
  destruct (try_recv (Channel c)) as [msg q| |] eqn:Hr; try done.
  injection Hrecv as <- _.
  split; [|by split]. apply wf_set_heap; [done|].
  intros a'. destruct (decide (a' = a)) as [->|Hne].
  - rewrite lookup_insert_eq, Hc. simpl. f_equal.
    by apply (try_recv_closed _ _ msg).
  - by rewrite lookup_insert_ne.
Qed.

Lemma sseStreamHandler_done_sound s0 userID s :
  ChatHttp.sound s0 s → ∃ s', sseStreamHandler_done userID s = Some s' ∧ ChatHttp.sound s0 s'.
Proof.
  intros (Hwf & Hnd & Hid).
  destruct (ChatRunFacts.done_spec userID s Hwf)
    as (s' & Hd & Hwf' & _ & _ & Hid' & _ & _ & _ & Hb & _).
  exists s'. split; [done|]. split; [done|]. rewrite Hb, Hid'. by split.
Qed.

Lemma serve_sound s0 c s :
  ChatHttp.sound s0 s →
  googleClientID s0 = "" ∨ ChatHttp.tokens_carry_email idtoken_Validate (googleClientID s0) →
  ∃ s', ChatHttp.serve idtoken_Validate c s = Done s' ∧ ChatHttp.sound s0 s'.
Proof.
  intros Hs Hmode.
  assert (googleClientID s = "" ∨ ChatHttp.tokens_carry_email idtoken_Validate (googleClientID s)) as Hmode'.
  { destruct Hs as (_ & _ & ->). done. }
  destruct c as [req|ts now userID message|b1 b2|b1 b2|userID reason bannedBy|userID
                |userID name photo|a|userID]; simpl.
  - destruct (googleAuthHandler_sound s0 req s Hs Hmode') as (s' & r & -> & Hs').
    by exists s'.
  - destruct (sendMessageHandler_sound s0 ts now userID message s Hs)
      as (s' & r & -> & Hs').
    by exists s'.
  - eexists. split; [done|]. by apply blockUserHandler_sound.
  - eexists. split; [done|]. by apply unblockUserHandler_sound.
  - eexists. split; [done|]. by apply banUserHandler_sound.
  - eexists. split; [done|]. by apply unbanUserHandler_sound.
  - destruct (sseStreamHandler_open_sound s0 userID name photo s Hs)
      as (s' & r & -> & Hs'). by exists s'.
  - destruct (sseStreamHandler_recv a s) as [[s' ev]|] eqn:Hr.
    + exists s'. split; [done|]. by apply (sseStreamHandler_recv_sound s0 a s s' ev).
    + by exists s.
  - destruct (sseStreamHandler_done_sound s0 userID s Hs) as (s' & -> & Hs').
    by exists s'.
Qed.

Lemma serve_all_sound s0 calls s :
  ChatHttp.sound s0 s →
  googleClientID s0 = "" ∨ ChatHttp.tokens_carry_email idtoken_Validate (googleClientID s0) →
  ∃ s', ChatHttp.serve_all idtoken_Validate calls s = Done s' ∧ ChatHttp.sound s0 s'.
Proof.
  intros Hs Hmode. revert s Hs.
  induction calls as [|c calls IH]; intros s Hs; simpl.
  - by exists s.
  - destruct (serve_sound s0 c s Hs Hmode) as (s' & -> & Hs'). by apply IH.
Qed.

End serve.

End ChatServeFacts.

(** X17: every sequence of requests to the SSE chat (sign-in, send, block,
    unblock, ban, unban, stream open, stream receive, stream end) is served
    without a panic from a well-formed state, provided tokens that the
    validator accepts carry an e-mail claim (or no client id is configured);
    the state stays well-formed, the block table stays free of duplicates,
    no channel is ever closed, and every registered user id has its client. *)
Theorem requests_never_close_a_channel
    (idtoken_Validate : string → string → option (gmap string json)) calls s :
  Chat.wf s → NoDup (Chat.chat_blocks s) →
  (Chat.googleClientID s = "" ∨
   ∀ token claims,
     idtoken_Validate token (Chat.googleClientID s) = Some claims →
     ∃ e, claims !! "email" = Some (JString e)) →
  ∃ s',
    ChatHttp.serve_all idtoken_Validate calls s = Done s' ∧
    Chat.wf s' ∧
    NoDup (Chat.chat_blocks s') ∧
    (∀ a c, Chat.heap s' !! a = Some c → closed (Chat.Channel c) = false) ∧
    (∀ uid a, Chat.clients s' !! uid = Some a → is_Some (Chat.heap s' !! a)).
Proof.
  intros Hwf Hnd Hmode.
  assert (ChatHttp.sound s s) as Hs by done.
  destruct (ChatServeFacts.serve_all_sound idtoken_Validate s calls s Hs Hmode)
    as (s' & Hrun & Hwf' & Hnd' & _).
  exists s'. split; [done|]. split; [done|]. split; [done|].
  destruct Hwf' as (Hopen & Hreg & _ & _). split.
  - intros a c Hc. by apply (Hopen a c).
  - intros uid a Ha. by apply (Hreg uid a).
Qed.

Lemma requests_never_close_a_channel_witness :
  ∃ s',
    ChatHttp.serve_all Samples.reject_all chat_day (Chat.initial_state "") = Done s' ∧
    Chat.wf s'.
Proof.
  destruct (requests_never_close_a_channel Samples.reject_all chat_day
              (Chat.initial_state "")) as (s' & Hrun & Hwf & _).
  - apply ChatFacts.chat_wf_initial.
  - constructor.
  - left. reflexivity.
  - exists s'. split; [exact Hrun|exact Hwf].
Defined.

(** X18: a sign-in whose identity is resolved answers 200 with that
    identity and writes exactly one user row, keyed by the e-mail address
    and flagged online, replacing the row of that address if there is one;
    the registry, the messages, the blocks and the bans are untouched, and
    every registered client is offered the new online status. *)
Theorem sign_in_keeps_one_row_per_identity
    (idtoken_Validate : string → string → option (gmap string json))
    req s userID em name photo :
  Chat.wf s → Chat.IDToken req ≠ "" →
  (∀ id r, Chat.chat_users s !! id = Some r → Chat.email r = id) →
  Chat.resolve_identity idtoken_Validate req s = Done (inr (userID, em, name, photo)) →
  ∃ s',
    userID = em ∧
    Chat.googleAuthHandler idtoken_Validate (Some req) s
      = Done (s', Chat.Auth200 userID name photo) ∧
    Chat.chat_users s'
      = <[userID := Chat.mkUserRow userID name photo true]> (Chat.chat_users s) ∧
    (∀ id r, Chat.chat_users s' !! id = Some r → Chat.email r = id) ∧
    Chat.clients s' = Chat.clients s ∧
    Chat.chat_messages s' = Chat.chat_messages s ∧
    Chat.chat_blocks s' = Chat.chat_blocks s ∧
    Chat.chat_banned_users s' = Chat.chat_banned_users s ∧
    (∀ uid a c,
       Chat.clients s !! uid = Some a → Chat.heap s !! a = Some c →
       Chat.heap s' !! a
         = Some (Chat.offered
                   (Chat.EvOnline (Chat.mkOnlineStatus (length (Chat.online_rows s'))
                                                       (Chat.online_rows s'))) c)).
Proof.
  intros Hwf Htoken Hinv Hres.
  assert (userID = em) as <-.
  { unfold Chat.resolve_identity in Hres. case_decide.
    - destruct (idtoken_Validate _ _); [|done].
      destruct (Chat.must_string _); try done. by injection Hres as <- <- _ _.
    - case_decide; [done|]. by injection Hres as <- <- _ _. }
  set (row := Chat.mkUserRow userID name photo true).
  assert (Chat.upsert_user userID userID name photo (Chat.chat_users s)
          = Some (<[userID := row]> (Chat.chat_users s))) as Hup.
  { unfold Chat.upsert_user. destruct (Chat.chat_users s !! userID) as [r|] eqn:Hr.
    - by rewrite (Hinv userID r Hr).
    - rewrite decide_False; [done|].
      intros (id & r & Hid & Hmail). simpl in Hmail.
      rewrite <- (Hinv id r Hid), Hmail in Hid. congruence. }
  set (s1 := Chat.set_users (<[userID := row]> (Chat.chat_users s)) s).
  destruct (ChatFacts.broadcastOnlineStatus_spec s1) as (s2 & Hb & Hwf2 & Heq & Hin).
  { by apply ChatFacts.chat_wf_set_users. }
  assert (Chat.chat_users s2 = <[userID := row]> (Chat.chat_users s)) as Husers
    by (by rewrite Heq).
  exists s2. split; [done|]. split_and!.
  - unfold Chat.googleAuthHandler. rewrite decide_False by done.
    rewrite Hres, Hup. fold s1.
    assert (Chat.chat_users s1 !! userID = Some row) as ->
      by (simpl; apply lookup_insert_eq).
    by rewrite Hb.
  - done.
  - intros id r. rewrite Husers. destruct (decide (id = userID)) as [->|Hne].
    + rewrite lookup_insert_eq. by intros [= <-].
    + rewrite lookup_insert_ne by done. apply Hinv.
  - by rewrite Heq.
  - by rewrite Heq.
  - by rewrite Heq.
  - by rewrite Heq.
  - intros uid a c Ha Hc. destruct (Hin uid a Ha) as (c' & Hc' & Hs2).
    simpl in Hc'. rewrite Hc in Hc'. injection Hc' as <-.
    rewrite Hs2. unfold Chat.online_rows. by rewrite Husers.
Qed.

Lemma sign_in_keeps_one_row_per_identity_witness :
  ∃ s',
    Chat.googleAuthHandler Samples.reject_all (Some dev_request) (Chat.initial_state "")
      = Done (s', Chat.Auth200 "test@example.com" "Test User"
                    "https://example.com/photo.jpg") ∧
    Chat.chat_users s'
      = {["test@example.com" :=
            Chat.mkUserRow "test@example.com" "Test User"
                           "https://example.com/photo.jpg" true]}.
Proof.
  destruct (sign_in_keeps_one_row_per_identity Samples.reject_all dev_request
              (Chat.initial_state "") "test@example.com" "test@example.com"
              "Test User" "https://example.com/photo.jpg")
    as (s' & _ & Hauth & Husers & _).
  - apply ChatFacts.chat_wf_initial.
  - discriminate.
  - intros id r Hr. simpl in Hr. by rewrite lookup_empty in Hr.
  - reflexivity.
  - exists s'. split; [exact Hauth|]. rewrite Husers. reflexivity.
Defined.

Module ChatIdFacts.
Import Chat.

Lemma broadcastOnlineStatus_table s s' :
  broadcastOnlineStatus s = Some s' →
  chat_messages s' = chat_messages s ∧ next_message_id s' = next_message_id s.
Proof.
  unfold broadcastOnlineStatus. destruct (status_loop _ _ _) as [h|]; [|done].
  simpl. by intros [= <-].
Qed.

Lemma broadcastMessage_table message sender s s' sent blocked :
  broadcastMessage message sender s = Some (s', sent, blocked) →
  chat_messages s' = chat_messages s ∧ next_message_id s' = next_message_id s.
Proof.
  unfold broadcastMessage, broadcastMessage_in. case_decide; [by intros [= <- _ _]|].
  destruct (message_loop _ _ _ _ _ _ _) as [[[h ?] ?]|]; [|done].
  by intros [= <- _ _].
Qed.

Section serve.

Variable idtoken_Validate : string → string → option (gmap string json).

Lemma serve_table c s s' :
  ChatHttp.serve idtoken_Validate c s = Done s' → ChatHttp.table_step s s'.
Proof.
  destruct c as [req|ts now userID message|b1 b2|b1 b2|userID reason bannedBy|userID
                |userID name photo|a|userID]; simpl.
  - unfold googleAuthHandler. destruct req as [req|]; [|by intros [= <-]; left].
    case_decide; [by intros [= <-]; left|].
    destruct (resolve_identity _ _ _) as [[r|[[[uid em] name] photo]]| |];
      [by intros [= <-]; left| |done|done].
    destruct (upsert_user _ _ _ _ _) as [users|]; [|by intros [= <-]; left].
    destruct (chat_users (set_users users s) !! uid); [|by intros [= <-]; left].
    destruct (broadcastOnlineStatus _) as [s2|] eqn:Hb; [|done].
    intros [= <-]. left. by apply broadcastOnlineStatus_table in Hb.
  - unfold sendMessageHandler. case_decide; [by intros [= <-]; left|].
    destruct (isUserBanned userID s); [by intros [= <-]; left|].
    destruct (chat_users s !! userID) as [u|]; [|by intros [= <-]; left].
    destruct (broadcastMessage _ _ _) as [[[s2 ?] ?]|] eqn:Hb; [|done].
    intros [= <-]. right. right. apply broadcastMessage_table in Hb as [Hm Hn].
    eexists. rewrite Hm, Hn. simpl. split; [|done]. done.
  - intros [= <-]. left. unfold blockUserHandler. by repeat case_decide.
  - intros [= <-]. left. unfold unblockUserHandler. by case_decide.
  - intros [= <-]. unfold ChatHttp.banUserHandler. case_decide; [by left|].
    destruct (chat_users s !! userID); [|by left]. right. left. by exists userID.
  - intros [= <-]. left. unfold ChatHttp.unbanUserHandler. case_decide; [done|].
    by destruct (chat_banned_users s !! userID).
  - unfold sseStreamHandler_open. case_decide; [by intros [= <-]; left|].
    destruct (broadcastOnlineStatus _) as [s3|] eqn:Hb; [|done]. simpl.
    intros [= <-]. left. by apply broadcastOnlineStatus_table in Hb.
  - unfold sseStreamHandler_recv. destruct (heap s !! a) as [c|]; simpl;
      [|by intros [= <-]; left].
    destruct (try_recv _); intros [= <-]; by left.
  - unfold sseStreamHandler_done.
    destruct (broadcastOnlineStatus _) as [s3|] eqn:Hb; [|done].
    intros [= <-]. left. by apply broadcastOnlineStatus_table in Hb.
Qed.

End serve.

Lemma StronglySorted_filter {A} (R : relation A) (P : A → Prop) `{∀ x, Decision (P x)}
    (l : list A) :
  StronglySorted R l → StronglySorted R (filter P l).
Proof.
  induction 1 as [|x l Hl IH Hall]; [constructor|].
  destruct (decide (P x)).
  - rewrite filter_cons_True by done. constructor; [done|].
    apply Forall_forall. intros y Hy%list_elem_of_filter.
    rewrite Forall_forall in Hall. apply Hall. tauto.
  - by rewrite filter_cons_False.
Qed.

Lemma StronglySorted_snoc {A} (R : relation A) (l : list A) x :
  StronglySorted R l → (∀ y, y ∈ l → R y x) → StronglySorted R (l ++ [x]).
Proof.
  induction 1 as [|z l Hl IH Hall]; intros Hx; simpl.
  - repeat constructor.
  - constructor.
    + apply IH. intros y Hy. apply Hx. by right.
    + apply Forall_app. split; [done|]. constructor; [|constructor]. apply Hx. by left.
Qed.

Lemma table_step_ids s s' :
  ChatHttp.table_step s s' → ChatHttp.ids_increase s →
  ChatHttp.ids_increase s' ∧ (next_message_id s ≤ next_message_id s')%Z ∧
  (∀ m, m ∈ chat_messages s' →
        m ∈ chat_messages s ∨ (next_message_id s ≤ Message.ID m)%Z).
Proof.
  intros [[Hm Hn]|[(userID & Hm & Hn)|(m0 & Hid & Hm & Hn)]] [Hlt Hss];
    unfold ChatHttp.ids_increase; rewrite Hm, Hn.
  - split; [by split|]. split; [lia|]. by left.
  - split; [split|split].
    + intros m Hin%list_elem_of_filter. apply Hlt. tauto.
    + by apply StronglySorted_filter.
    + lia.
    + intros m Hin%list_elem_of_filter. left. tauto.
  - split; [split|split].
    + intros m [Hin|Hin%list_elem_of_singleton]%elem_of_app.
      * specialize (Hlt m Hin). lia.
      * subst. lia.
    + apply StronglySorted_snoc; [done|]. intros y Hy. rewrite Hid. by apply Hlt.
    + lia.
    + intros m [Hin|Hin%list_elem_of_singleton]%elem_of_app; [by left|].
      right. subst. lia.
Qed.

Lemma ids_increase_NoDup s :
  ChatHttp.ids_increase s → NoDup (Message.ID <$> chat_messages s).
Proof.
  intros [_ Hss]. induction Hss as [|x l Hl IH Hall]; simpl; [constructor|].
  constructor; [|done].
  intros Hin%list_elem_of_fmap. destruct Hin as (y & Hy & Hin).
  rewrite Forall_forall in Hall. specialize (Hall y Hin). lia.
Qed.

End ChatIdFacts.

(** X19: message ids are never reused. Along every sequence of requests
    the message counter does not decrease, the stored messages have ids
    below it, increasing in storage order and hence distinct, also after a
    ban deleted messages; a message stored by the sequence has an id that
    no earlier message had. *)
Theorem message_ids_are_never_reused
    (idtoken_Validate : string → string → option (gmap string json)) calls s :
  Chat.wf s → NoDup (Chat.chat_blocks s) →
  (Chat.googleClientID s = "" ∨
   ∀ token claims,
     idtoken_Validate token (Chat.googleClientID s) = Some claims →
     ∃ e, claims !! "email" = Some (JString e)) →
  (∀ m, m ∈ Chat.chat_messages s → (Message.ID m < Chat.next_message_id s)%Z) →
  StronglySorted (λ a b, (Message.ID a < Message.ID b)%Z) (Chat.chat_messages s) →
  ∃ s',
    ChatHttp.serve_all idtoken_Validate calls s = Done s' ∧
    (Chat.next_message_id s ≤ Chat.next_message_id s')%Z ∧
    (∀ m, m ∈ Chat.chat_messages s' → (Message.ID m < Chat.next_message_id s')%Z) ∧
    StronglySorted (λ a b, (Message.ID a < Message.ID b)%Z) (Chat.chat_messages s') ∧
    NoDup (Message.ID <$> Chat.chat_messages s') ∧
    (∀ m, m ∈ Chat.chat_messages s' →
          m ∈ Chat.chat_messages s ∨ (Chat.next_message_id s ≤ Message.ID m)%Z).
Proof.
  intros Hwf Hnd Hmode Hlt Hss.
  assert (ChatHttp.sound s s) as Hsound by done.
  destruct (ChatServeFacts.serve_all_sound idtoken_Validate s calls s Hsound Hmode)
    as (s' & Hrun & _).
  exists s'. split; [exact Hrun|].
  assert (ChatHttp.ids_increase s) as Hs by done. clear Hlt Hss Hsound Hwf Hnd Hmode.
  assert (ChatHttp.ids_increase s' ∧
          (Chat.next_message_id s ≤ Chat.next_message_id s')%Z ∧
          (∀ m, m ∈ Chat.chat_messages s' →
                m ∈ Chat.chat_messages s ∨ (Chat.next_message_id s ≤ Message.ID m)%Z))
    as (Hs' & Hle & Hnew).
  { revert s Hs Hrun. induction calls as [|c calls IH]; intros s Hs Hrun; simpl in Hrun.
    - injection Hrun as <-. split; [done|]. split; [lia|]. by left.
    - destruct (ChatHttp.serve idtoken_Validate c s) as [t| |] eqn:Hc; try done.
      destruct (ChatIdFacts.table_step_ids s t
                  (ChatIdFacts.serve_table idtoken_Validate c s t Hc) Hs)
        as (Ht & Hle1 & Hnew1).
      destruct (IH t Ht Hrun) as (Hs' & Hle2 & Hnew2).
      split; [done|]. split; [lia|].
      intros m Hm. destruct (Hnew2 m Hm) as [Hin|Hge]; [|right; lia].
      destruct (Hnew1 m Hin) as [?|?]; [by left|by right]. }
  split; [done|]. destruct Hs' as [Hlt' Hss']. split; [done|]. split; [done|].
  split; [|done]. by apply ChatIdFacts.ids_increase_NoDup.
Qed.

Lemma message_ids_are_never_reused_witness :
  ∃ s',
    ChatHttp.serve_all Samples.reject_all chat_day (Chat.initial_state "") = Done s' ∧
    (Chat.next_message_id (Chat.initial_state "") ≤ Chat.next_message_id s')%Z ∧
    NoDup (Message.ID <$> Chat.chat_messages s').
Proof.
  destruct (message_ids_are_never_reused Samples.reject_all chat_day
              (Chat.initial_state "")) as (s' & Hrun & Hle & _ & _ & Hnd & _).
  - apply ChatFacts.chat_wf_initial.
  - constructor.
  - left. reflexivity.
  - intros m Hm. by apply elem_of_nil in Hm.
  - constructor.
  - exists s'. split; [exact Hrun|]. split; [exact Hle|exact Hnd].
Defined.
